(** * A shallow embedding of github.com/metakeule/config

    Go strings are byte strings; they are modelled by Rocq's [string]
    (a list of 8-bit [ascii] characters).  Go maps are modelled by stdpp's
    [gmap]; where the Go code ranges over a map (whose iteration order Go
    leaves unspecified) the model ranges over [map_to_list], one fixed order.
    The functions of Go's standard library that the package calls are
    written out below ([strings], [strconv]) or, where they are large
    (floating-point and time formatting, JSON syntax, [filepath.Join],
    [filepath.Dir]),
    taken as the fields of the class [GoPrims]. *)

From Stdlib Require Import Ascii String ZArith Lia List.
From Stdlib Require Import DecimalString DecimalN.
From stdpp Require Import base gmap strings list.

Import ListNotations.
#[local] Open Scope Z_scope.

#[local] Arguments String.append : simpl nomatch.

(* ------------------------------------------------------------------ *)
(** ** Go's [strings] package on byte strings *)

Module GoStrings.

Definition NL : ascii := "010"%char.
Definition CR : ascii := "013"%char.

Definition ch (c : ascii) : string := String c EmptyString.

(** [strings.Split(s, sep)] for a one-byte separator. *)
Fixpoint Split (sep : ascii) (s : string) : list string :=
  match s with
  | EmptyString => [EmptyString]
  | String c s' =>
      let r := Split sep s' in
      if Ascii.eqb c sep then EmptyString :: r
      else match r with
           | w :: ws => String c w :: ws
           | [] => [ch c]
           end
  end.

(** The inverse direction: [strings.Join(ws, sep)]. *)
Fixpoint Join (sep : ascii) (ws : list string) : string :=
  match ws with
  | [] => EmptyString
  | [w] => w
  | w :: ws' => String.append w (String sep (Join sep ws'))
  end.

(** [strings.Index(s, sep)] for a one-byte [sep]; [-1] when absent. *)
Fixpoint Index (c : ascii) (s : string) : Z :=
  match s with
  | EmptyString => -1
  | String d s' =>
      if Ascii.eqb d c then 0
      else let i := Index c s' in if i <? 0 then -1 else i + 1
  end.

Fixpoint Contains (c : ascii) (s : string) : bool :=
  match s with
  | EmptyString => false
  | String d s' => Ascii.eqb d c || Contains c s'
  end.

Fixpoint HasPrefix (s p : string) : bool :=
  match p, s with
  | EmptyString, _ => true
  | String c p', String d s' => Ascii.eqb c d && HasPrefix s' p'
  | String _ _, EmptyString => false
  end.

(** Go slicing [s[i:]] and [s[i:j]] on in-range indices. *)
Definition from (i : Z) (s : string) : string :=
  substring (Z.to_nat i) (String.length s - Z.to_nat i) s.
Definition slice (i j : Z) (s : string) : string :=
  substring (Z.to_nat i) (Z.to_nat (j - i)) s.

Definition len (s : string) : Z := Z.of_nat (String.length s).

Definition is_upper (c : ascii) : bool :=
  (Nat.leb 65 (nat_of_ascii c) && Nat.leb (nat_of_ascii c) 90)%nat.
Definition is_lower (c : ascii) : bool :=
  (Nat.leb 97 (nat_of_ascii c) && Nat.leb (nat_of_ascii c) 122)%nat.
Definition is_digit (c : ascii) : bool :=
  (Nat.leb 48 (nat_of_ascii c) && Nat.leb (nat_of_ascii c) 57)%nat.

Fixpoint Map (f : ascii -> ascii) (s : string) : string :=
  match s with
  | EmptyString => EmptyString
  | String c s' => String (f c) (Map f s')
  end.

(** [strings.ToUpper] / [strings.ToLower].  Go maps ASCII letters byte by
    byte and other text by Unicode case mapping; the model maps the ASCII
    letters and leaves every other byte unchanged, which is exact on
    ASCII text. *)
Definition upper_char (c : ascii) : ascii :=
  if is_lower c then ascii_of_nat (nat_of_ascii c - 32) else c.
Definition lower_char (c : ascii) : ascii :=
  if is_upper c then ascii_of_nat (nat_of_ascii c + 32) else c.
Definition ToUpper : string -> string := Map upper_char.
Definition ToLower : string -> string := Map lower_char.

(** [strings.Replace(s, old, new, -1)] for one-byte [old] and [new]. *)
Definition ReplaceAll (old new : ascii) : string -> string :=
  Map (fun c => if Ascii.eqb c old then new else c).

(** The ASCII white space of Go's [asciiSpace] table. *)
Definition is_space (c : ascii) : bool :=
  match nat_of_ascii c with
  | 9 | 10 | 11 | 12 | 13 | 32 => true
  | _ => false
  end%nat.

Fixpoint TrimLeftBy (p : ascii -> bool) (s : string) : string :=
  match s with
  | EmptyString => EmptyString
  | String c s' => if p c then TrimLeftBy p s' else s
  end.

Fixpoint rev_str (s : string) : string :=
  match s with
  | EmptyString => EmptyString
  | String c s' => String.append (rev_str s') (ch c)
  end.

Definition TrimRightBy (p : ascii -> bool) (s : string) : string :=
  rev_str (TrimLeftBy p (rev_str s)).

(** [strings.TrimSpace].  Go trims ASCII white space and, on text whose
    edge byte is not ASCII, Unicode white space; the model trims the
    ASCII white space, which agrees with Go whenever the first and last
    bytes left are ASCII. *)
Definition TrimSpace (s : string) : string :=
  TrimRightBy is_space (TrimLeftBy is_space s).

(** [strings.TrimRight(s, " ")] and [strings.TrimLeft(s, "-")]. *)
Definition TrimRightSpaces := TrimRightBy (fun c => Ascii.eqb c " "%char).
Definition TrimLeftDashes := TrimLeftBy (fun c => Ascii.eqb c "-"%char).

End GoStrings.

Import GoStrings.

(* ------------------------------------------------------------------ *)
(** ** Name, version, type and shortflag grammar (validate.go) *)

(** [word_regexp = ^[A-Z][A-Z0-9]+$] *)
Definition word_regexp_MatchString (w : string) : bool :=
  match w with
  | String c rest =>
      is_upper c && negb (String.eqb rest EmptyString)
      && forallb (fun d => is_upper d || is_digit d) (list_ascii_of_string rest)
  | EmptyString => false
  end.

(** [VersionRegexp = ^[a-z0-9-.]+$] *)
Definition VersionRegexp_MatchString (v : string) : bool :=
  negb (String.eqb v EmptyString)
  && forallb (fun d => is_lower d || is_digit d || Ascii.eqb d "-"%char
                       || Ascii.eqb d "."%char) (list_ascii_of_string v).

(** [ShortflagRegexp = ^[a-z]$] *)
Definition ShortflagRegexp_MatchString (s : string) : bool :=
  match s with
  | String c EmptyString => is_lower c
  | _ => false
  end.

(** The errors of the package, one constructor per Go error value or
    error type; [ErrText] stands for an [errors.New] / [fmt.Errorf] text. *)
Inductive error :=
| ErrInvalidName | ErrInvalidVersion | ErrInvalidType | ErrInvalidShortflag
| ErrInvalidValue | ErrInvalidDefault | ErrMissingHelp | ErrSubSubCommand
| ErrInvalidAppName (app : string)
| ErrInvalidOptionName (name : string)
| ErrDoubleOption (key : string)
| ErrDoubleShortflag (shortflag : string)
| InvalidNameError (name : string)
| UnknownOptionError (version key : string)
| InvalidValueError (key val : string)
| EmptyValueError (key : string)
| MissingOptionError (version key : string)
| InvalidConfig (version : string) (inner : error)
| InvalidTypeError (key typ : string)
| InvalidConfigFileError (location version : string) (inner : error)
| InvalidConfigEnv (version name : string) (inner : error)
| InvalidConfigFlag (version pair : string) (inner : error)
| ErrVersionSkew (val key fileVersion runVersion : string)
| ErrInvalidOptionValue (key : string) (inner : error)
| ErrMergeFile (path : string) (inner : error)
| ErrJSONSyntax (text : string)
| ErrText (msg : string).

#[global] Instance error_eq_dec : EqDecision error.
Proof. solve_decision. Defined.

Definition ValidateShortflag (shortflag : string) : option error :=
  if String.eqb shortflag "" || ShortflagRegexp_MatchString shortflag
  then None else Some ErrInvalidShortflag.

Definition ValidateName (name : string) : option error :=
  if String.eqb name "" then Some ErrInvalidName
  else if forallb word_regexp_MatchString (Split "_"%char name) then None
  else Some ErrInvalidName.

Definition ValidateVersion (version : string) : option error :=
  if VersionRegexp_MatchString version then None else Some ErrInvalidVersion.

Definition ValidateType (typ : string) : option error :=
  if existsb (String.eqb typ)
       ["bool"; "int32"; "float32"; "string"; "datetime"; "json"]%string
  then None else Some ErrInvalidType.

(* ------------------------------------------------------------------ *)
(** ** Go's [strconv] parsing used by [stringToValue] *)

(** [strconv.ParseBool] *)
Definition ParseBool (str : string) : option bool :=
  if existsb (String.eqb str) ["1"; "t"; "T"; "TRUE"; "true"; "True"]%string
  then Some true
  else if existsb (String.eqb str) ["0"; "f"; "F"; "FALSE"; "false"; "False"]%string
  then Some false
  else None.

(** [strconv.ParseUint(s, 10, 64)]: decimal digits only, at most 2^64-1. *)
Definition ParseUint64 (s : string) : option N :=
  if String.eqb s "" then None
  else match NilEmpty.uint_of_string s with
       | Some d => let n := N.of_uint d in
                   if (n <? 2 ^ 64)%N then Some n else None
       | None => None
       end.

(** [strconv.ParseInt(s, 10, 32)]: optional sign, then [ParseUint], then the
    range check against [-2^31, 2^31-1]; [None] is an error result. *)
Definition ParseInt32 (s : string) : option Z :=
  match s with
  | EmptyString => None
  | String c s' =>
      let '(neg, body) :=
        if Ascii.eqb c "+"%char then (false, s')
        else if Ascii.eqb c "-"%char then (true, s')
        else (false, s) in
      match ParseUint64 body with
      | None => None
      | Some un =>
          if (negb neg && (2 ^ 31 <=? un)%N) || (neg && (2 ^ 31 <? un)%N)
          then None
          else Some (if neg then - Z.of_N un else Z.of_N un)
      end
  end.

(** [fmt.Sprintf("%v", i)] for an [int32]. *)
Definition SprintInt32 (i : Z) : string := NilEmpty.string_of_int (Z.to_int i).

(* ------------------------------------------------------------------ *)
(** ** The library functions that are not written out *)

(** [float32] and [time.Time] are kept abstract, with the library
    functions the package applies to them.  [FormatDateTime] is
    [t.Format(DateTimeFormat)]; the layout constants [DateTimeFormat],
    [DateFormat] and [TimeFormat] are not part of the sources, so
    statements that use them assume nothing about them. *)
Class GoPrims := {
  float32 : Type;
  time : Type;
  ParseFloat32 : string -> option float32;   (* strconv.ParseFloat(s, 32) *)
  SprintFloat32 : float32 -> string;         (* fmt "%v" *)
  ParseRFC3339 : string -> option time;      (* time.Parse(time.RFC3339, s) *)
  FormatDateTime : time -> string;           (* t.Format(DateTimeFormat) *)
  FormatDate : time -> string;               (* t.Format(DateFormat) *)
  FormatTime : time -> string;               (* t.Format(TimeFormat) *)
  SprintTime : time -> string;               (* fmt "%v" *)
  JSONValid : string -> bool;                (* json.Unmarshal into interface{} succeeds *)
  FilepathJoin : list string -> string;      (* filepath.Join *)
  FilepathDir : string -> string             (* filepath.Dir *)
}.

Inductive result (A : Type) := Ok (a : A) | Err (e : error).
Arguments Ok {A} a.
Arguments Err {A} e.

(** Outcome of a call that may panic instead of returning. *)
Inductive outcome (A : Type) := Returns (a : A) | Panics (e : error).
Arguments Returns {A} a.
Arguments Panics {A} e.

Section Package.
Context `{GoPrims}.

(** The dynamic types of the values the package stores in [values]
    (an [interface{}] in Go); json values are stored as their text. *)
Inductive Value :=
| VBool (b : bool)
| VInt32 (i : Z)
| VFloat32 (f : float32)
| VString (s : string)
| VTime (t : time).

(** [fmt.Sprintf("%v", v)] *)
Definition SprintValue (v : Value) : string :=
  match v with
  | VBool b => if b then "true" else "false"
  | VInt32 i => SprintInt32 i
  | VFloat32 f => SprintFloat32 f
  | VString s => s
  | VTime t => SprintTime t
  end.

(** [stringToValue] (validate.go) *)
Definition stringToValue (typ : string) (in_ : string) : result Value :=
  if String.eqb typ "bool" then
    match ParseBool in_ with Some b => Ok (VBool b) | None => Err (ErrText "ParseBool") end
  else if String.eqb typ "int32" then
    match ParseInt32 in_ with Some i => Ok (VInt32 i) | None => Err (ErrText "ParseInt") end
  else if String.eqb typ "float32" then
    match ParseFloat32 in_ with Some f => Ok (VFloat32 f) | None => Err (ErrText "ParseFloat") end
  else if String.eqb typ "datetime" then
    match ParseRFC3339 in_ with Some t => Ok (VTime t) | None => Err (ErrText "time.Parse") end
  else if String.eqb typ "string" then Ok (VString in_)
  else if String.eqb typ "json" then
    if JSONValid in_ then Ok (VString in_) else Err (ErrJSONSyntax in_)
  else Err (ErrText ("unknown type " ++ typ)).

(** [type Option struct] (option.go) *)
Record Option := mkOption_ {
  Name : string;
  Required : bool;
  Type_ : string;
  Help : string;
  Default : option Value;
  Shortflag : string
}.

(** [Option.ValidateValue]; [None] is Go's [nil] value. *)
Definition ValidateValue (o : Option) (val : option Value) : option error :=
  match val with
  | None => if Required o then Some ErrInvalidValue else None
  | Some v =>
      match v with
      | VBool _ => if String.eqb (Type_ o) "bool" then None else Some ErrInvalidValue
      | VInt32 _ => if String.eqb (Type_ o) "int32" then None else Some ErrInvalidValue
      | VFloat32 _ => if String.eqb (Type_ o) "float32" then None else Some ErrInvalidValue
      | VString s =>
          if negb (String.eqb (Type_ o) "string") && negb (String.eqb (Type_ o) "json")
          then Some ErrInvalidValue
          else if String.eqb (Type_ o) "json" then
            (if JSONValid s then None else Some (ErrJSONSyntax s))
          else None
      | VTime _ => if String.eqb (Type_ o) "datetime" then None else Some ErrInvalidValue
      end
  end.

Definition ValidateDefault (o : Option) : option error :=
  match ValidateValue o (Default o) with Some _ => Some ErrInvalidDefault | None => None end.

(** [Option.Validate] *)
Definition Option_Validate (o : Option) : option error :=
  match ValidateName (Name o) with Some e => Some e | None =>
  match ValidateType (Type_ o) with Some e => Some e | None =>
  match ValidateDefault o with Some e => Some e | None =>
  if String.eqb (Help o) "" then Some ErrMissingHelp else None end end end.

(** One configuration namespace: the fields of [type Config struct] except
    [subcommands] and [currentSub].  A node created by [Sub] never owns
    subcommands ([Sub] refuses to nest), so a child is represented by its
    [Node]; the root is a [Config]. *)
Record Node := mkNode {
  app : string;
  version : string;
  spec : gmap string Option;
  values : gmap string Value;
  locations : gmap string (list string);
  shortflags : gmap string string
}.

Record Config := mkConfig {
  node : Node;
  subcommands : gmap string Node;
  currentSub : option string   (* the key of the selected child in [subcommands] *)
}.

Definition with_values_locations (n : Node) vs ls : Node :=
  mkNode (app n) (version n) (spec n) vs ls (shortflags n).
Definition with_node (c : Config) (n : Node) : Config :=
  mkConfig n (subcommands c) (currentSub c).
Definition with_sub (c : Config) (name : string) (s : Node) : Config :=
  mkConfig (node c) (<[name := s]> (subcommands c)) (currentSub c).

End Package.

(* ------------------------------------------------------------------ *)
(** ** The configuration node (config.go) *)

Section Node_ops.
Context `{GoPrims}.

Definition empty_node (app version : string) : Node :=
  mkNode app version ∅ ∅ ∅ ∅.

(** [Reset] clears the values, the locations and the current subcommand. *)
Definition Reset_node (n : Node) : Node := with_values_locations n ∅ ∅.
Definition Reset (c : Config) : Config :=
  mkConfig (Reset_node (node c)) (subcommands c) None.

(** [New] *)
Definition New (app version : string) : result Config :=
  match ValidateName app with
  | Some _ => Err (ErrInvalidAppName app)
  | None =>
      match ValidateVersion version with
      | Some e => Err e
      | None => Ok (Reset (mkConfig (empty_node app version) ∅ None))
      end
  end.

Definition isSub (n : Node) : bool := negb (Index "_"%char (app n) =? -1).

Definition appName (n : Node) : string :=
  if isSub n then slice 0 (Index "_"%char (app n)) (app n) else app n.

Definition subName (n : Node) : string :=
  if isSub n then from (Index "_"%char (app n) + 1) (app n) else "".

(** [Sub]: the child gets the version of the parent and the app name
    [parent_child]; it is stored under [name]. *)
Definition Sub (c : Config) (name : string) : result (Config * Node) :=
  if isSub (node c) then Err ErrSubSubCommand
  else match New name (version (node c)) with
       | Err e => Err e
       | Ok s =>
           let sn := node s in
           let sn' := mkNode (app (node c) ++ "_" ++ app sn) (version sn) (spec sn)
                             (values sn) (locations sn) (shortflags sn) in
           Ok (with_sub c name sn', sn')
       end.

(** [addOption]: the option enters [spec] before the shortflag is checked. *)
Definition addOption (n : Node) (opt : Option) : Node * option error :=
  match ValidateName (Name opt) with
  | Some _ => (n, Some (ErrInvalidOptionName (Name opt)))
  | None =>
      match spec n !! Name opt with
      | Some _ => (n, Some (ErrDoubleOption (Name opt)))
      | None =>
          let n1 := mkNode (app n) (version n) (<[Name opt := opt]> (spec n))
                           (values n) (locations n) (shortflags n) in
          if String.eqb (Shortflag opt) "" then (n1, None)
          else match shortflags n1 !! Shortflag opt with
               | Some _ => (n1, Some (ErrDoubleShortflag (Shortflag opt)))
               | None =>
                   (mkNode (app n1) (version n1) (spec n1) (values n1) (locations n1)
                           (<[Shortflag opt := Name opt]> (shortflags n1)), None)
               end
      end
  end.

(** The option setters of option.go. *)
Definition Required_set (o : Option) : Option :=
  mkOption_ (Name o) true (Type_ o) (Help o) (Default o) (Shortflag o).
Definition Default_set (v : Value) (o : Option) : Option :=
  mkOption_ (Name o) (Required o) (Type_ o) (Help o) (Some v) (Shortflag o).
Definition Shortflag_set (s : ascii) (o : Option) : Option :=
  mkOption_ (Name o) (Required o) (Type_ o) (Help o) (Default o) (ToUpper (ch s)).

(** [mkOption]: panics on an invalid option; the error of [addOption]
    is dropped. *)
Definition mkOption (n : Node) (name type_ helpText : string)
    (setter : list (Option -> Option)) : outcome (Node * Option) :=
  let o := fold_left (fun o s => s o) setter
             (mkOption_ (ToUpper name) false type_ helpText None "") in
  match Option_Validate o with
  | Some e => Panics e
  | None => Returns (fst (addOption n o), o)
  end.

(** [set] *)
Definition set (n : Node) (key val location : string) : Node * option error :=
  match ValidateName key with
  | Some _ => (n, Some (InvalidNameError key))
  | None =>
      match spec n !! key with
      | None => (n, Some (UnknownOptionError (version n) key))
      | Some o =>
          match stringToValue (Type_ o) val with
          | Err _ => (n, Some (InvalidValueError key val))
          | Ok out =>
              (with_values_locations n (<[key := out]> (values n))
                 (<[key := default [] (locations n !! key) ++ [location]]> (locations n)),
               None)
          end
      end
  end.

(** The read accessors; an invalid option name panics, and a stored value
    of another dynamic type fails Go's type assertion. *)
Definition Locations (n : Node) (option_ : string) : outcome (list string) :=
  match ValidateName option_ with
  | Some _ => Panics (InvalidNameError option_)
  | None => Returns (default [] (locations n !! option_))
  end.

Definition IsSet (n : Node) (option_ : string) : outcome bool :=
  match ValidateName option_ with
  | Some _ => Panics (InvalidNameError option_)
  | None => Returns (bool_decide (is_Some (values n !! option_)))
  end.

Definition type_assertion_error : error := ErrText "interface conversion".

Definition GetBool (n : Node) (option_ : string) : outcome bool :=
  match ValidateName option_ with
  | Some _ => Panics (InvalidNameError option_)
  | None => match values n !! option_ with
            | Some (VBool b) => Returns b
            | Some _ => Panics type_assertion_error
            | None => Returns false
            end
  end.

Definition GetInt32 (n : Node) (option_ : string) : outcome Z :=
  match ValidateName option_ with
  | Some _ => Panics (InvalidNameError option_)
  | None => match values n !! option_ with
            | Some (VInt32 i) => Returns i
            | Some _ => Panics type_assertion_error
            | None => Returns 0
            end
  end.

(** [GetFloat32] returns [0] for an unset option; [None] stands for it. *)
Definition GetFloat32 (n : Node) (option_ : string) : outcome (option float32) :=
  match ValidateName option_ with
  | Some _ => Panics (InvalidNameError option_)
  | None => match values n !! option_ with
            | Some (VFloat32 f) => Returns (Some f)
            | Some _ => Panics type_assertion_error
            | None => Returns None
            end
  end.

Definition GetString (n : Node) (option_ : string) : outcome string :=
  match ValidateName option_ with
  | Some _ => Panics (InvalidNameError option_)
  | None => match values n !! option_ with
            | Some (VString s) => Returns s
            | Some _ => Panics type_assertion_error
            | None => Returns ""
            end
  end.

(** [GetTime] returns a [*time.Time], [nil] when unset. *)
Definition GetTime (n : Node) (option_ : string) : outcome (option time) :=
  match ValidateName option_ with
  | Some _ => Panics (InvalidNameError option_)
  | None => match values n !! option_ with
            | Some (VTime t) => Returns (Some t)
            | Some _ => Panics type_assertion_error
            | None => Returns None
            end
  end.

(** [GetJSON] hands the stored text to [json.Unmarshal] into the caller's
    target; the model returns that text ([None]: nothing is decoded and
    [nil] is returned). *)
Definition GetJSON (n : Node) (option_ : string) : outcome (option string) :=
  match ValidateName option_ with
  | Some _ => Panics (InvalidNameError option_)
  | None => match values n !! option_ with
            | Some (VString s) => Returns (Some s)
            | Some _ => Panics type_assertion_error
            | None => Returns None
            end
  end.

(** [LoadDefaults] *)
Fixpoint LoadDefaults_go (n : Node) (l : list (string * Option)) : Node :=
  match l with
  | [] => n
  | (k, o) :: l' =>
      match Default o with
      | Some d =>
          LoadDefaults_go
            (with_values_locations n (<[k := d]> (values n))
               (<[k := default [] (locations n !! k) ++ [SprintValue d]]> (locations n))) l'
      | None => LoadDefaults_go n l'
      end
  end.
Definition LoadDefaults (n : Node) : Node := LoadDefaults_go n (map_to_list (spec n)).

(** [ValidateValues]: stops at the first failure. *)
Fixpoint ValidateValues_go (n : Node) (l : list (string * Value)) : option error :=
  match l with
  | [] => None
  | (k, v) :: l' =>
      match spec n !! k with
      | None => Some (UnknownOptionError (version n) k)
      | Some o =>
          match ValidateValue o (Some v) with
          | Some e => Some (InvalidConfig (version n) e)
          | None => ValidateValues_go n l'
          end
      end
  end.
Definition ValidateValues (n : Node) : option error :=
  ValidateValues_go n (map_to_list (values n)).

(** [CheckMissing]: stops at the first failure. *)
Fixpoint CheckMissing_go (n : Node) (l : list (string * Option)) : option error :=
  match l with
  | [] => None
  | (k, o) :: l' =>
      if Required o && bool_decide (Default o = None)
         && bool_decide (values n !! k = None)
      then Some (MissingOptionError (version n) k)
      else CheckMissing_go n l'
  end.
Definition CheckMissing (n : Node) : option error :=
  CheckMissing_go n (map_to_list (spec n)).

End Node_ops.

(* ------------------------------------------------------------------ *)
(** ** Process-wide inputs (env.go) and file paths *)

(** The package variables [ENV], [ARGS], [USER_DIR], [GLOBAL_DIRS],
    [WORKING_DIR] and [CONFIG_EXT], together with the file system as the
    contents of the readable files. *)
Record World := mkWorld {
  ENV : list string;
  ARGS : list string;
  USER_DIR : string;
  GLOBAL_DIRS : string;
  WORKING_DIR : string;
  CONFIG_EXT : string;
  files : string -> option string
}.

Section Paths_env_args.
Context `{GoPrims}.

Definition globalsFile (w : World) (n : Node) (dir : string) : string :=
  FilepathJoin [dir; appName n; (appName n ++ CONFIG_EXT w)%string].

Definition FirstGlobalsFile (w : World) (n : Node) : string :=
  globalsFile w n (hd "" (Split ":"%char (GLOBAL_DIRS w))).

Definition UserFile (w : World) (n : Node) : string :=
  FilepathJoin [USER_DIR w; appName n; (appName n ++ CONFIG_EXT w)%string].

Definition LocalFile (w : World) (n : Node) : string :=
  FilepathJoin [WORKING_DIR w; ".config"%string; appName n; (appName n ++ CONFIG_EXT w)%string].

Definition slice_bounds_panic : error := ErrText "slice bounds out of range".

(** [MergeEnv] *)
Definition env_prefix (n : Node) : string := (ToUpper (app n) ++ "_CONFIG_")%string.

Fixpoint MergeEnv_go (n : Node) (prefix : string) (env : list string)
    : Node * outcome (option error) :=
  match env with
  | [] => (n, Returns None)
  | pair_ :: env' =>
      if HasPrefix pair_ prefix then
        let startKey := len prefix in
        if 0 <? startKey then
          let startVal := Index "="%char pair_ in
          if startVal <? startKey then (n, Panics slice_bounds_panic)
          else
            let key := slice startKey startVal pair_ in
            let val := TrimSpace (from (startVal + 1) pair_) in
            if String.eqb val "" then (n, Returns (Some (EmptyValueError key)))
            else
              let '(n', err) := set n (ToLower key) val (slice 0 startVal pair_) in
              match err with
              | Some e => (n', Returns (Some (InvalidConfigEnv (version n) (slice 0 startVal pair_) e)))
              | None => MergeEnv_go n' prefix env'
              end
        else MergeEnv_go n prefix env'
      else MergeEnv_go n prefix env'
  end.

Definition MergeEnv (w : World) (n : Node) : Node * outcome (option error) :=
  MergeEnv_go n (env_prefix n) (ENV w).

(** [argToKey] (validate.go) *)
Definition argToKey (arg : string) : string :=
  ReplaceAll "-"%char "_"%char (ToUpper (TrimLeftDashes (TrimLeftDashes arg))).

(** What [mergeArgs] ends with: a return of [merged] and [err], or the
    informational dump of a reserved key followed by [os.Exit(0)]. *)
Inductive args_result :=
| ArgsReturn (merged : gset string) (err : option error)
| ArgsExit (key : string).

Definition reserved_keys : list string :=
  ["config-spec"; "config-locations"; "config-files"; "version"; "help"]%string.

(** [mergeArgs] *)
Fixpoint mergeArgs_go (n : Node) (ignoreUnknown : bool) (merged keys : gset string)
    (args : list string) : Node * args_result :=
  match args with
  | [] =>
      match ValidateValues n with
      | Some e => (n, ArgsReturn merged (Some e))
      | None => (n, ArgsReturn merged (CheckMissing n))
      end
  | pair_ :: rest =>
      let idx := Index "="%char pair_ in
      let parsed : result (string * string) :=
        if idx =? -1 then Ok (pair_, "true")
        else if negb (idx <? len pair_ - 1) then
          Err (InvalidConfigFlag (version n) pair_ (ErrText "invalid argument syntax"))
        else
          let key := slice 0 idx pair_ in
          let val := from (idx + 1) pair_ in
          if String.eqb val "" then Err (EmptyValueError key) else Ok (key, val) in
      match parsed with
      | Err e => (n, ArgsReturn merged (Some e))
      | Ok (argKey, val) =>
          let key0 := argToKey argKey in
          if existsb (String.eqb key0) reserved_keys then (n, ArgsExit key0)
          else
            let key := match shortflags n !! key0 with Some sh => sh | None => key0 end in
            if bool_decide (key ∈ keys) then (n, ArgsReturn merged (Some (ErrDoubleOption key)))
            else if ignoreUnknown && bool_decide (spec n !! key = None) then
              mergeArgs_go n ignoreUnknown merged keys rest
            else
              let '(n', err) := set n key val argKey in
              match err with
              | Some e =>
                  (n', ArgsReturn merged
                         (Some (InvalidConfigFlag (version n) pair_ (ErrInvalidOptionValue key e))))
              | None =>
                  mergeArgs_go n' ignoreUnknown ({[argKey]} ∪ merged) ({[key]} ∪ keys) rest
              end
      end
  end.

Definition mergeArgs (n : Node) (ignoreUnknown : bool) (args : list string)
    : Node * args_result :=
  mergeArgs_go n ignoreUnknown ∅ ∅ args.

End Paths_env_args.

(* ------------------------------------------------------------------ *)
(** ** Reading the textual format: [Merge] *)

(** [bufio.Scanner] with [ScanLines]: lines end at ["\n"], a final ["\r"]
    is dropped, a last line without ["\n"] is still a token, and a line
    that does not fit the 64 KiB buffer stops the scan ([ErrTooLong], which
    [Merge] never inspects): a line with its ["\n"] must fit, and a last
    line without ["\n"] must be shorter than the buffer, which the
    scanner finds full before it sees the end of the input. *)
Definition MaxScanTokenSize : nat := 64 * 1024.

Definition dropCR (s : string) : string :=
  match rev_str s with
  | String c r => if Ascii.eqb c CR then rev_str r else s
  | EmptyString => s
  end.

Fixpoint scan_go (cur : string) (s : string) : list string :=
  match s with
  | EmptyString =>
      if String.eqb cur "" then []
      else if Nat.ltb (String.length cur) MaxScanTokenSize then [dropCR cur] else []
  | String c s' =>
      if Ascii.eqb c NL then
        if Nat.leb (S (String.length cur)) MaxScanTokenSize
        then dropCR cur :: scan_go EmptyString s'
        else []
      else scan_go (cur ++ ch c)%string s'
  end.

Definition ScanLines (s : string) : list string := scan_go EmptyString s.

Section Merge_def.
Context `{GoPrims}.

(** The local variables of [Merge] that live across lines. *)
Record merge_state := mkMS {
  ms_cfg : Config;
  ms_keys : gset string;
  ms_valBuf : string;
  ms_key : string;
  ms_subcommand : string
}.

Variables (location fileVersion : string) (differentVersions : bool).

Definition wrapErr (c : Config) (e : error) : error :=
  InvalidConfigFileError location (version (node c)) e.

(** The closure [setValue]. *)
Definition setValue (st : merge_state) : Config * option error :=
  let c := ms_cfg st in
  let key := ms_key st in
  let subcommand := ms_subcommand st in
  let val := TrimSpace (ms_valBuf st) in
  if String.eqb val "" then
    (c, Some (EmptyValueError (if String.eqb subcommand "" then key
                               else subcommand ++ "_" ++ key)))
  else if String.eqb subcommand "" then
    (* the error of [c.set] is not inspected on this path *)
    (with_node c (fst (set (node c) key val location)), None)
  else
    match subcommands c !! subcommand with
    | None => (c, Some (ErrText ("unknown subcommand " ++ subcommand)))
    | Some sub =>
        let '(sub', err) := set sub key val location in
        let c' := with_sub c subcommand sub' in
        match err with
        | None => (c', None)
        | Some e =>
            if differentVersions
            then (c', Some (wrapErr c (ErrVersionSkew val key fileVersion (version (node c)))))
            else (c', Some (wrapErr c e))
        end
    end.

(** The body of the [for sc.Scan()] loop, one line after another. *)
Fixpoint merge_lines (st : merge_state) (lines : list string) : Config * option error :=
  match lines with
  | [] =>
      (* [if key != "" { setValue() }]: the result is dropped *)
      if String.eqb (ms_key st) "" then (ms_cfg st, None)
      else (fst (setValue st), None)
  | pair_ :: rest =>
      match pair_ with
      | EmptyString => merge_lines st rest
      | String c0 _ =>
          if Ascii.eqb c0 "#"%char then merge_lines st rest
          else if Ascii.eqb c0 "$"%char then
            let '(cfg1, err1) :=
              if String.eqb (ms_key st) "" then (ms_cfg st, None) else setValue st in
            match err1 with
            | Some e => (cfg1, Some e)
            | None =>
                let idx := Index "="%char pair_ in
                if idx =? -1 then
                  (cfg1, Some (wrapErr cfg1 (ErrText ("missing '=' in " ++ pair_))))
                else
                  let fullkey := TrimRightSpaces (slice 1 idx pair_) in
                  if bool_decide (fullkey ∈ ms_keys st) then
                    (cfg1, Some (ErrDoubleOption fullkey))
                  else
                    let keys := {[fullkey]} ∪ ms_keys st in
                    let underscPos := Index "_"%char fullkey in
                    let '(subcommand, key) :=
                      if 0 <? underscPos
                      then (slice 0 underscPos fullkey, from (underscPos + 1) fullkey)
                      else (EmptyString, fullkey) in
                    match ValidateName key with
                    | Some e => (cfg1, Some e)
                    | None =>
                        match (if String.eqb subcommand "" then None
                               else ValidateName subcommand) with
                        | Some e => (cfg1, Some e)
                        | None =>
                            let buf := if idx <? len pair_ - 2
                                       then from (idx + 1) pair_ else EmptyString in
                            merge_lines (mkMS cfg1 keys buf key subcommand) rest
                        end
                    end
            end
          else
            merge_lines (mkMS (ms_cfg st) (ms_keys st)
                              (ms_valBuf st ++ ch NL ++ pair_) (ms_key st) (ms_subcommand st))
                        rest
      end
  end.

End Merge_def.

Section Merge_top.
Context `{GoPrims}.

(** [Merge(rd, location)] on the text [rd]. *)
Definition Merge (c : Config) (rd : string) (location : string) : Config * option error :=
  let wrap e := InvalidConfigFileError location (version (node c)) e in
  match ScanLines rd with
  | [] => (c, Some (wrap (ErrText "can't read config header (app and version)")))
  | header :: body =>
      let words := Split " "%char header in
      match words with
      | [w0; w1] =>
          if negb (String.eqb w0 (appName (node c))) then
            (c, Some (wrap (ErrText "invalid config header: app mismatch")))
          else
            let differentVersions := negb (String.eqb w1 (version (node c))) in
            merge_lines location w1 differentVersions (mkMS c ∅ EmptyString EmptyString EmptyString) body
      | _ => (c, Some (wrap (ErrText "invalid config header")))
      end
  end.

End Merge_top.

(* ------------------------------------------------------------------ *)
(** ** Writing the textual format: [writeConfigValues], [WriteConfigFile] *)

(** How a write ends: normally, with a returned error, or with a panic
    (a nil [*Option] dereferenced for a value without spec). *)
Inductive write_end := WDone | WError (e : error) | WPanic (e : error).

Definition nl : string := ch NL.

(** [strings.Join(ws, sep)] for a separator of several bytes. *)
Fixpoint JoinStr (sep : string) (ws : list string) : string :=
  match ws with
  | [] => EmptyString
  | [w] => w
  | w :: ws' => (w ++ sep ++ JoinStr sep ws')%string
  end.

Section Write_def.
Context `{GoPrims}.

Definition nil_deref_panic : error := ErrText "nil pointer dereference".

(** *** The text of [writeConfigValues]

    The text that the [WriteString] calls of [writeConfigValues] write
    when every call succeeds, and how the function ends then;
    [writeConfigValues_io] below makes the calls one by one.

    The text written for one value [k], [v] of the node [n]. *)
Definition write_entry (n : Node) (k : string) (v : Value) : string * write_end :=
  match spec n !! k with
  | None => (EmptyString, WPanic nil_deref_panic)
  | Some o =>
      let helplines := map TrimSpace (Split NL (Help o)) in
      let writeKey := if isSub n then (subName n ++ "_" ++ k)%string else k in
      let head := (nl ++ "# --- " ++ writeKey ++ " (" ++ Type_ o ++ ") ---" ++ nl
                   ++ "#     " ++ JoinStr (nl ++ "#     ") helplines ++ nl
                   ++ "$" ++ writeKey ++ "=")%string in
      match v with
      | VBool _ | VInt32 _ | VFloat32 _ => ((head ++ SprintValue v)%string, WDone)
      | VString s =>
          let pre := if (15 <? len s) || Contains NL s then nl else EmptyString in
          ((head ++ pre ++ s)%string, WDone)
      | VTime t =>
          if String.eqb (Type_ o) "date" then ((head ++ " " ++ FormatDate t)%string, WDone)
          else if String.eqb (Type_ o) "time" then ((head ++ " " ++ FormatTime t)%string, WDone)
          else if String.eqb (Type_ o) "datetime"
          then ((head ++ " " ++ FormatDateTime t)%string, WDone)
          else (head, WError (InvalidTypeError k (Type_ o)))
      end
  end.

Fixpoint write_entries (n : Node) (l : list (string * Value)) : string * write_end :=
  match l with
  | [] => (EmptyString, WDone)
  | (k, v) :: l' =>
      let '(t, e) := write_entry n k v in
      match e with
      | WDone => let '(t', e') := write_entries n l' in ((t ++ t')%string, e')
      | _ => (t, e)
      end
  end.

(** [writeConfigValues] of a node without subcommands. *)
Definition writeConfigValues_node (n : Node) : string * write_end :=
  write_entries n (map_to_list (values n)).

(** The subcommand blocks; the error returned by a subcommand's
    [writeConfigValues] is dropped, a panic is not. *)
Fixpoint write_subs (l : list (string * Node)) : string * write_end :=
  match l with
  | [] => (EmptyString, WDone)
  | (_, sub) :: l' =>
      let banner := (nl ++ "# ------------ SUBCOMMAND " ++ subName sub ++ " ------------" ++ nl ++ "#")%string in
      let '(t, e) := writeConfigValues_node sub in
      match e with
      | WPanic p => ((banner ++ t)%string, WPanic p)
      | _ => let '(t', e') := write_subs l' in ((banner ++ t ++ t')%string, e')
      end
  end.

Definition writeConfigValues (c : Config) : string * write_end :=
  let '(t, e) := writeConfigValues_node (node c) in
  match e with
  | WDone => let '(t', e') := write_subs (map_to_list (subcommands c)) in ((t ++ t')%string, e')
  | _ => (t, e)
  end.

(** The header line and the format description that follow it. *)
Definition file_preamble (a v : string) : string :=
  (a ++ " " ++ v ++
   nl ++ "# Don't delete the first line!" ++
   nl ++ "#" ++
   nl ++ "# This is a configuration file for the command " ++ a ++ " of the version " ++ v ++ " and compatible versions." ++
   nl ++ "# All available options can be found by running" ++
   nl ++ "#" ++
   nl ++ "#           " ++ a ++ " --help-all" ++
   nl ++ "#" ++
   nl ++ "# ------------ FILE FORMAT ------------" ++
   nl ++ "#" ++
   nl ++ "# 1. all lines end in Unix format (LF)" ++
   nl ++ "# 2. the first line must be 'xxxx yyy' where 'xxxx' is the command name and 'yyy' is the command version" ++
   nl ++ "# 3. a line starting with '#' is a comment" ++
   nl ++ "# 4. a line starting with '$' is an option key and must have the format" ++
   nl ++ "#    '$xxxx=yyy' where 'xxxx' is the option name " ++
   nl ++ "#    and 'yyy' is the value. The '=' may be surrounded by whitespace and the value 'yyy'" ++
   nl ++ "#    may begin after a linefeed" ++
   nl ++ "# 5. the option name is like the corresponding arg without any prefixing '-'" ++
   nl ++ "#    and subcommand options are prefixed with the name of the" ++
   nl ++ "#    subcommand followed by an underscore '_'" ++
   nl ++ "# 6. Every line that does not begin with '#' or '$' is part of the value of the previous option key." ++
   nl ++ "#" ++
   nl ++ "# ------------ EXAMPLE ------------" ++
   nl ++ "#" ++
   nl ++ "#           git 2.1" ++
   nl ++ "#           # a value in the same line as the option" ++
   nl ++ "#           $commit_all=true" ++
   nl ++ "#           # a multiline value starting in the line after the option" ++
   nl ++ "#           $commit_message=" ++
   nl ++ "#           a commit message that spans" ++
   nl ++ "#           # comments are ignored" ++
   nl ++ "#           several lines" ++
   nl ++ "#           # a value in the same line as the option, = surrounded by whitespace" ++
   nl ++ "#           $commit_cleanup = verbatim" ++
   nl ++ "#" ++
   nl ++ "# The above configuration corresponds to the following command invokation (in bash):" ++
   nl ++ "#" ++
   nl ++ "#           git commit --all --cleanup=verbatim --message=$'a commit message that spans\nseveral lines'" ++
   nl ++ "#" ++
   nl ++ "# ------------ CONFIGURATION ------------" ++
   nl ++ "#")%string.

(** *** The calls on the file system

    [WriteConfigFile] asks the file system in a fixed order; its answers
    are the fields of [fs_answers]:
    - [fs_dir]: [os.Stat(dir)] of the parent directory finds a directory,
      finds something else, or fails, and then [os.MkdirAll]'s error;
    - [fs_read]: whether [ioutil.ReadFile(path)] of the existing file
      succeeds (the file exists when [os.Stat(path)] succeeds);
    - [fs_remove]: the error of [os.Remove(path)], made once on every path
      that removes the file;
    - [fs_open]: the error of [os.OpenFile(path, O_RDWR|O_CREATE|O_TRUNC)];
    - [fs_write k]: the answer to the [k]-th [file.WriteString] (counted
      from 0): [Some (m, e)] writes the first [m] bytes and fails with [e];
    - [fs_restore]: the answer to [ioutil.WriteFile(path, backup)] in the
      deferred restore: [None] writes it, [Some None] cannot open the file,
      [Some (Some m)] writes the first [m] bytes and fails. *)
Inductive dir_answer :=
| DirIsDir
| DirNotDir
| DirMissing (mkdirAll : option error).

Record fs_answers := mkFs {
  fs_dir : dir_answer;
  fs_read : bool;
  fs_remove : option error;
  fs_open : option error;
  fs_write : nat -> option (nat * error);
  fs_restore : option (option nat)
}.

(** The file system that answers every call with success. *)
Definition fs_ok : fs_answers := mkFs DirIsDir true None None (fun _ => None) None.

(** The opened file: the bytes written so far and the number of
    [WriteString] calls made on it. *)
Record wfile := mkWF { wf_text : string; wf_calls : nat }.

(** [file.WriteString(s)] *)
Definition WriteString (fs : fs_answers) (f : wfile) (s : string) : wfile * option error :=
  match fs_write fs (wf_calls f) with
  | None => (mkWF (wf_text f ++ s) (S (wf_calls f)), None)
  | Some (m, e) => (mkWF (wf_text f ++ substring 0%nat m s) (S (wf_calls f)), Some e)
  end.

(** A [WriteString] whose error ends the function. *)
Definition write_last (fs : fs_answers) (f : wfile) (s : string) : wfile * write_end :=
  let '(f', e) := WriteString fs f s in
  (f', match e with Some err => WError err | None => WDone end).

(** One iteration of the loop over [c.values] in [writeConfigValues]. *)
Definition write_entry_io (fs : fs_answers) (n : Node) (k : string) (v : Value) (f : wfile)
    : wfile * write_end :=
  match spec n !! k with
  | None => (f, WPanic nil_deref_panic)
  | Some o =>
      let helplines := map TrimSpace (Split NL (Help o)) in
      let writeKey := if isSub n then (subName n ++ "_" ++ k)%string else k in
      let '(f1, e1) := WriteString fs f (nl ++ "# --- " ++ writeKey ++ " (" ++ Type_ o ++ ") ---" ++ nl
                                          ++ "#     " ++ JoinStr (nl ++ "#     ") helplines ++ nl)%string in
      match e1 with
      | Some err => (f1, WError err)
      | None =>
          let '(f2, e2) := WriteString fs f1 ("$" ++ writeKey ++ "=")%string in
          match e2 with
          | Some err => (f2, WError err)
          | None =>
              match v with
              | VBool _ | VInt32 _ | VFloat32 _ => write_last fs f2 (SprintValue v)
              | VString s =>
                  let pre := if (15 <? len s) || Contains NL s then nl else EmptyString in
                  write_last fs f2 (pre ++ s)%string
              | VTime t =>
                  if String.eqb (Type_ o) "date" then write_last fs f2 (" " ++ FormatDate t)%string
                  else if String.eqb (Type_ o) "time" then write_last fs f2 (" " ++ FormatTime t)%string
                  else if String.eqb (Type_ o) "datetime"
                  then write_last fs f2 (" " ++ FormatDateTime t)%string
                  else (f2, WError (InvalidTypeError k (Type_ o)))
              end
          end
      end
  end.

Fixpoint write_entries_io (fs : fs_answers) (n : Node) (l : list (string * Value)) (f : wfile)
    : wfile * write_end :=
  match l with
  | [] => (f, WDone)
  | (k, v) :: l' =>
      let '(f', e) := write_entry_io fs n k v f in
      match e with
      | WDone => write_entries_io fs n l' f'
      | _ => (f', e)
      end
  end.

(** [sub.writeConfigValues(file)] for every subcommand: the banner's
    error is returned, the error of the subcommand's own writes dropped. *)
Fixpoint write_subs_io (fs : fs_answers) (l : list (string * Node)) (f : wfile)
    : wfile * write_end :=
  match l with
  | [] => (f, WDone)
  | (_, sub) :: l' =>
      let '(f1, e1) := WriteString fs f (nl ++ "# ------------ SUBCOMMAND " ++ subName sub
                                          ++ " ------------" ++ nl ++ "#")%string in
      match e1 with
      | Some err => (f1, WError err)
      | None =>
          let '(f2, e2) := write_entries_io fs sub (map_to_list (values sub)) f1 in
          match e2 with
          | WPanic p => (f2, WPanic p)
          | _ => write_subs_io fs l' f2
          end
      end
  end.

(** [c.writeConfigValues(file)] of the root. *)
Definition writeConfigValues_io (fs : fs_answers) (c : Config) (f : wfile) : wfile * write_end :=
  let '(f1, e) := write_entries_io fs (node c) (map_to_list (values (node c))) f in
  match e with
  | WDone => write_subs_io fs (map_to_list (subcommands c)) f1
  | _ => (f1, e)
  end.

(** The check of the parent directory: [os.Stat], then [os.MkdirAll] or
    [info.IsDir()]. *)
Definition dir_check (fs : fs_answers) (path : string) : option error :=
  match fs_dir fs with
  | DirIsDir => None
  | DirNotDir => Some (ErrText (FilepathDir path ++ " is no directory"))
  | DirMissing mk => mk
  end.

(** The deferred function after an error: the file, holding [written],
    is removed and a non-empty [backup] written back; both errors are
    dropped. *)
Definition restore (fs : fs_answers) (written backup : string) : option string :=
  let after_remove := match fs_remove fs with None => None | Some _ => Some written end in
  if String.eqb backup "" then after_remove
  else match fs_restore fs with
       | None => Some backup
       | Some None => after_remove
       | Some (Some m) => Some (substring 0%nat m backup)
       end.

(** [WriteConfigFile(path, perm)], given the answers [fs] of the file
    system and the current content [old] of the file at [path] ([None]:
    no such file).  It returns the content of that file afterwards and
    the returned error; a panic is reported as [WPanic] and leaves what
    was written.  Permissions are not modelled. *)
Definition WriteConfigFile (fs : fs_answers) (c : Config) (path : string) (old : option string)
    : option string * write_end :=
  if isSub (node c) then (old, WError (ErrText "WriteConfigFile must not be called in sub command"))
  else match ValidateValues (node c) with
  | Some e => (old, WError e)
  | None =>
      match dir_check fs path with
      | Some e => (old, WError e)
      | None =>
          let backup := match old with
                        | Some b => if fs_read fs then b else EmptyString
                        | None => EmptyString
                        end in
          if bool_decide (values (node c) = ∅) then
            match old with
            | Some _ => match fs_remove fs with
                        | None => (None, WDone)
                        | Some e => (old, WError e)
                        end
            | None => (old, WDone)
            end
          else
            match fs_open fs with
            | Some e => (old, WError e)
            | None =>
                let '(f1, e1) := WriteString fs (mkWF EmptyString 0%nat)
                                   (file_preamble (app (node c)) (version (node c))) in
                let '(f, r) := match e1 with
                               | Some err => (f1, WError err)
                               | None => writeConfigValues_io fs c f1
                               end in
                match r with
                | WError err => (restore fs (wf_text f) backup, WError err)
                | _ => (Some (wf_text f), r)
                end
            end
      end
  end.

End Write_def.

(* ------------------------------------------------------------------ *)
(** ** Loading: [LoadFile], [LoadGlobals], [LoadUser], [LoadLocals], [Load] *)

Section Load_def.
Context `{GoPrims}.

(** [LoadFile]: a file that cannot be opened is not an error. *)
Definition LoadFile (w : World) (c : Config) (path : string) : Config * option error * bool :=
  match files w path with
  | None => (c, None, false)
  | Some content =>
      let '(c', err) := Merge c content path in
      (c', option_map (ErrMergeFile path) err, true)
  end.

Fixpoint LoadGlobals_go (w : World) (c : Config) (dirs : list string) : Config * option error :=
  match dirs with
  | [] => (c, None)
  | dir :: dirs' =>
      let '(c', err, found) := LoadFile w c (globalsFile w (node c) dir) in
      if found then (c', err) else LoadGlobals_go w c' dirs'
  end.

Definition LoadGlobals (w : World) (c : Config) : Config * option error :=
  LoadGlobals_go w c (Split ":"%char (GLOBAL_DIRS w)).

Definition LoadUser (w : World) (c : Config) : Config * option error :=
  let '(c', err, found) := LoadFile w c (UserFile w (node c)) in
  if found then (c', err) else (c', None).

Definition LoadLocals (w : World) (c : Config) : Config * option error :=
  let '(c', err, found) := LoadFile w c (LocalFile w (node c)) in
  if found then (c', err) else (c', None).

(** How [Load] ends: it returns an error value (or nil), or it never
    returns because a reserved argument exits the process or a panic. *)
Inductive load_result :=
| LoadReturn (err : option error)
| LoadExit (key : string)
| LoadPanic (e : error).

Definition arg_key (arg : string) : string :=
  let idx := Index "="%char arg in if idx =? -1 then arg else slice 0 idx arg.

(** The loop that reports an argument neither node consumed. *)
Fixpoint check_unknown (version : string) (merged1 merged2 : gset string)
    (args : list string) : option error :=
  match args with
  | [] => None
  | arg :: rest =>
      if bool_decide (arg_key arg ∉ merged1) && bool_decide (arg_key arg ∉ merged2)
      then Some (UnknownOptionError version arg)
      else check_unknown version merged1 merged2 rest
  end.

(** [Load(helpIntro)]; the help text only matters for the [help] dump.
    The package variable [ARGS] is reassigned when a subcommand is
    selected, so the world is returned too. *)
Definition Load (w : World) (c0 : Config) : Config * World * load_result :=
  let c1 := Reset c0 in
  let c2 := with_node c1 (LoadDefaults (node c1)) in
  let '(c3, e3) := LoadGlobals w c2 in
  match e3 with Some e => (c3, w, LoadReturn (Some e)) | None =>
  let '(c4, e4) := LoadUser w c3 in
  match e4 with Some e => (c4, w, LoadReturn (Some e)) | None =>
  let '(c5, e5) := LoadLocals w c4 in
  match e5 with Some e => (c5, w, LoadReturn (Some e)) | None =>
  let '(n6, r6) := MergeEnv w (node c5) in
  let c6 := with_node c5 n6 in
  match r6 with
  | Panics p => (c6, w, LoadPanic p)
  | Returns (Some e) => (c6, w, LoadReturn (Some e))
  | Returns None =>
      let dispatch :=
        match ARGS w with
        | a0 :: rest =>
            match subcommands c6 !! ToLower a0 with
            | Some sub => Some (ToLower a0, sub, rest)
            | None => None
            end
        | [] => None
        end in
      match dispatch with
      | Some (name, sub, args) =>
          let c7 := mkConfig (node c6) (subcommands c6) (Some name) in
          let w' := mkWorld (ENV w) args (USER_DIR w) (GLOBAL_DIRS w) (WORKING_DIR w)
                            (CONFIG_EXT w) (files w) in
          let '(sub1, rs) := MergeEnv w' sub in
          let c8 := with_sub c7 name sub1 in
          match rs with
          | Panics p => (c8, w', LoadPanic p)
          | Returns (Some e) => (c8, w', LoadReturn (Some e))
          | Returns None =>
              let '(n9, r1) := mergeArgs (node c8) true args in
              let c9 := with_node c8 n9 in
              match r1 with
              | ArgsExit k => (c9, w', LoadExit k)
              | ArgsReturn _ (Some e) => (c9, w', LoadReturn (Some e))
              | ArgsReturn merged1 None =>
                  let '(sub2, r2) := mergeArgs sub1 true args in
                  let c10 := with_sub c9 name sub2 in
                  match r2 with
                  | ArgsExit k => (c10, w', LoadExit k)
                  | ArgsReturn _ (Some e) => (c10, w', LoadReturn (Some e))
                  | ArgsReturn merged2 None =>
                      (c10, w', LoadReturn (check_unknown (version (node c10)) merged1 merged2 args))
                  end
              end
          end
      | None =>
          (* [c.MergeArgs(helpIntro)] *)
          let '(n7, r7) := mergeArgs (node c6) false (ARGS w) in
          let c7 := with_node c6 n7 in
          match r7 with
          | ArgsExit k => (c7, w, LoadExit k)
          | ArgsReturn _ err => (c7, w, LoadReturn err)
          end
      end
  end end end end.

End Load_def.

(* ------------------------------------------------------------------ *)
(** ** Setting options and saving them: [Set], [setMap], [SetLocalOptions],
    [SaveToLocal] and their user and global siblings *)

Section Save_def.
Context `{GoPrims}.

(** [keyToArg] (validate.go) *)
Definition keyToArg (key : string) : string :=
  ("--" ++ ToLower (ReplaceAll "_"%char "-"%char key))%string.

(** [Set]: an empty location is replaced by the [file:line] that
    [runtime.Caller(0)] reports, given as [caller]. *)
Definition Set_ (caller : string) (n : Node) (option_ val location : string) : Node * option error :=
  set n option_ val (if String.eqb location "" then caller else location).

(** [setMap]: the entries of the map in the order Go's iteration visits
    them; [location] is the [file:line] of the caller.  It stops at the
    first error. *)
Fixpoint setMap (n : Node) (options : list (string * string)) (location : string)
    : Node * option error :=
  match options with
  | [] => (n, None)
  | (opt, val) :: rest =>
      let '(n', err) := set n opt val location in
      match err with
      | Some e => (n', Some e)
      | None => setMap n' rest location
      end
  end.

(** The file system after the file at [path] got the content [content]
    ([None]: removed). *)
Definition write_file (w : World) (path : string) (content : option string) : World :=
  mkWorld (ENV w) (ARGS w) (USER_DIR w) (GLOBAL_DIRS w) (WORKING_DIR w) (CONFIG_EXT w)
          (fun p => if String.eqb p path then content else files w p).

(** [WriteConfigFile] on the file at [path], with the answers [fs] of the
    file system to its calls. *)
Definition save_to (fs : fs_answers) (w : World) (c : Config) (path : string) : World * write_end :=
  let '(content, e) := WriteConfigFile fs c path (files w path) in (write_file w path content, e).

(** [SaveToGlobals], [SaveToUser], [SaveToLocal] *)
Definition SaveToGlobals (fs : fs_answers) (w : World) (c : Config) : World * write_end :=
  if String.eqb (GLOBAL_DIRS w) "" then (w, WError (ErrText "GLOBAL_DIRS not set"))
  else save_to fs w c (FirstGlobalsFile w (node c)).

Definition SaveToUser (fs : fs_answers) (w : World) (c : Config) : World * write_end :=
  if String.eqb (USER_DIR w) "" then (w, WError (ErrText "USER_DIR not set"))
  else save_to fs w c (UserFile w (node c)).

Definition SaveToLocal (fs : fs_answers) (w : World) (c : Config) : World * write_end :=
  if String.eqb (WORKING_DIR w) "" then (w, WError (ErrText "WORKING_DIR not set"))
  else save_to fs w c (LocalFile w (node c)).

(** [SetGlobalOptions], [SetUserOptions], [SetLocalOptions]: [Reset],
    [setMap], then the save. *)
Definition set_then_save (save : World -> Config -> World * write_end)
    (w : World) (c : Config) (options : list (string * string)) (location : string)
    : Config * World * write_end :=
  let c1 := Reset c in
  let '(n2, err) := setMap (node c1) options location in
  let c2 := with_node c1 n2 in
  match err with
  | Some e => (c2, w, WError e)
  | None => let '(w', r) := save w c2 in (c2, w', r)
  end.

Definition SetGlobalOptions (fs : fs_answers) := set_then_save (SaveToGlobals fs).
Definition SetUserOptions (fs : fs_answers) := set_then_save (SaveToUser fs).
Definition SetLocalOptions (fs : fs_answers) := set_then_save (SaveToLocal fs).

End Save_def.

(* ------------------------------------------------------------------ *)
(** ** A concrete instance of the library functions

    Used to run the model on concrete inputs that hold no float32,
    datetime or json value: its float and time parsers reject every
    text, [FilepathJoin] joins the non-empty elements with ["/"]
    (Go's [filepath.Join] also cleans the result) and [FilepathDir] keeps
    the part before the last ["/"] (Go's [filepath.Dir] also cleans it). *)
#[export] Instance sample_prims : GoPrims := {
  float32 := Z;
  time := Z;
  ParseFloat32 := fun _ => None;
  SprintFloat32 := SprintInt32;
  ParseRFC3339 := fun _ => None;
  FormatDateTime := SprintInt32;
  FormatDate := SprintInt32;
  FormatTime := SprintInt32;
  SprintTime := SprintInt32;
  JSONValid := fun _ => false;
  FilepathJoin := fun ws => JoinStr "/" (filter (fun w => negb (String.eqb w "")) ws);
  FilepathDir := fun p => JoinStr "/" (removelast (Split "/"%char p))
}.

(* ------------------------------------------------------------------ *)
(** ** Fixed configurations used by the statements below *)

Section Examples_def.
Context `{GoPrims}.

(** App [DEMO], version [1.0.0], a required [int32] option [PORT] with
    shortflag [p] entered by [addOption]. *)
Definition port_option : Option := mkOption_ "PORT" true "int32" "the port" None "P".

Definition demo_port_config : Config :=
  match New "DEMO" "1.0.0" with
  | Ok c => with_node c (fst (addOption (node c) port_option))
  | Err _ => mkConfig (empty_node "" "") ∅ None
  end.

(** App [DEMO] with an [int32] option [PORT] whose default is [80]. *)
Definition port_default_option : Option :=
  mkOption_ "PORT" false "int32" "the port" (Some (VInt32 80)) "".

Definition demo_default_node : Node :=
  match New "DEMO" "1.0.0" with
  | Ok c => fst (addOption (node c) port_default_option)
  | Err _ => empty_node "" ""
  end.

(** App [DEMO] with a subcommand [RUN] that has a [bool] option [FAST]. *)
Definition demo_sub_config : Config :=
  match New "DEMO" "1.0.0" with
  | Ok c =>
      match Sub c "RUN" with
      | Ok (c', s) =>
          with_sub c' "RUN"
            (fst (addOption s (mkOption_ "FAST" false "bool" "fast mode" None "")))
      | Err _ => c
      end
  | Err _ => mkConfig (empty_node "" "") ∅ None
  end.

(** App [DEMO] as [New] returns it. *)
Definition demo_root : Config :=
  match New "DEMO" "1.0.0" with
  | Ok c => c
  | Err _ => mkConfig (empty_node "" "") ∅ None
  end.

(** App [DEMO] with a [bool] option [FLAG] whose default [true] is loaded. *)
Definition demo_flag_node : Node :=
  LoadDefaults
    (fst (addOption (node demo_root)
            (mkOption_ "FLAG" false "bool" "a flag" (Some (VBool true)) ""))).

(** A world without files and environment entries. *)
Definition bare_world (args : list string) : World :=
  mkWorld [] args "/home/u" "/etc" "/work" ".conf" (fun _ => None).

(** App [DEMO], version [1.0.0], with an [int32] option [PORT] set to
    [port] and a [string] option [NAME] set to [hello world], and a
    subcommand [RUN] (app [DEMO_RUN]) with a [bool] option [FAST] set to
    [true]: the values as [Set] stores them. *)
Definition rt_root (port : Z) : Node :=
  mkNode "DEMO" "1.0.0"
    (<["PORT" := mkOption_ "PORT" false "int32" "the port" None ""]>
      (<["NAME" := mkOption_ "NAME" false "string" "the name" None ""]> ∅))
    (<["PORT" := VInt32 port]> (<["NAME" := VString "hello world"]> ∅)) ∅ ∅.

Definition rt_run : Node :=
  mkNode "DEMO_RUN" "1.0.0"
    (<["FAST" := mkOption_ "FAST" false "bool" "fast mode" None ""]> ∅)
    (<["FAST" := VBool true]> ∅) ∅ ∅.

Definition rt_config (port : Z) : Config := mkConfig (rt_root port) {["RUN" := rt_run]} None.


(** A file system whose second [WriteString], the first after the
    preamble, writes 3 bytes and fails; every other call succeeds. *)
Definition fs_disk_full : fs_answers :=
  mkFs DirIsDir true None None
       (fun k => if Nat.eqb k 1 then Some (3%nat, ErrText "disk full") else None) None.

End Examples_def.

(* ------------------------------------------------------------------ *)
(** ** The line structure of a written file, and the round-trip conditions *)

Section Roundtrip_def.
Context `{GoPrims}.

(** Lines, each preceded by a line feed. *)
Fixpoint prefix_lines (ls : list string) : string :=
  match ls with
  | [] => EmptyString
  | l :: ls' => String NL (l ++ prefix_lines ls')
  end.

(** The lines of [file_preamble a v] after the header line [a v]. *)
Definition preamble_lines (a v : string) : list string :=
  [ "# Don't delete the first line!";
    "#";
    ("# This is a configuration file for the command " ++ a ++ " of the version " ++ v ++ " and compatible versions.");
    "# All available options can be found by running";
    "#";
    ("#           " ++ a ++ " --help-all");
    "#";
    "# ------------ FILE FORMAT ------------";
    "#";
    "# 1. all lines end in Unix format (LF)";
    "# 2. the first line must be 'xxxx yyy' where 'xxxx' is the command name and 'yyy' is the command version";
    "# 3. a line starting with '#' is a comment";
    "# 4. a line starting with '$' is an option key and must have the format";
    "#    '$xxxx=yyy' where 'xxxx' is the option name ";
    "#    and 'yyy' is the value. The '=' may be surrounded by whitespace and the value 'yyy'";
    "#    may begin after a linefeed";
    "# 5. the option name is like the corresponding arg without any prefixing '-'";
    "#    and subcommand options are prefixed with the name of the";
    "#    subcommand followed by an underscore '_'";
    "# 6. Every line that does not begin with '#' or '$' is part of the value of the previous option key.";
    "#";
    "# ------------ EXAMPLE ------------";
    "#";
    "#           git 2.1";
    "#           # a value in the same line as the option";
    "#           $commit_all=true";
    "#           # a multiline value starting in the line after the option";
    "#           $commit_message=";
    "#           a commit message that spans";
    "#           # comments are ignored";
    "#           several lines";
    "#           # a value in the same line as the option, = surrounded by whitespace";
    "#           $commit_cleanup = verbatim";
    "#";
    "# The above configuration corresponds to the following command invokation (in bash):";
    "#";
    "#           git commit --all --cleanup=verbatim --message=$'a commit message that spans\nseveral lines'";
    "#";
    "# ------------ CONFIGURATION ------------";
    "#" ]%string.

(** The key [write_entry] writes for the option [k] of the subcommand
    [sub] ([""] for the root node). *)
Definition entry_key (sub k : string) : string :=
  if String.eqb sub "" then k else (sub ++ "_" ++ k)%string.

(** The text [write_entry] writes after [$key=]. *)
Definition value_text (o : Option) (v : Value) : string :=
  match v with
  | VBool _ | VInt32 _ | VFloat32 _ => SprintValue v
  | VString s => ((if Z.ltb 15 (len s) || Contains NL s then nl else EmptyString) ++ s)%string
  | VTime t =>
      if String.eqb (Type_ o) "date" then (" " ++ FormatDate t)%string
      else if String.eqb (Type_ o) "time" then (" " ++ FormatTime t)%string
      else if String.eqb (Type_ o) "datetime" then (" " ++ FormatDateTime t)%string
      else EmptyString
  end.

(** One written value: subcommand ([""] for the root), option name, its
    spec and its value. *)
Record entry := mkEntry { e_sub : string; e_key : string; e_opt : Option; e_val : Value }.

Definition entry_lines (e : entry) : list string :=
  let wk := entry_key (e_sub e) (e_key e) in
  ("# --- " ++ wk ++ " (" ++ Type_ (e_opt e) ++ ") ---")%string
  :: map (fun h => "#     " ++ h)%string (map TrimSpace (Split NL (Help (e_opt e))))
  ++ match Split NL (value_text (e_opt e) (e_val e)) with
     | v0 :: vs => ("$" ++ wk ++ "=" ++ v0)%string :: vs
     | [] => []
     end.

Definition node_entries (sub : string) (n : Node) : list entry :=
  flat_map (fun kv => match spec n !! kv.1 with
                      | Some o => [mkEntry sub kv.1 o kv.2]
                      | None => []
                      end) (map_to_list (values n)).

(** The written file after its preamble: comment lines and values. *)
Inductive item := IComment (l : string) | IEntry (e : entry).

Definition item_lines (it : item) : list string :=
  match it with IComment l => [l] | IEntry e => entry_lines e end.

Definition sub_banner (name : string) : list item :=
  [IComment ("# ------------ SUBCOMMAND " ++ name ++ " ------------")%string; IComment "#"].

Definition config_items (c : Config) : list item :=
  map IEntry (node_entries "" (node c)) ++
  concat (map (fun ns => sub_banner (subName ns.2) ++ map IEntry (node_entries (subName ns.2) ns.2))
              (map_to_list (subcommands c))).

Definition item_entries (its : list item) : list entry :=
  concat (map (fun it => match it with IEntry e => [e] | IComment _ => [] end) its).

(** The conditions under which a written value reads back as itself.  A
    text has ASCII edges when it is non-empty and its first and last bytes
    are ASCII and not white space ([TrimSpace] leaves it as it is). *)
Definition edge_ok (c : ascii) : bool :=
  Nat.ltb (nat_of_ascii c) 128 && negb (is_space c).

Definition ascii_edges (s : string) : bool :=
  match s, rev_str s with
  | String c _, String d _ => edge_ok c && edge_ok d
  | _, _ => false
  end.

(** A line of a value written on lines of its own: non-empty, and not
    starting with [#] or [$]. *)
Definition value_line_ok (l : string) : bool :=
  match l with
  | String c _ => negb (Ascii.eqb c "#"%char) && negb (Ascii.eqb c "$"%char)
  | EmptyString => false
  end.

Definition reads_back (v : Value) : Prop :=
  match v with
  | VBool _ => True
  | VInt32 i => -2 ^ 31 <= i < 2 ^ 31 /\ ~ (0 <= i <= 9)
  | VFloat32 f =>
      ascii_edges (SprintFloat32 f) = true /\ Contains NL (SprintFloat32 f) = false /\
      (2 <= String.length (SprintFloat32 f))%nat /\ ParseFloat32 (SprintFloat32 f) = Some f
  | VString s =>
      ascii_edges s = true /\
      (if (15 <? len s) || Contains NL s then forallb value_line_ok (Split NL s) = true
       else (2 <= String.length s)%nat)
  | VTime t =>
      ascii_edges (FormatDateTime t) = true /\ Contains NL (FormatDateTime t) = false /\
      ParseRFC3339 (FormatDateTime t) = Some t
  end.

(** Every value of [n] has a valid name, a spec it passes and reads back. *)
Definition entries_ok (n : Node) : Prop :=
  map_Forall (fun k v => ValidateName k = None /\
                exists o, spec n !! k = Some o /\ ValidateValue o (Some v) = None /\ reads_back v)
             (values n).

(** Every line fits the scanner's buffer and does not end in a carriage
    return. *)
Definition lines_fit (text : string) : Prop :=
  Forall (fun l => (String.length l < MaxScanTokenSize)%nat /\ dropCR l = l) (Split NL text).

(** Every value of [n] has a spec it passes. *)
Definition values_typed (n : Node) : Prop :=
  map_Forall (fun k v => exists o, spec n !! k = Some o /\ ValidateValue o (Some v) = None)
             (values n).

(** What [Merge] does with a pending key before the next key and at the
    end of the text: [setValue] when a key is pending. *)
Definition flush (location fileVersion : string) (differentVersions : bool)
    (st : merge_state) : Config * option error :=
  if String.eqb (ms_key st) "" then (ms_cfg st, None)
  else setValue location fileVersion differentVersions st.

(** The values of a configuration by namespace: [""] for the root node,
    the subcommand keys for the subcommands. *)
Definition view (c : Config) : gmap string (gmap string Value) :=
  <["" := values (node c)]> (values <$> subcommands c).

(** The specs of a configuration, of the root node and by subcommand. *)
Definition shape (c : Config) : gmap string Option * gmap string (gmap string Option) :=
  (spec (node c), spec <$> subcommands c).

(** An entry whose option is found in the specs [sp] and whose value
    reads back. *)
Definition entry_fits (sp : gmap string Option * gmap string (gmap string Option))
    (e : entry) : Prop :=
  ValidateValue (e_opt e) (Some (e_val e)) = None /\ reads_back (e_val e) /\
  ValidateName (e_key e) = None /\
  (if String.eqb (e_sub e) "" then Contains "_" (e_key e) = false /\ sp.1 !! e_key e = Some (e_opt e)
   else ValidateName (e_sub e) = None /\ Contains "_" (e_sub e) = false /\
        (sp.2 !! e_sub e ≫= lookup (e_key e)) = Some (e_opt e)).

Definition item_fits (sp : gmap string Option * gmap string (gmap string Option))
    (it : item) : Prop :=
  match it with
  | IComment l => HasPrefix l "#" = true
  | IEntry e => entry_fits sp e
  end.

(** The bytes of a valid name, of a valid version, and of a printed integer. *)
Definition name_char (c : ascii) : bool :=
  is_upper c || is_digit c || Ascii.eqb c "_"%char.

Definition version_char (d : ascii) : bool :=
  is_lower d || is_digit d || Ascii.eqb d "-"%char || Ascii.eqb d "."%char.

Definition int_char (c : ascii) : bool := is_digit c || Ascii.eqb c "-"%char.

(** The namespace and option name of an entry. *)
Definition entry_pair (e : entry) : string * string := (e_sub e, e_key e).

(** A node with the same app, version, specs and subcommands, and no values. *)
Definition fresh_config (c : Config) : Config :=
  mkConfig (Reset_node (node c)) (Reset_node <$> subcommands c) None.

(** Two configurations with the same specs ([shape]), root app name,
    root version and selected subcommand, where the second keeps
    [ValidateValues] of the root passing if the first does. *)
Definition merge_frame (c c' : Config) : Prop :=
  shape c' = shape c /\ app (node c') = app (node c) /\ version (node c') = version (node c) /\
  currentSub c' = currentSub c /\
  (ValidateValues (node c) = None -> ValidateValues (node c') = None).

End Roundtrip_def.

(* ================================================================== *)
(** * Properties *)

(* ------------------------------------------------------------------ *)
(** ** Facts about the string functions *)

Lemma lower_char_not_upper (c : ascii) : is_upper (lower_char c) = false.
Proof. destruct c as [[] [] [] [] [] [] [] []]; reflexivity. Qed.

(** A lower-cased non-empty text never passes the name grammar: its first
    word is empty or starts with a byte that is not an upper-case letter. *)
Lemma ValidateName_ToLower (s : string) : ValidateName (ToLower s) <> None.
Proof.
  destruct s as [|c s]; [discriminate|].
  unfold ValidateName, ToLower; cbn [Map Split String.eqb].
  destruct (Ascii.eqb (lower_char c) "_"%char); [discriminate|].
  destruct (Split "_"%char (Map lower_char s));
    cbn [forallb word_regexp_MatchString ch]; rewrite lower_char_not_upper; discriminate.
Qed.

Section Accessor_facts.
Context `{GoPrims}.

(** Claim C10: an option name that fails the name grammar makes every read
    accessor ([IsSet], [Locations], [GetBool], [GetInt32], [GetFloat32],
    [GetString], [GetTime], [GetJSON]) panic with [InvalidNameError]. *)
Theorem accessors_panic_on_invalid_name (n : Node) (k : string) :
  ValidateName k <> None ->
  IsSet n k = Panics (InvalidNameError k) /\
  Locations n k = Panics (InvalidNameError k) /\
  GetBool n k = Panics (InvalidNameError k) /\
  GetInt32 n k = Panics (InvalidNameError k) /\
  GetFloat32 n k = Panics (InvalidNameError k) /\
  GetString n k = Panics (InvalidNameError k) /\
  GetTime n k = Panics (InvalidNameError k) /\
  GetJSON n k = Panics (InvalidNameError k).
Proof.
  intros Hk.
  unfold IsSet, Locations, GetBool, GetInt32, GetFloat32, GetString, GetTime, GetJSON.
  destruct (ValidateName k); [|congruence].
  repeat split.
Qed.

(** Claim C9: [Reset] empties [values] and [locations] and clears
    [currentSub]; [spec], [shortflags], [subcommands], the app name and the
    version stay as they were.  The same holds for a child node. *)
Theorem Reset_frame (c : Config) :
  values (node (Reset c)) = ∅ /\ locations (node (Reset c)) = ∅ /\
  currentSub (Reset c) = None /\
  spec (node (Reset c)) = spec (node c) /\
  shortflags (node (Reset c)) = shortflags (node c) /\
  subcommands (Reset c) = subcommands c /\
  app (node (Reset c)) = app (node c) /\ version (node (Reset c)) = version (node c) /\
  (forall n : Node, values (Reset_node n) = ∅ /\ locations (Reset_node n) = ∅ /\
     spec (Reset_node n) = spec n /\ shortflags (Reset_node n) = shortflags n).
Proof. repeat split. Qed.

End Accessor_facts.

Lemma accessors_panic_on_invalid_name_witness :
  GetInt32 demo_default_node "port" = Panics (InvalidNameError "port") /\
  IsSet demo_default_node "port" = Panics (InvalidNameError "port").
Proof.
  pose proof (accessors_panic_on_invalid_name demo_default_node "port") as W.
  destruct W as [W1 [_ [_ [W4 _]]]]; [vm_compute; discriminate|].
  split; [exact W4 | exact W1].
Defined.

Lemma existsb_eqb_In (s : string) (l : list string) :
  existsb (String.eqb s) l = true <-> In s l.
Proof.
  rewrite existsb_exists. split.
  - intros [x [Hin Hx]]. apply String.eqb_eq in Hx. subst. exact Hin.
  - intros Hin. exists s. split; [exact Hin | apply String.eqb_refl].
Qed.

Section Coercion_facts.
Context `{GoPrims}.

(** Claim C7: [stringToValue("bool", raw)] succeeds exactly on the twelve
    texts [strconv.ParseBool] accepts: [1 t T TRUE true True] give [true],
    [0 f F FALSE false False] give [false]; every other text fails. *)
Theorem stringToValue_bool_texts (raw : string) :
  (stringToValue "bool" raw = Ok (VBool true) <->
     In raw ["1"; "t"; "T"; "TRUE"; "true"; "True"]%string) /\
  (stringToValue "bool" raw = Ok (VBool false) <->
     In raw ["0"; "f"; "F"; "FALSE"; "false"; "False"]%string) /\
  ((exists v, stringToValue "bool" raw = Ok v) <->
     In raw ["1"; "t"; "T"; "TRUE"; "true"; "True";
             "0"; "f"; "F"; "FALSE"; "false"; "False"]%string).
Proof.
  change ["1"; "t"; "T"; "TRUE"; "true"; "True";
          "0"; "f"; "F"; "FALSE"; "false"; "False"]%string
    with (List.app ["1"; "t"; "T"; "TRUE"; "true"; "True"]%string
              ["0"; "f"; "F"; "FALSE"; "false"; "False"]%string).
  rewrite <- !existsb_eqb_In, existsb_app.
  unfold stringToValue, ParseBool. cbn [String.eqb Ascii.eqb Bool.eqb andb].
  destruct (existsb (String.eqb raw) ["1"; "t"; "T"; "TRUE"; "true"; "True"]%string) eqn:Et;
  destruct (existsb (String.eqb raw) ["0"; "f"; "F"; "FALSE"; "false"; "False"]%string) eqn:Ef;
  cbn [orb]; repeat split; intros; eauto; try discriminate;
  repeat match goal with
         | h : exists _, _ |- _ => destruct h as [? h]
         end; try congruence.
  apply existsb_eqb_In in Et, Ef. cbn in Et, Ef.
  intuition congruence.
Qed.

(** Claim C5: [set] of a [bool] option to a text that [ParseBool] rejects
    returns [InvalidValueError(key, raw)] and the node unchanged: [values]
    and [locations] are as before, an earlier entry of the key stays. *)
Theorem set_bool_invalid (n : Node) (key raw location : string) (o : Option) :
  ValidateName key = None -> spec n !! key = Some o -> Type_ o = "bool"%string ->
  ParseBool raw = None ->
  set n key raw location = (n, Some (InvalidValueError key raw)).
Proof.
  intros Hk Ho Ht Hp. unfold set. rewrite Hk, Ho. unfold stringToValue.
  rewrite Ht. cbn [String.eqb Ascii.eqb Bool.eqb andb]. rewrite Hp. reflexivity.
Qed.

End Coercion_facts.

Lemma set_bool_invalid_witness :
  set demo_flag_node "FLAG" "notabool" "-flag=notabool" =
  (demo_flag_node, Some (InvalidValueError "FLAG" "notabool")).
Proof.
  apply (set_bool_invalid demo_flag_node "FLAG" "notabool" "-flag=notabool"
           (mkOption_ "FLAG" false "bool" "a flag" (Some (VBool true)) ""));
    vm_compute; reflexivity.
Defined.

(** Counterexample to claim C7: the text [1] is a [bool]. *)
Lemma stringToValue_bool_one : stringToValue "bool" "1" = Ok (VBool true).
Proof. reflexivity. Qed.

(** Counterexample to claim C5: after the failed [set] the values map still
    has the default of [FLAG]. *)
Lemma set_bool_invalid_keeps_entry :
  values (fst (set demo_flag_node "FLAG" "notabool" "-flag=notabool")) !! "FLAG"
  = Some (VBool true).
Proof. vm_compute. reflexivity. Qed.

Lemma Index_ge (c : ascii) (s : string) : -1 <= Index c s.
Proof.
  induction s as [|d s IH]; cbn [Index]; [lia|].
  destruct (Ascii.eqb d c); [lia|]. destruct (Index c s <? 0); lia.
Qed.

Lemma Index_app_absent (c : ascii) (a r : string) :
  Index c a = -1 -> Index c (a ++ String c r) = len a.
Proof.
  unfold len. induction a as [|d a IH]; cbn [Index String.append String.length].
  - rewrite Ascii.eqb_refl. reflexivity.
  - destruct (Ascii.eqb d c); [discriminate|].
    pose proof (Index_ge c a) as Hge.
    destruct (Index c a <? 0) eqn:E.
    + apply Z.ltb_lt in E. intros _. rewrite IH by lia.
      destruct (Z.of_nat (String.length a) <? 0) eqn:E2; [apply Z.ltb_lt in E2|]; lia.
    + apply Z.ltb_ge in E. lia.
Qed.

Lemma substring_0_app (a b : string) :
  substring 0 (String.length a) (a ++ b) = a.
Proof.
  induction a as [|d a IH]; cbn [String.length String.append substring].
  - destruct b; reflexivity.
  - rewrite IH. reflexivity.
Qed.

Lemma slice_0_len_app (a b : string) : slice 0 (len a) (a ++ b) = a.
Proof.
  unfold slice, len. rewrite Z.sub_0_r, Nat2Z.id. apply substring_0_app.
Qed.

Lemma Map_app (f : ascii -> ascii) (a b : string) :
  Map f (a ++ b) = (Map f a ++ Map f b)%string.
Proof. induction a as [|d a IH]; cbn; [reflexivity | rewrite IH; reflexivity]. Qed.

Lemma str_app_assoc (a b d : string) : ((a ++ b) ++ d = a ++ b ++ d)%string.
Proof. induction a as [|x a IH]; cbn; [reflexivity | rewrite IH; reflexivity]. Qed.

Section Sub_facts.
Context `{GoPrims}.

(** Claim C8: the child [Sub] creates carries the app name [parent_child],
    and [MergeEnv] scans it for [PARENT_CHILD_CONFIG_]; its file paths
    ([UserFile], [FirstGlobalsFile], [LocalFile]) are built from [appName],
    the part before the first underscore, and are the parent's paths. *)
Theorem Sub_paths (w : World) (c : Config) (name : string) :
  isSub (node c) = false -> ValidateName name = None ->
  ValidateVersion (version (node c)) = None ->
  match Sub c name with
  | Ok (c', s) =>
      subcommands c' !! name = Some s /\
      app s = (app (node c) ++ "_" ++ name)%string /\
      env_prefix s = (ToUpper (app (node c)) ++ "_" ++ ToUpper name ++ "_CONFIG_")%string /\
      appName s = app (node c) /\
      UserFile w s = UserFile w (node c) /\
      FirstGlobalsFile w s = FirstGlobalsFile w (node c) /\
      LocalFile w s = LocalFile w (node c)
  | Err _ => False
  end.
Proof.
  intros Hroot Hname Hver.
  assert (Ha : Index "_"%char (app (node c)) = -1).
  { unfold isSub in Hroot. apply negb_false_iff, Z.eqb_eq in Hroot. exact Hroot. }
  assert (Hpn : appName (node c) = app (node c)).
  { unfold appName. rewrite Hroot. reflexivity. }
  assert (Happ : forall r, appName (mkNode (app (node c) ++ String "_" r)%string
                    (version (node c)) ∅ ∅ ∅ ∅) = app (node c)).
  { intros r. unfold appName, isSub. cbn [app]. rewrite (Index_app_absent _ _ _ Ha).
    rewrite (proj2 (Z.eqb_neq _ _)) by (unfold len; lia). cbn [negb].
    apply slice_0_len_app. }
  unfold Sub. rewrite Hroot. unfold New. rewrite Hname, Hver. cbn -[appName].
  unfold UserFile, FirstGlobalsFile, globalsFile, LocalFile, env_prefix; cbn [app].
  rewrite !Happ, Hpn.
  unfold ToUpper. rewrite Map_app, str_app_assoc.
  repeat split. apply lookup_insert_eq.
Qed.
End Sub_facts.

Lemma Sub_paths_witness :
  match Sub demo_root "RUN" with
  | Ok (c', s) => UserFile (bare_world []) s = UserFile (bare_world []) (node demo_root)
  | Err _ => False
  end.
Proof.
  pose proof (Sub_paths (bare_world []) demo_root "RUN") as W.
  destruct (Sub demo_root "RUN") as [[c' s]|e].
  - apply W; vm_compute; reflexivity.
  - apply W; vm_compute; reflexivity.
Defined.

(** Counterexample to claim C8: the files of the child [RUN] of [DEMO] are
    the files of [DEMO]. *)
Lemma Sub_files_not_namespaced :
  exists s, subcommands demo_sub_config !! "RUN" = Some s /\
    app s = "DEMO_RUN" /\
    UserFile (bare_world []) s = "/home/u/DEMO/DEMO.conf" /\
    UserFile (bare_world []) (node demo_sub_config) = "/home/u/DEMO/DEMO.conf" /\
    LocalFile (bare_world []) s = "/work/.config/DEMO/DEMO.conf".
Proof.
  eexists. split; [vm_compute; reflexivity|].
  vm_compute. repeat split.
Qed.

(* ------------------------------------------------------------------ *)
(** ** Environment and subcommand selection *)

Section Env_facts.
Context `{GoPrims}.

Lemma set_ToLower (n : Node) (k val location : string) :
  set n (ToLower k) val location = (n, Some (InvalidNameError (ToLower k))).
Proof.
  unfold set. destruct (ValidateName (ToLower k)) eqn:E; [reflexivity|].
  exfalso. exact (ValidateName_ToLower k E).
Qed.

Lemma MergeEnv_go_keeps_node (n : Node) (prefix : string) (env : list string) :
  fst (MergeEnv_go n prefix env) = n.
Proof.
  induction env as [|p env IH]; cbn [MergeEnv_go]; [reflexivity|].
  repeat (case_match; cbn [fst]; try reflexivity; try exact IH).
  all: rewrite set_ToLower in *; simplify_eq; reflexivity.
Qed.

(** Claim C2: [MergeEnv] looks every [<APP>_CONFIG_<KEY>] entry up under
    the lower-cased key, which the name grammar rejects; so it never changes
    the node.  With [PORT] (default [80]) loaded by [LoadDefaults] and the
    entry [DEMO_CONFIG_PORT=8080] it returns [InvalidConfigEnv] around
    [InvalidNameError("port")] and [PORT] keeps [80] and the single location
    ["80"]. *)
Theorem MergeEnv_lowercased_keys (w : World) (n : Node) :
  fst (MergeEnv w n) = n /\
  MergeEnv (mkWorld ["DEMO_CONFIG_PORT=8080"] [] "" "" "" "" (fun _ => None))
           (LoadDefaults demo_default_node)
  = (LoadDefaults demo_default_node,
     Returns (Some (InvalidConfigEnv "1.0.0" "DEMO_CONFIG_PORT" (InvalidNameError "port")))) /\
  values (LoadDefaults demo_default_node) !! "PORT" = Some (VInt32 80) /\
  locations (LoadDefaults demo_default_node) !! "PORT" = Some ["80"%string].
Proof.
  split; [apply MergeEnv_go_keeps_node|].
  vm_compute. repeat split.
Qed.

End Env_facts.

Section Dispatch_facts.
Context `{GoPrims}.

(** The invariant of [Load] before the argument stage: no subcommand is
    selected and every subcommand is stored under a valid name. *)

Lemma setValue_inv (location fileVersion : string) (dv : bool) (st : merge_state) :
  currentSub (ms_cfg st) = None ->
  (forall k s, subcommands (ms_cfg st) !! k = Some s -> ValidateName k = None) ->
  let c := fst (setValue location fileVersion dv st) in
  currentSub c = None /\ forall k s, subcommands c !! k = Some s -> ValidateName k = None.
Proof.
  intros Hc Hs. unfold setValue.
  repeat (case_match; simplify_eq; cbn [fst with_node with_sub currentSub subcommands];
          try (split; [assumption|])); eauto.
  all: intros k0 s0; rewrite lookup_insert_Some; intros [[<- _] | [_ Hl]]; eauto.
Qed.

Lemma merge_lines_inv (location fileVersion : string) (dv : bool)
    (lines : list string) (st : merge_state) :
  currentSub (ms_cfg st) = None ->
  (forall k s, subcommands (ms_cfg st) !! k = Some s -> ValidateName k = None) ->
  let c := fst (merge_lines location fileVersion dv st lines) in
  currentSub c = None /\ forall k s, subcommands c !! k = Some s -> ValidateName k = None.
Proof.
  revert st. induction lines as [|l ls IH]; intros st Hc Hs; cbn [merge_lines].
  - case_match; [split; assumption|]. apply setValue_inv; assumption.
  - destruct (setValue_inv location fileVersion dv st Hc Hs) as [Hc' Hs'].
    repeat (case_match; simplify_eq; cbn [fst];
            try (apply IH; cbn [ms_cfg]; assumption);
            try (split; assumption)).
  all: try match goal with
           | h : setValue _ _ _ _ = _ |- _ => rewrite h in Hc', Hs'; cbn [fst] in Hc', Hs'
           end.
  all: try (split; assumption); apply IH; cbn [ms_cfg]; assumption.
Qed.

Lemma Merge_inv (c : Config) (rd location : string) :
  currentSub c = None ->
  (forall k s, subcommands c !! k = Some s -> ValidateName k = None) ->
  let c' := fst (Merge c rd location) in
  currentSub c' = None /\ forall k s, subcommands c' !! k = Some s -> ValidateName k = None.
Proof.
  intros Hc Hs. unfold Merge.
  repeat (case_match; cbn [fst]; try (split; assumption)).
  apply merge_lines_inv; assumption.
Qed.

Lemma LoadFile_inv (w : World) (c : Config) (path : string) :
  currentSub c = None ->
  (forall k s, subcommands c !! k = Some s -> ValidateName k = None) ->
  let c' := fst (fst (LoadFile w c path)) in
  currentSub c' = None /\ forall k s, subcommands c' !! k = Some s -> ValidateName k = None.
Proof.
  intros Hc Hs. unfold LoadFile.
  destruct (files w path) as [content|]; cbn [fst]; [|split; assumption].
  pose proof (Merge_inv c content path Hc Hs) as HM.
  destruct (Merge c content path); exact HM.
Qed.

Lemma LoadGlobals_go_inv (w : World) (dirs : list string) (c : Config) :
  currentSub c = None ->
  (forall k s, subcommands c !! k = Some s -> ValidateName k = None) ->
  let c' := fst (LoadGlobals_go w c dirs) in
  currentSub c' = None /\ forall k s, subcommands c' !! k = Some s -> ValidateName k = None.
Proof.
  revert c. induction dirs as [|d dirs IH]; intros c Hc Hs; cbn [LoadGlobals_go];
    [split; assumption|].
  pose proof (LoadFile_inv w c (globalsFile w (node c) d) Hc Hs) as HF.
  destruct (LoadFile w c (globalsFile w (node c) d)) as [[c' e] found].
  destruct HF as [Hc' Hs']. destruct found; [split; assumption|].
  apply IH; assumption.
Qed.

(** Claim C3: [Load] looks the first argument up among the subcommands
    after lower-casing it, while every subcommand is stored under a name of
    the upper-case grammar; so no argument list ever selects a subcommand:
    after [Load] [currentSub] is [nil]. *)
Theorem Load_never_selects (w : World) (c0 : Config) :
  map_Forall (fun k _ => ValidateName k = None) (subcommands c0) ->
  currentSub (fst (fst (Load w c0))) = None.
Proof.
  intros Hs0. unfold map_Forall in Hs0. unfold Load.
  set (c2 := with_node (Reset c0) (LoadDefaults (node (Reset c0)))).
  assert (H2 : currentSub c2 = None /\
               forall k s, subcommands c2 !! k = Some s -> ValidateName k = None)
    by (split; [reflexivity | exact Hs0]).
  destruct H2 as [Hc2 Hs2].
  pose proof (LoadGlobals_go_inv w (Split ":"%char (GLOBAL_DIRS w)) c2 Hc2 Hs2) as [Hc3 Hs3].
  unfold LoadGlobals.
  destruct (LoadGlobals_go w c2 (Split ":"%char (GLOBAL_DIRS w))) as [c3 e3].
  cbn [fst] in Hc3, Hs3. destruct e3 as [e|]; [exact Hc3|].
  unfold LoadUser.
  pose proof (LoadFile_inv w c3 (UserFile w (node c3)) Hc3 Hs3) as [Hc4 Hs4].
  destruct (LoadFile w c3 (UserFile w (node c3))) as [[c4 e4] found4].
  cbn [fst] in Hc4, Hs4.
  assert (Hl4 : forall r : Config * option error, r = (if found4 then (c4, e4) else (c4, None)) ->
            currentSub (fst r) = None /\
            forall k s, subcommands (fst r) !! k = Some s -> ValidateName k = None)
    by (intros r ->; destruct found4; split; assumption).
  destruct (if found4 then (c4, e4) else (c4, None)) as [c4' e4'] eqn:E4.
  destruct (Hl4 _ eq_refl) as [Hc4' Hs4']. cbn [fst] in Hc4', Hs4'.
  destruct e4' as [e|]; [exact Hc4'|].
  unfold LoadLocals.
  pose proof (LoadFile_inv w c4' (LocalFile w (node c4')) Hc4' Hs4') as [Hc5 Hs5].
  destruct (LoadFile w c4' (LocalFile w (node c4'))) as [[c5 e5] found5].
  cbn [fst] in Hc5, Hs5.
  assert (Hl5 : forall r : Config * option error, r = (if found5 then (c5, e5) else (c5, None)) ->
            currentSub (fst r) = None /\
            forall k s, subcommands (fst r) !! k = Some s -> ValidateName k = None)
    by (intros r ->; destruct found5; split; assumption).
  destruct (if found5 then (c5, e5) else (c5, None)) as [c5' e5'] eqn:E5.
  destruct (Hl5 _ eq_refl) as [Hc5' Hs5']. cbn [fst] in Hc5', Hs5'.
  destruct e5' as [e|]; [exact Hc5'|].
  destruct (MergeEnv w (node c5')) as [n6 r6].
  destruct r6 as [[e|]|p]; cbn; try exact Hc5'.
  destruct (ARGS w) as [|a0 rest].
  - destruct (mergeArgs n6 false []) as [n7 [m|k]]; exact Hc5'.
  - destruct (subcommands c5' !! ToLower a0) as [sub|] eqn:Ed.
    + exfalso. exact (ValidateName_ToLower a0 (Hs5' _ _ Ed)).
    + destruct (mergeArgs n6 false (a0 :: rest)) as [n7 [m|k]]; exact Hc5'.
Qed.

End Dispatch_facts.

Lemma Load_never_selects_witness :
  currentSub (fst (fst (Load (bare_world ["RUN"; "--fast"]) demo_sub_config))) = None.
Proof.
  apply Load_never_selects.
  apply (bool_decide_unpack
           (map_Forall (fun k (_ : Node) => ValidateName k = None) (subcommands demo_sub_config))).
  vm_compute. reflexivity.
Defined.

(* ------------------------------------------------------------------ *)
(** ** The name grammar *)

Lemma Split_not_nil (c : ascii) (s : string) : Split c s <> [].
Proof.
  destruct s as [|d s]; cbn; [discriminate|].
  destruct (Ascii.eqb d c); [discriminate|]. destruct (Split c s); discriminate.
Qed.

Lemma Join_cons_cons (c : ascii) (w w' : string) (ws : list string) :
  Join c (w :: w' :: ws) = (w ++ String c (Join c (w' :: ws)))%string.
Proof. reflexivity. Qed.

Lemma Join_Split (c : ascii) (s : string) : Join c (Split c s) = s.
Proof.
  induction s as [|d s IH]; cbn [Split]; [reflexivity|].
  pose proof (Split_not_nil c s) as Hn.
  destruct (Ascii.eqb_spec d c) as [->|Hdc].
  - destruct (Split c s) as [|w ws]; [congruence|].
    rewrite Join_cons_cons, IH. reflexivity.
  - destruct (Split c s) as [|w [|w' ws]]; [congruence| |].
    + cbn in IH |- *. rewrite IH. reflexivity.
    + rewrite Join_cons_cons in IH |- *. cbn [String.append]. rewrite IH. reflexivity.
Qed.

Lemma Split_no_sep (c : ascii) (w : string) : Contains c w = false -> Split c w = [w].
Proof.
  induction w as [|d w IH]; cbn [Contains Split]; [reflexivity|].
  intros [Hd Hw]%orb_false_iff. rewrite Hd, IH by exact Hw. reflexivity.
Qed.

Lemma Split_app_sep (c : ascii) (w r : string) :
  Contains c w = false -> Split c (w ++ String c r) = w :: Split c r.
Proof.
  induction w as [|d w IH]; cbn [Contains Split String.append].
  - rewrite Ascii.eqb_refl. reflexivity.
  - intros [Hd Hw]%orb_false_iff. rewrite Hd, IH by exact Hw. reflexivity.
Qed.

Lemma Split_Join (c : ascii) (ws : list string) :
  ws <> [] -> Forall (fun w => Contains c w = false) ws -> Split c (Join c ws) = ws.
Proof.
  induction ws as [|w [|w' ws] IH]; intros Hne Hall; [congruence| |].
  - inversion Hall; subst. apply Split_no_sep. assumption.
  - inversion Hall; subst. rewrite Join_cons_cons, Split_app_sep by assumption.
    rewrite IH by (discriminate || assumption). reflexivity.
Qed.

Lemma word_no_underscore (w : string) :
  word_regexp_MatchString w = true -> Contains "_"%char w = false /\ w <> ""%string.
Proof.
  destruct w as [|d r]; cbn [word_regexp_MatchString]; [discriminate|].
  intros [[Hd _]%andb_true_iff Hr]%andb_true_iff. split; [|discriminate].
  cbn [Contains]. apply orb_false_iff. split.
  - destruct (Ascii.eqb_spec d "_"%char) as [->|]; [discriminate Hd | reflexivity].
  - clear Hd. induction r as [|e r IH]; cbn [Contains]; [reflexivity|].
    cbn [list_ascii_of_string forallb] in Hr. apply andb_true_iff in Hr as [He Hr].
    rewrite IH by exact Hr.
    destruct (Ascii.eqb_spec e "_"%char) as [->|]; [discriminate He | reflexivity].
Qed.

(** Claim C6: [ValidateName] accepts exactly the non-empty sequences of
    words joined by ['_'] where every word matches [[A-Z][A-Z0-9]+];
    [AB_CD2] is accepted, [A_BC], [ab_cd] and [_AB] are rejected with
    [ErrInvalidName]. *)
Theorem ValidateName_words (s : string) :
  (ValidateName s = None <->
   exists ws, ws <> [] /\ Forall (fun w => word_regexp_MatchString w = true) ws /\
              s = Join "_"%char ws) /\
  ValidateName "AB_CD2" = None /\ ValidateName "A_BC" = Some ErrInvalidName /\
  ValidateName "ab_cd" = Some ErrInvalidName /\ ValidateName "_AB" = Some ErrInvalidName.
Proof.
  split; [|repeat split].
  unfold ValidateName. split.
  - destruct (String.eqb s "") eqn:E; [discriminate|].
    destruct (forallb word_regexp_MatchString (Split "_"%char s)) eqn:F; [|discriminate].
    intros _. exists (Split "_"%char s). split; [apply Split_not_nil|]. split.
    + apply Forall_forall. intros w Hw. rewrite forallb_forall in F. apply F, list_elem_of_In, Hw.
    + symmetry. apply Join_Split.
  - intros (ws & Hne & Hall & ->).
    assert (Hsep : Forall (fun w => Contains "_"%char w = false) ws).
    { eapply Forall_impl; [exact Hall|]. intros w Hw. apply word_no_underscore, Hw. }
    rewrite Split_Join by assumption.
    replace (forallb word_regexp_MatchString ws) with true
      by (symmetry; apply forallb_forall; intros w Hw;
          rewrite Forall_forall in Hall; apply Hall, list_elem_of_In, Hw).
    destruct ws as [|w [|w' ws]]; [congruence| |].
    + inversion Hall; subst. apply word_no_underscore in H1 as [_ Hw].
      destruct w; [congruence | reflexivity].
    + inversion Hall; subst. apply word_no_underscore in H1 as [_ Hw].
      destruct w; [congruence | reflexivity].
Qed.

(* ------------------------------------------------------------------ *)
(** ** Loading without files and environment *)

Section Load_facts.
Context `{GoPrims}.
Variable w : World.
Hypothesis no_files : forall p, files w p = None.

Lemma LoadFile_no_file (c : Config) (p : string) : LoadFile w c p = (c, None, false).
Proof. unfold LoadFile. rewrite no_files. reflexivity. Qed.

Lemma LoadGlobals_go_no_file (c : Config) (dirs : list string) :
  LoadGlobals_go w c dirs = (c, None).
Proof.
  induction dirs as [|d dirs IH]; cbn [LoadGlobals_go]; [reflexivity|].
  rewrite LoadFile_no_file. exact IH.
Qed.

Lemma Load_no_file_stages (c : Config) :
  LoadGlobals w c = (c, None) /\ LoadUser w c = (c, None) /\ LoadLocals w c = (c, None).
Proof.
  unfold LoadGlobals, LoadUser, LoadLocals. rewrite !LoadFile_no_file.
  split; [apply LoadGlobals_go_no_file | split; reflexivity].
Qed.

End Load_facts.

Section Demo_facts.
Context `{GoPrims}.

(** Claim C4: the app name [demo] is refused by [New] (app names follow the
    upper-case name grammar).  For app [DEMO] version [1.0.0] with the
    required [int32] option [PORT] and shortflag [p] in its spec, [Load]
    without files and environment entries and with the argument [-p=8080]
    returns nil, [GetInt32("PORT")] is [8080] and [Locations("PORT")] is
    [["-p"]]; without arguments it returns [MissingOptionError] naming
    version [1.0.0] and [PORT]. *)
Theorem demo_port_load (w : World) :
  (forall p, files w p = None) -> ENV w = [] ->
  New "demo" "1.0.0" = Err (ErrInvalidAppName "demo") /\
  (ARGS w = ["-p=8080"%string] ->
   let '(c, _, r) := Load w demo_port_config in
   r = LoadReturn None /\ GetInt32 (node c) "PORT" = Returns 8080 /\
   Locations (node c) "PORT" = Returns ["-p"%string]) /\
  (ARGS w = [] ->
   let '(_, _, r) := Load w demo_port_config in
   r = LoadReturn (Some (MissingOptionError "1.0.0" "PORT"))).
Proof.
  intros Hf He. split; [reflexivity|].
  assert (HL : forall c, LoadGlobals w c = (c, None) /\ LoadUser w c = (c, None) /\
                         LoadLocals w c = (c, None))
    by (intros c; apply Load_no_file_stages, Hf).
  split; intros Ha; unfold Load;
    (destruct (HL (with_node (Reset demo_port_config)
                     (LoadDefaults (node (Reset demo_port_config))))) as (-> & -> & ->));
    unfold MergeEnv; rewrite He, Ha.
  all: cbn -[mergeArgs LoadDefaults].
  all: change (subcommands demo_port_config) with (∅ : gmap string Node);
       rewrite ?lookup_empty; cbn -[mergeArgs LoadDefaults].
  all: match goal with |- context [mergeArgs ?n ?b ?a] =>
         remember (mergeArgs n b a) as m eqn:E; vm_compute in E; subst m end.
  all: vm_compute; repeat split.
Qed.

End Demo_facts.



Lemma demo_port_load_witness :
  let '(c, _, r) := Load (bare_world ["-p=8080"%string]) demo_port_config in
  r = LoadReturn None /\ GetInt32 (node c) "PORT" = Returns 8080 /\
  Locations (node c) "PORT" = Returns ["-p"%string].
Proof.
  pose proof (demo_port_load (bare_world ["-p=8080"%string])) as W.
  destruct W as [_ [W _]]; [intros p; reflexivity | reflexivity |].
  apply W. reflexivity.
Defined.

(** Counterexample to claim C4: the app name [demo] is refused. *)
Lemma New_demo_refused : New "demo" "1.0.0" = Err (ErrInvalidAppName "demo").
Proof. reflexivity. Qed.

(* ------------------------------------------------------------------ *)
(** ** Round trip: text-level facts *)

Section Roundtrip_facts.
Context {GP : GoPrims}.

Lemma str_app_nil (a : string) : (a ++ "")%string = a.
Proof. induction a as [|x a IH]; cbn; [reflexivity | rewrite IH; reflexivity]. Qed.

Lemma rev_str_app (a b : string) : rev_str (a ++ b) = (rev_str b ++ rev_str a)%string.
Proof.
  induction a as [|x a IH]; cbn [rev_str String.append].
  - rewrite str_app_nil. reflexivity.
  - rewrite IH, str_app_assoc. reflexivity.
Qed.

Lemma rev_str_involutive (s : string) : rev_str (rev_str s) = s.
Proof.
  induction s as [|x s IH]; cbn [rev_str]; [reflexivity|].
  rewrite rev_str_app, IH. reflexivity.
Qed.

Lemma Contains_app (c : ascii) (a b : string) :
  Contains c (a ++ b) = Contains c a || Contains c b.
Proof.
  induction a as [|x a IH]; cbn [Contains String.append]; [reflexivity|].
  rewrite IH, orb_assoc. reflexivity.
Qed.

Lemma Contains_rev (c : ascii) (s : string) : Contains c (rev_str s) = Contains c s.
Proof.
  induction s as [|x s IH]; cbn [rev_str Contains]; [reflexivity|].
  rewrite Contains_app, IH. unfold ch. cbn [Contains]. rewrite orb_false_r, orb_comm. reflexivity.
Qed.

Lemma Contains_TrimLeftBy (c : ascii) (p : ascii -> bool) (s : string) :
  Contains c s = false -> Contains c (TrimLeftBy p s) = false.
Proof.
  induction s as [|x s IH]; cbn [TrimLeftBy Contains]; [reflexivity|].
  intros Hs. destruct (p x); [|exact Hs]. apply IH. apply orb_false_iff in Hs. apply Hs.
Qed.

Lemma Contains_TrimSpace (c : ascii) (s : string) :
  Contains c s = false -> Contains c (TrimSpace s) = false.
Proof.
  intros Hs. unfold TrimSpace, TrimRightBy.
  rewrite Contains_rev. apply Contains_TrimLeftBy. rewrite Contains_rev.
  apply Contains_TrimLeftBy, Hs.
Qed.

Lemma TrimLeftBy_keep (p : ascii -> bool) (x : ascii) (s : string) :
  p x = false -> TrimLeftBy p (String x s) = String x s.
Proof. intros Hx. cbn. rewrite Hx. reflexivity. Qed.

Lemma edge_not_space (c : ascii) : edge_ok c = true -> is_space c = false.
Proof. unfold edge_ok. intros [_ H]%andb_true_iff. apply negb_true_iff, H. Qed.

(** [TrimSpace] leaves a text with ASCII edges as it is. *)
Lemma TrimSpace_ascii_edges (s : string) : ascii_edges s = true -> TrimSpace s = s.
Proof.
  unfold ascii_edges, TrimSpace, TrimRightBy.
  destruct s as [|x s']; [discriminate|].
  destruct (rev_str (String x s')) as [|y r] eqn:Er; [discriminate|].
  intros [Hx Hy]%andb_true_iff.
  rewrite TrimLeftBy_keep by (apply edge_not_space, Hx).
  rewrite Er, TrimLeftBy_keep by (apply edge_not_space, Hy).
  rewrite <- Er. apply rev_str_involutive.
Qed.

Lemma ascii_edges_not_empty (s : string) : ascii_edges s = true -> s <> EmptyString.
Proof. destruct s; [discriminate | intros _; discriminate]. Qed.

Lemma Join_prefix_lines (h : string) (ls : list string) :
  Join NL (h :: ls) = (h ++ prefix_lines ls)%string.
Proof.
  revert h. induction ls as [|l ls IH]; intros h; cbn [Join prefix_lines].
  - rewrite str_app_nil. reflexivity.
  - rewrite <- IH. reflexivity.
Qed.

Lemma prefix_lines_app (l1 l2 : list string) :
  prefix_lines (l1 ++ l2) = (prefix_lines l1 ++ prefix_lines l2)%string.
Proof.
  induction l1 as [|l l1 IH]; cbn [prefix_lines List.app]; [reflexivity|].
  rewrite IH. cbn [String.append]. rewrite str_app_assoc. reflexivity.
Qed.

Lemma prefix_lines_JoinStr (pre : string) (hs : list string) :
  hs <> [] ->
  (nl ++ pre ++ JoinStr (nl ++ pre) hs)%string = prefix_lines (map (fun h => pre ++ h)%string hs).
Proof.
  induction hs as [|h [|h' hs] IH]; intros Hne; [congruence| |].
  - cbn [JoinStr map prefix_lines]. rewrite str_app_nil. reflexivity.
  - change (JoinStr (nl ++ pre) (h :: h' :: hs))
      with (h ++ (nl ++ pre) ++ JoinStr (nl ++ pre) (h' :: hs))%string.
    rewrite (str_app_assoc nl pre), IH by discriminate.
    cbn [map prefix_lines]. unfold nl, ch. cbn [String.append].
    rewrite (str_app_assoc pre h). reflexivity.
Qed.

(** The preamble is the header line followed by the comment lines. *)
Lemma file_preamble_lines (a v : string) :
  file_preamble a v = ((a ++ " " ++ v) ++ prefix_lines (preamble_lines a v))%string.
Proof.
  unfold file_preamble, preamble_lines, nl, ch.
  cbn [prefix_lines]. rewrite !str_app_assoc. reflexivity.
Qed.

Lemma Index_absent (c : ascii) (s : string) : Contains c s = false -> Index c s = -1.
Proof.
  induction s as [|d s IH]; cbn [Contains Index]; [reflexivity|].
  intros [Hd Hs]%orb_false_iff. rewrite Hd, IH by exact Hs. reflexivity.
Qed.

Lemma list_ascii_app (a b : string) :
  list_ascii_of_string (a ++ b) = list_ascii_of_string a ++ list_ascii_of_string b.
Proof. induction a as [|x a IH]; cbn; [reflexivity | rewrite IH; reflexivity]. Qed.

(** A character class that excludes [c] keeps [c] out of the text. *)
Lemma forallb_Contains (p : ascii -> bool) (c : ascii) (s : string) :
  forallb p (list_ascii_of_string s) = true -> p c = false -> Contains c s = false.
Proof.
  intros Hs Hc. induction s as [|x s IH]; cbn in *; [reflexivity|].
  apply andb_true_iff in Hs as [Hx Hs].
  rewrite IH by exact Hs. rewrite orb_false_r.
  apply Ascii.eqb_neq. intros ->. congruence.
Qed.


Lemma forallb_Join (p : ascii -> bool) (c : ascii) (ws : list string) :
  p c = true -> Forall (fun w => forallb p (list_ascii_of_string w) = true) ws ->
  forallb p (list_ascii_of_string (Join c ws)) = true.
Proof.
  intros Hc. induction ws as [|w [|w' ws] IH]; intros Hws; [reflexivity| |].
  - inversion Hws; assumption.
  - inversion Hws as [|? ? Hw Hrest]; subst.
    change (Join c (w :: w' :: ws)) with (w ++ String c (Join c (w' :: ws)))%string.
    rewrite list_ascii_app, forallb_app. cbn [list_ascii_of_string forallb].
    rewrite Hw, Hc, IH by exact Hrest. reflexivity.
Qed.

Lemma ValidateName_chars (s : string) :
  ValidateName s = None -> forallb name_char (list_ascii_of_string s) = true.
Proof.
  unfold ValidateName. destruct (String.eqb s ""); [discriminate|].
  destruct (forallb word_regexp_MatchString (Split "_" s)) eqn:E; [intros _|discriminate].
  rewrite <- (Join_Split "_" s). apply forallb_Join; [reflexivity|].
  apply Forall_forall. intros w Hw%list_elem_of_In.
  pose proof (proj1 (forallb_forall _ _) E w Hw) as Hm.
  destruct w as [|x r]; [discriminate|]. cbn in Hm |- *.
  apply andb_true_iff in Hm as [[Hx _]%andb_true_iff Hr].
  apply andb_true_iff. split; [unfold name_char; rewrite Hx; reflexivity|].
  apply forallb_forall. intros d Hd.
  apply (proj1 (forallb_forall _ _) Hr) in Hd. unfold name_char. rewrite Hd. reflexivity.
Qed.

Lemma name_no (c : ascii) (s : string) :
  ValidateName s = None -> name_char c = false -> Contains c s = false.
Proof. intros Hs. apply forallb_Contains, ValidateName_chars, Hs. Qed.

Lemma ValidateName_not_empty (s : string) : ValidateName s = None -> s <> ""%string.
Proof. intros H ->. discriminate. Qed.


Lemma version_no (c : ascii) (v : string) :
  ValidateVersion v = None -> version_char c = false -> Contains c v = false.
Proof.
  unfold ValidateVersion, VersionRegexp_MatchString.
  destruct (negb (String.eqb v "") && _) eqn:E; [intros _|discriminate].
  apply andb_true_iff in E as [_ E]. apply forallb_Contains, E.
Qed.

Lemma TrimLeftBy_eqb_absent (c : ascii) (s : string) :
  Contains c s = false -> TrimLeftBy (fun x => Ascii.eqb x c) s = s.
Proof.
  destruct s as [|x s]; cbn [Contains TrimLeftBy]; [reflexivity|].
  intros [Hx _]%orb_false_iff. rewrite Hx. reflexivity.
Qed.

Lemma TrimRightSpaces_absent (s : string) :
  Contains " "%char s = false -> TrimRightSpaces s = s.
Proof.
  intros Hs. unfold TrimRightSpaces, TrimRightBy.
  rewrite TrimLeftBy_eqb_absent by (rewrite Contains_rev; exact Hs).
  apply rev_str_involutive.
Qed.

(** ** Printing and parsing an int32 *)

Lemma forallb_weaken {A} (p q : A -> bool) (l : list A) :
  (forall x, p x = true -> q x = true) -> forallb p l = true -> forallb q l = true.
Proof.
  intros Hpq. induction l as [|x l IH]; cbn; [reflexivity|].
  intros [Hx Hl]%andb_true_iff. rewrite Hpq, IH by assumption. reflexivity.
Qed.

Lemma forallb_rev_str (p : ascii -> bool) (s : string) :
  forallb p (list_ascii_of_string (rev_str s)) = forallb p (list_ascii_of_string s).
Proof.
  induction s as [|x s IH]; cbn [rev_str list_ascii_of_string]; [reflexivity|].
  rewrite list_ascii_app, forallb_app, IH. cbn. rewrite andb_true_r, andb_comm. reflexivity.
Qed.

Lemma ascii_edges_forallb (p : ascii -> bool) (s : string) :
  (forall c, p c = true -> edge_ok c = true) ->
  forallb p (list_ascii_of_string s) = true -> s <> ""%string -> ascii_edges s = true.
Proof.
  intros Hp Hs Hne. unfold ascii_edges.
  pose proof Hs as Hr. rewrite <- forallb_rev_str in Hr.
  destruct s as [|x s']; [congruence|].
  destruct (rev_str (String x s')) as [|y r] eqn:Er;
    [cbn [rev_str] in Er; destruct (rev_str s'); discriminate Er|].
  cbn in Hs, Hr. apply andb_true_iff in Hs as [Hx _], Hr as [Hy _].
  rewrite (Hp x Hx), (Hp y Hy). reflexivity.
Qed.


Lemma int_char_edge (c : ascii) : int_char c = true -> edge_ok c = true.
Proof.
  destruct c as [[] [] [] [] [] [] [] []]; vm_compute; intros H;
    first [reflexivity | discriminate H].
Qed.

Lemma digit_not_sign (c : ascii) :
  is_digit c = true -> Ascii.eqb c "+"%char = false /\ Ascii.eqb c "-"%char = false.
Proof.
  destruct c as [[] [] [] [] [] [] [] []]; vm_compute; intros H;
    first [split; reflexivity | discriminate H].
Qed.

Lemma string_of_uint_digits (d : Decimal.uint) :
  forallb is_digit (list_ascii_of_string (NilEmpty.string_of_uint d)) = true.
Proof. induction d; cbn; rewrite ?IHd; reflexivity. Qed.

Lemma string_of_uint_head (d : Decimal.uint) :
  d <> Decimal.Nil ->
  exists c r, NilEmpty.string_of_uint d = String c r /\ is_digit c = true.
Proof.
  intros Hd. destruct d; [congruence| ..]; eexists _, _; split; reflexivity.
Qed.

Lemma ParseUint64_to_uint (p : positive) :
  ParseUint64 (NilEmpty.string_of_uint (Pos.to_uint p)) =
  if (N.pos p <? 2 ^ 64)%N then Some (N.pos p) else None.
Proof.
  unfold ParseUint64.
  destruct (string_of_uint_head (Pos.to_uint p) (DecimalPos.Unsigned.to_uint_nonnil p))
    as (c & r & Hs & _).
  rewrite Hs. cbn [String.eqb]. rewrite <- Hs, NilEmpty.usu.
  unfold N.of_uint. rewrite DecimalPos.Unsigned.of_to. reflexivity.
Qed.

(** [fmt] prints an int32 that [strconv.ParseInt] reads back. *)
Lemma SprintInt32_ok (i : Z) :
  -2 ^ 31 <= i < 2 ^ 31 -> ~ (0 <= i <= 9) ->
  ParseInt32 (SprintInt32 i) = Some i /\ (2 <= String.length (SprintInt32 i))%nat /\
  forallb int_char (list_ascii_of_string (SprintInt32 i)) = true.
Proof.
  intros Hr Hn. unfold SprintInt32.
  destruct i as [|p|p]; [lia| |]; cbn [Z.to_int NilEmpty.string_of_int].
  - destruct (string_of_uint_head (Pos.to_uint p) (DecimalPos.Unsigned.to_uint_nonnil p))
      as (c & r & Hs & Hc).
    split; [|split].
    + rewrite Hs. unfold ParseInt32.
      destruct (digit_not_sign c Hc) as [H1 H2]. rewrite H1, H2.
      rewrite <- Hs, ParseUint64_to_uint.
      replace (N.pos p <? 2 ^ 64)%N with true by (symmetry; apply N.ltb_lt; lia).
      replace (2 ^ 31 <=? N.pos p)%N with false by (symmetry; apply N.leb_gt; lia).
      reflexivity.
    + pose proof (DecimalPos.Unsigned.of_to p) as Hp.
      destruct (Pos.to_uint p) as [|u|u|u|u|u|u|u|u|u|u];
        [discriminate Hs| ..]; destruct u; cbn in Hp |- *; try lia;
        exfalso; inversion Hp; subst; lia.
    + unfold int_char. eapply forallb_weaken; [|apply string_of_uint_digits].
      intros x Hx. rewrite Hx. reflexivity.
  - split; [|split].
    + unfold ParseInt32. cbn [Ascii.eqb Bool.eqb]. cbv iota.
      rewrite ParseUint64_to_uint.
      replace (N.pos p <? 2 ^ 64)%N with true by (symmetry; apply N.ltb_lt; lia).
      replace (2 ^ 31 <? N.pos p)%N with false by (symmetry; apply N.ltb_ge; lia).
      reflexivity.
    + destruct (string_of_uint_head (Pos.to_uint p) (DecimalPos.Unsigned.to_uint_nonnil p))
        as (c & r & Hs & _).
      rewrite Hs. cbn. lia.
    + cbn [list_ascii_of_string forallb]. apply andb_true_iff. split; [reflexivity|].
      unfold int_char. eapply forallb_weaken; [|apply string_of_uint_digits].
      intros x Hx. rewrite Hx. reflexivity.
Qed.

(** ** A written value reads back *)

Lemma Split_parts (c : ascii) (s : string) :
  Forall (fun w => Contains c w = false) (Split c s).
Proof.
  induction s as [|d s IH]; cbn [Split]; [repeat constructor|].
  destruct (Ascii.eqb d c) eqn:Ed; [constructor; [reflexivity | exact IH]|].
  destruct (Split c s) as [|w ws]; [repeat constructor; cbn; rewrite Ed; reflexivity|].
  inversion IH as [|? ? Hw Hws]; subst.
  constructor; [cbn; rewrite Ed, Hw; reflexivity | exact Hws].
Qed.

Lemma TrimSpace_space (x : ascii) (s : string) :
  is_space x = true -> TrimSpace (String x s) = TrimSpace s.
Proof. intros Hx. unfold TrimSpace. cbn [TrimLeftBy]. rewrite Hx. reflexivity. Qed.

Lemma eqb_true (a b : string) : String.eqb a b = true -> a = b.
Proof. apply String.eqb_eq. Qed.

Lemma value_text_ok (o : Option) (v : Value) :
  ValidateValue o (Some v) = None -> reads_back v ->
  exists v0 vs, Split NL (value_text o v) = v0 :: vs /\ String.length v0 <> 1%nat /\
    Forall (fun l => value_line_ok l = true) vs /\
    TrimSpace (value_text o v) <> ""%string /\
    stringToValue (Type_ o) (TrimSpace (value_text o v)) = Ok v.
Proof.
  intros Hv Hr. destruct v as [b|i|f|s|t]; cbn [ValidateValue] in Hv.
  - destruct (String.eqb (Type_ o) "bool") eqn:HT; [apply eqb_true in HT|discriminate].
    unfold stringToValue. rewrite HT.
    destruct b; eexists _, []; repeat split; try constructor; discriminate.
  - destruct (String.eqb (Type_ o) "int32") eqn:HT; [apply eqb_true in HT|discriminate].
    destruct Hr as [Hr Hn]. destruct (SprintInt32_ok i Hr Hn) as (HP & Hl & Hc).
    assert (HNL : Contains NL (SprintInt32 i) = false)
      by (apply (forallb_Contains int_char); [exact Hc | reflexivity]).
    assert (HT' : TrimSpace (SprintInt32 i) = SprintInt32 i).
    { apply TrimSpace_ascii_edges. apply (ascii_edges_forallb int_char);
        [exact int_char_edge | exact Hc |].
      intros E. rewrite E in Hl. cbn in Hl. lia. }
    cbn [value_text SprintValue]. rewrite Split_no_sep by exact HNL.
    eexists _, []. split; [reflexivity|]. split; [lia|]. split; [constructor|].
    rewrite HT'. split; [intros E; rewrite E in Hl; cbn in Hl; lia|].
    unfold stringToValue. rewrite HT, HP. reflexivity.
  - destruct (String.eqb (Type_ o) "float32") eqn:HT; [apply eqb_true in HT|discriminate].
    destruct Hr as (He & HNL & Hl & HP).
    cbn [value_text SprintValue]. rewrite Split_no_sep by exact HNL.
    rewrite TrimSpace_ascii_edges by exact He.
    eexists _, []. split; [reflexivity|]. split; [lia|]. split; [constructor|].
    split; [intros E; rewrite E in Hl; cbn in Hl; lia|].
    unfold stringToValue. rewrite HT, HP. reflexivity.
  - destruct Hr as [He Hlines].
    assert (Hst : stringToValue (Type_ o) s = Ok (VString s)).
    { unfold stringToValue.
      destruct (String.eqb (Type_ o) "json") eqn:Ej.
      - apply eqb_true in Ej. rewrite Ej in Hv |- *. cbn in Hv |- *.
        destruct (JSONValid s); first [reflexivity | discriminate].
      - destruct (String.eqb (Type_ o) "string") eqn:Es; [|cbn in Hv; discriminate].
        apply eqb_true in Es. rewrite Es. reflexivity. }
    cbn [value_text].
    destruct (Z.ltb 15 (len s) || Contains NL s) eqn:Eb.
    + unfold nl, ch. cbn [String.append Split]. rewrite Ascii.eqb_refl.
      rewrite TrimSpace_space by reflexivity. rewrite TrimSpace_ascii_edges by exact He.
      eexists _, _. split; [reflexivity|]. split; [cbn; lia|].
      split; [apply Forall_forall; intros l Hl%list_elem_of_In;
              exact (proj1 (forallb_forall _ _) Hlines l Hl)|].
      split; [exact (ascii_edges_not_empty s He) | exact Hst].
    + apply orb_false_iff in Eb as [_ HNL]. cbn [String.append].
      rewrite Split_no_sep by exact HNL. rewrite TrimSpace_ascii_edges by exact He.
      eexists _, []. split; [reflexivity|]. split; [lia|]. split; [constructor|].
      split; [exact (ascii_edges_not_empty s He) | exact Hst].
  - destruct (String.eqb (Type_ o) "datetime") eqn:HT; [apply eqb_true in HT|discriminate].
    destruct Hr as (He & HNL & HP).
    cbn [value_text]. rewrite HT. cbn [String.eqb Ascii.eqb Bool.eqb].
    cbv iota. cbn [String.append].
    rewrite Split_no_sep by (cbn [Contains]; exact HNL).
    rewrite TrimSpace_space, TrimSpace_ascii_edges by (exact He || reflexivity).
    eexists _, []. split; [reflexivity|].
    split; [destruct (FormatDateTime t) eqn:E; [discriminate He | cbn; lia]|].
    split; [constructor|].
    split; [exact (ascii_edges_not_empty _ He)|].
    unfold stringToValue. rewrite HP. reflexivity.
Qed.

(** ** The written text, line by line *)

Lemma Split_map_not_nil (f : string -> string) (c : ascii) (s : string) :
  map f (Split c s) <> [].
Proof. destruct (Split c s) eqn:E; [destruct (Split_not_nil c s E) | discriminate]. Qed.

Lemma entry_text (sub k : string) (o : Option) (v : Value) :
  (nl ++ "# --- " ++ entry_key sub k ++ " (" ++ Type_ o ++ ") ---" ++ nl
   ++ "#     " ++ JoinStr (nl ++ "#     ") (map TrimSpace (Split NL (Help o))) ++ nl
   ++ "$" ++ entry_key sub k ++ "=" ++ value_text o v)%string
  = prefix_lines (entry_lines (mkEntry sub k o v)).
Proof.
  unfold entry_lines. cbn [e_sub e_key e_opt e_val].
  set (wk := entry_key sub k).
  destruct (Split NL (value_text o v)) as [|v0 vs] eqn:Es;
    [exfalso; exact (Split_not_nil _ _ Es)|].
  rewrite <- (Join_Split NL (value_text o v)), Es, Join_prefix_lines.
  cbn [prefix_lines]. rewrite prefix_lines_app.
  rewrite <- prefix_lines_JoinStr by apply Split_map_not_nil.
  cbn [prefix_lines]. unfold nl, ch.
  rewrite ?str_app_assoc. cbn [String.append]. rewrite ?str_app_assoc. reflexivity.
Qed.

(** [write_entry] writes the lines of the entry. *)
Lemma write_entry_lines (n : Node) (k : string) (v : Value) (o : Option) (sub : string) :
  spec n !! k = Some o -> ValidateValue o (Some v) = None ->
  (if isSub n then (subName n ++ "_" ++ k)%string else k) = entry_key sub k ->
  write_entry n k v = (prefix_lines (entry_lines (mkEntry sub k o v)), WDone).
Proof.
  intros Hs Hv Hwk. unfold write_entry. rewrite Hs. cbv zeta. rewrite Hwk.
  rewrite <- entry_text.
  destruct v as [b|i|f|s|t]; cbn [value_text SprintValue].
  1-3: rewrite ?str_app_assoc; reflexivity.
  - rewrite ?str_app_assoc. reflexivity.
  - cbn [ValidateValue] in Hv.
    destruct (String.eqb (Type_ o) "datetime") eqn:HT; [apply eqb_true in HT|discriminate].
    rewrite HT. cbn [String.eqb Ascii.eqb Bool.eqb]. cbv iota.
    rewrite ?str_app_assoc. reflexivity.
Qed.

Lemma write_entries_lines (n : Node) (sub : string) (l : list (string * Value)) :
  (forall k, (if isSub n then (subName n ++ "_" ++ k)%string else k) = entry_key sub k) ->
  Forall (fun kv => exists o, spec n !! kv.1 = Some o /\ ValidateValue o (Some kv.2) = None) l ->
  write_entries n l =
  (prefix_lines (concat (map entry_lines
     (flat_map (fun kv => match spec n !! kv.1 with
                          | Some o => [mkEntry sub kv.1 o kv.2]
                          | None => []
                          end) l))), WDone).
Proof.
  intros Hk. induction l as [|[k v] l IH]; intros Hl; [reflexivity|].
  inversion Hl as [|? ? (o & Ho & Hv) Hrest]; subst. cbn [fst snd] in Ho, Hv.
  cbn [write_entries flat_map fst snd]. rewrite (write_entry_lines n k v o sub Ho Hv (Hk k)).
  rewrite IH by exact Hrest. rewrite Ho.
  cbn [List.app map concat]. rewrite prefix_lines_app. reflexivity.
Qed.

Lemma writeConfigValues_node_lines (n : Node) (sub : string) :
  (forall k, (if isSub n then (subName n ++ "_" ++ k)%string else k) = entry_key sub k) ->
  values_typed n ->
  writeConfigValues_node n = (prefix_lines (concat (map entry_lines (node_entries sub n))), WDone).
Proof.
  intros Hk Hn. unfold writeConfigValues_node, node_entries.
  apply write_entries_lines; [exact Hk|].
  apply map_Forall_to_list in Hn. eapply Forall_impl; [exact Hn|].
  intros [k v]. cbn. tauto.
Qed.

Lemma item_lines_entries (es : list entry) :
  concat (map item_lines (map IEntry es)) = concat (map entry_lines es).
Proof. rewrite map_map. reflexivity. Qed.

Lemma sub_key (s : Node) (k : string) :
  isSub s = true -> subName s <> ""%string ->
  (if isSub s then (subName s ++ "_" ++ k)%string else k) = entry_key (subName s) k.
Proof.
  intros Hs Hn. rewrite Hs. unfold entry_key.
  destruct (String.eqb (subName s) "") eqn:E; [apply eqb_true in E; congruence|reflexivity].
Qed.

Lemma write_subs_lines (l : list (string * Node)) :
  Forall (fun ns => isSub ns.2 = true /\ subName ns.2 <> ""%string /\ values_typed ns.2) l ->
  write_subs l =
  (prefix_lines (concat (map item_lines
     (concat (map (fun ns => sub_banner (subName ns.2) ++ map IEntry (node_entries (subName ns.2) ns.2)) l)))),
   WDone).
Proof.
  induction l as [|[name s] l IH]; intros Hl; [reflexivity|].
  inversion Hl as [|? ? (Hs & Hn & Hv) Hrest]; subst. cbn [fst snd] in Hs, Hn, Hv.
  cbn [write_subs].
  rewrite (writeConfigValues_node_lines s (subName s) (fun k => sub_key s k Hs Hn) Hv).
  rewrite IH by exact Hrest.
  cbn [map concat fst snd]. rewrite !map_app, !concat_app.
  rewrite item_lines_entries. cbn [sub_banner map item_lines concat List.app fst snd].
  rewrite ?prefix_lines_app. cbn [prefix_lines]. rewrite ?prefix_lines_app. unfold nl, ch.
  rewrite ?str_app_assoc. cbn [String.append]. rewrite ?str_app_assoc. reflexivity.
Qed.

Lemma ValidateValues_go_ok (n : Node) (l : list (string * Value)) :
  Forall (fun kv => exists o, spec n !! kv.1 = Some o /\ ValidateValue o (Some kv.2) = None) l ->
  ValidateValues_go n l = None.
Proof.
  induction l as [|[k v] l IH]; intros Hl; [reflexivity|].
  inversion Hl as [|? ? (o & Ho & Hv) Hrest]; subst. cbn [fst snd] in Ho, Hv.
  cbn [ValidateValues_go]. rewrite Ho, Hv. apply IH, Hrest.
Qed.

Lemma writeConfigValues_lines (c : Config) :
  isSub (node c) = false -> values_typed (node c) ->
  map_Forall (fun _ s => isSub s = true /\ subName s <> ""%string /\ values_typed s) (subcommands c) ->
  writeConfigValues c = (prefix_lines (concat (map item_lines (config_items c))), WDone).
Proof.
  intros Hr Hv Hs. unfold writeConfigValues.
  rewrite (writeConfigValues_node_lines (node c) "") by
    (exact Hv || (intros k; rewrite Hr; reflexivity)).
  rewrite write_subs_lines.
  - unfold config_items. rewrite map_app, concat_app, item_lines_entries, prefix_lines_app.
    reflexivity.
  - apply map_Forall_to_list in Hs. eapply Forall_impl; [exact Hs|].
    intros [name s]. cbn. tauto.
Qed.

(** *** The calls of [writeConfigValues] when every write succeeds *)

Section Writes_ok.
Variable fs : fs_answers.
Hypothesis Hw : forall k, fs_write fs k = None.

Lemma WriteString_ok (f : wfile) (s : string) :
  WriteString fs f s = (mkWF (wf_text f ++ s) (S (wf_calls f)), None).
Proof. unfold WriteString. rewrite Hw. reflexivity. Qed.

Lemma write_last_ok (f : wfile) (s : string) :
  write_last fs f s = (mkWF (wf_text f ++ s) (S (wf_calls f)), WDone).
Proof. unfold write_last. rewrite WriteString_ok. reflexivity. Qed.

Lemma write_entry_io_ok (n : Node) (k : string) (v : Value) (f : wfile) :
  wf_text (fst (write_entry_io fs n k v f)) = (wf_text f ++ fst (write_entry n k v))%string /\
  snd (write_entry_io fs n k v f) = snd (write_entry n k v).
Proof.
  unfold write_entry_io, write_entry. destruct (spec n !! k) as [o|].
  - rewrite !WriteString_ok. cbv beta iota zeta.
    destruct v as [b|i|x|s|t]; rewrite ?write_last_ok; cbn [wf_text fst snd];
      [rewrite !str_app_assoc; split; reflexivity ..|].
    destruct (String.eqb (Type_ o) "date"); [cbn [wf_text fst snd];
      rewrite !str_app_assoc; split; reflexivity|].
    destruct (String.eqb (Type_ o) "time"); [cbn [wf_text fst snd];
      rewrite !str_app_assoc; split; reflexivity|].
    destruct (String.eqb (Type_ o) "datetime"); cbn [wf_text fst snd];
      rewrite !str_app_assoc; split; reflexivity.
  - cbn [fst snd]. rewrite str_app_nil. split; reflexivity.
Qed.

Lemma write_entries_io_ok (n : Node) (l : list (string * Value)) (f : wfile) :
  wf_text (fst (write_entries_io fs n l f)) = (wf_text f ++ fst (write_entries n l))%string /\
  snd (write_entries_io fs n l f) = snd (write_entries n l).
Proof.
  revert f. induction l as [|[k v] l IH]; intros f; cbn [write_entries_io write_entries].
  - cbn [fst snd]. rewrite str_app_nil. split; reflexivity.
  - destruct (write_entry_io_ok n k v f) as [H1 H2].
    destruct (write_entry_io fs n k v f) as [f' e'].
    destruct (write_entry n k v) as [t e]. cbn [fst snd] in H1, H2. subst e'.
    destruct e; cbn [fst snd]; try (split; [exact H1 | reflexivity]).
    destruct (IH f') as [G1 G2]. destruct (write_entries n l) as [t' e'].
    cbn [fst snd] in G1, G2 |- *. rewrite G1, H1, str_app_assoc. split; [reflexivity | exact G2].
Qed.

Lemma write_subs_io_ok (l : list (string * Node)) (f : wfile) :
  wf_text (fst (write_subs_io fs l f)) = (wf_text f ++ fst (write_subs l))%string /\
  snd (write_subs_io fs l f) = snd (write_subs l).
Proof.
  revert f. induction l as [|[name sub] l IH]; intros f; cbn [write_subs_io write_subs].
  - cbn [fst snd]. rewrite str_app_nil. split; reflexivity.
  - rewrite WriteString_ok. cbv beta iota zeta.
    destruct (write_entries_io_ok sub (map_to_list (values sub))
                (mkWF (wf_text f ++ (nl ++ "# ------------ SUBCOMMAND " ++ subName sub
                                     ++ " ------------" ++ nl ++ "#"))
                      (S (wf_calls f)))) as [H1 H2].
    unfold writeConfigValues_node.
    destruct (write_entries_io fs sub (map_to_list (values sub)) _) as [f2 e2].
    destruct (write_entries sub (map_to_list (values sub))) as [t e].
    cbn [fst snd wf_text] in H1, H2. subst e2.
    destruct e as [|err|p].
    2: idtac.
    3: { cbn [fst snd]. rewrite H1, !str_app_assoc. split; reflexivity. }
    all: destruct (IH f2) as [G1 G2]; destruct (write_subs l) as [t' e'];
      cbn [fst snd] in G1, G2 |- *; rewrite G1, H1, !str_app_assoc; split; [reflexivity | exact G2].
Qed.

Lemma writeConfigValues_io_ok (c : Config) (f : wfile) :
  wf_text (fst (writeConfigValues_io fs c f)) = (wf_text f ++ fst (writeConfigValues c))%string /\
  snd (writeConfigValues_io fs c f) = snd (writeConfigValues c).
Proof.
  unfold writeConfigValues_io, writeConfigValues, writeConfigValues_node.
  destruct (write_entries_io_ok (node c) (map_to_list (values (node c))) f) as [H1 H2].
  destruct (write_entries_io fs (node c) (map_to_list (values (node c))) f) as [f1 e1].
  destruct (write_entries (node c) (map_to_list (values (node c)))) as [t e].
  cbn [fst snd] in H1, H2. subst e1.
  destruct e; cbn [fst snd]; try (split; [exact H1 | reflexivity]).
  destruct (write_subs_io_ok (map_to_list (subcommands c)) f1) as [G1 G2].
  destruct (write_subs (map_to_list (subcommands c))) as [t' e'].
  cbn [fst snd] in G1, G2 |- *. rewrite G1, H1, str_app_assoc. split; [reflexivity | exact G2].
Qed.

End Writes_ok.

(** The text [WriteConfigFile] writes when the directory check, the
    opening and every write succeed: the header line, the preamble
    comments and the lines of the items. *)
Lemma WriteConfigFile_text (fs : fs_answers) (c : Config) (path : string) (old : option string) :
  dir_check fs path = None -> fs_open fs = None -> (forall k, fs_write fs k = None) ->
  isSub (node c) = false -> values_typed (node c) -> values (node c) <> ∅ ->
  map_Forall (fun _ s => isSub s = true /\ subName s <> ""%string /\ values_typed s) (subcommands c) ->
  WriteConfigFile fs c path old =
  (Some (Join NL ((app (node c) ++ " " ++ version (node c))%string
                  :: preamble_lines (app (node c)) (version (node c))
                  ++ concat (map item_lines (config_items c)))), WDone).
Proof.
  intros Hd Ho Hw Hr Hv Hne Hs. unfold WriteConfigFile. rewrite Hr.
  unfold ValidateValues. rewrite ValidateValues_go_ok.
  2:{ pose proof Hv as Hv'. apply map_Forall_to_list in Hv'. eapply Forall_impl; [exact Hv'|].
      intros [k v]. cbn. tauto. }
  rewrite Hd, bool_decide_eq_false_2 by exact Hne. rewrite Ho, (WriteString_ok fs Hw).
  cbv beta iota zeta.
  destruct (writeConfigValues_io_ok fs Hw c
              (mkWF (wf_text (mkWF EmptyString 0) ++ file_preamble (app (node c)) (version (node c)))
                    (S (wf_calls (mkWF EmptyString 0))))) as [H1 H2].
  destruct (writeConfigValues_io fs c _) as [f r].
  rewrite writeConfigValues_lines in H1, H2 by assumption.
  cbn [fst snd wf_text] in H1, H2. subst r. rewrite H1.
  change (EmptyString ++ ?x)%string with x.
  rewrite file_preamble_lines, Join_prefix_lines, prefix_lines_app, str_app_assoc.
  reflexivity.
Qed.

(** ** Reading the text back: scanning and the header *)

Lemma scan_go_Split (cur s : string) :
  Contains NL cur = false ->
  Forall (fun l => l <> ""%string /\ (String.length l < MaxScanTokenSize)%nat /\ dropCR l = l)
         (Split NL (cur ++ s)) ->
  scan_go cur s = Split NL (cur ++ s).
Proof.
  revert cur. induction s as [|c s IH]; intros cur Hc Hl.
  - rewrite str_app_nil in Hl |- *. rewrite Split_no_sep in Hl |- * by exact Hc.
    inversion Hl as [|? ? (Hne & Hlen & Hd) _]; subst.
    cbn [scan_go]. destruct (String.eqb cur "") eqn:E; [apply eqb_true in E; congruence|].
    replace (Nat.ltb (String.length cur) MaxScanTokenSize) with true
      by (symmetry; apply Nat.ltb_lt; lia).
    rewrite Hd. reflexivity.
  - cbn [scan_go]. destruct (Ascii.eqb c NL) eqn:Ec.
    + apply Ascii.eqb_eq in Ec. subst c.
      rewrite Split_app_sep in Hl |- * by exact Hc.
      inversion Hl as [|? ? (Hne & Hlen & Hd) Hrest]; subst.
      replace (Nat.leb (S (String.length cur)) MaxScanTokenSize) with true
        by (symmetry; apply Nat.leb_le; lia).
      rewrite Hd, (IH "" eq_refl Hrest). reflexivity.
    + assert (Ha : (cur ++ String c s = (cur ++ ch c) ++ s)%string)
        by (rewrite str_app_assoc; reflexivity).
      rewrite Ha in Hl |- *. apply IH; [|exact Hl].
      rewrite Contains_app, Hc. cbn. rewrite Ec. reflexivity.
Qed.

(** A text whose lines fit the scanner scans to its lines. *)
Lemma ScanLines_Join (ls : list string) :
  ls <> [] ->
  Forall (fun l => Contains NL l = false /\ l <> ""%string) ls ->
  lines_fit (Join NL ls) ->
  ScanLines (Join NL ls) = ls.
Proof.
  intros Hne Hls Hfit.
  assert (HS : Split NL (Join NL ls) = ls).
  { apply Split_Join; [exact Hne|]. eapply Forall_impl; [exact Hls|]. intros x [Hx _]; exact Hx. }
  unfold ScanLines. rewrite (scan_go_Split "" (Join NL ls) eq_refl); [exact HS|].
  cbn [String.append]. rewrite HS. unfold lines_fit in Hfit. rewrite HS in Hfit.
  apply Forall_forall. intros l Hl.
  pose proof (proj1 (Forall_forall _ _) Hls l Hl) as [_ H1].
  pose proof (proj1 (Forall_forall _ _) Hfit l Hl) as [H2 H3]. tauto.
Qed.

Lemma Split_header (a v : string) :
  Contains " "%char a = false -> Contains " "%char v = false ->
  Split " "%char (a ++ " " ++ v)%string = [a; v].
Proof.
  intros Ha Hv. change (" " ++ v)%string with (String " " v).
  rewrite Split_app_sep by exact Ha. rewrite Split_no_sep by exact Hv. reflexivity.
Qed.

(** ** Reading the text back: the lines of one entry *)

Lemma str_length_app (a b : string) :
  String.length (a ++ b) = (String.length a + String.length b)%nat.
Proof. induction a as [|x a IH]; cbn; [reflexivity | rewrite IH; reflexivity]. Qed.

Lemma substring_len_app (a b : string) (n : nat) :
  substring (String.length a) n (a ++ b) = substring 0 n b.
Proof. induction a as [|x a IH]; [reflexivity|]. exact IH. Qed.

Lemma substring_full (b : string) : substring 0 (String.length b) b = b.
Proof. induction b as [|x b IH]; cbn; [reflexivity | rewrite IH; reflexivity]. Qed.

Lemma from_len_app (a b : string) : from (len a) (a ++ b) = b.
Proof.
  unfold from, len. rewrite Nat2Z.id, str_length_app.
  replace (String.length a + String.length b - String.length a)%nat with (String.length b) by lia.
  rewrite substring_len_app. apply substring_full.
Qed.

Section Merge_steps.
Variables (location fileVersion : string) (dv : bool).

Lemma merge_comment (st : merge_state) (l : string) (rest : list string) :
  HasPrefix l "#" = true ->
  merge_lines location fileVersion dv st (l :: rest) = merge_lines location fileVersion dv st rest.
Proof.
  destruct l as [|c r]; [discriminate|]. cbn [HasPrefix].
  intros [Hc _]%andb_true_iff. apply Ascii.eqb_eq in Hc. subst c. reflexivity.
Qed.

Lemma merge_comments (st : merge_state) (ls rest : list string) :
  Forall (fun l => HasPrefix l "#" = true) ls ->
  merge_lines location fileVersion dv st (ls ++ rest) = merge_lines location fileVersion dv st rest.
Proof.
  induction 1 as [|l ls Hl _ IH]; [reflexivity|].
  cbn [List.app]. rewrite merge_comment by exact Hl. exact IH.
Qed.

Lemma merge_value_lines (cfg : Config) (keys : gset string) (buf key sub : string)
    (vs rest : list string) :
  Forall (fun l => value_line_ok l = true) vs ->
  merge_lines location fileVersion dv (mkMS cfg keys buf key sub) (vs ++ rest) =
  merge_lines location fileVersion dv (mkMS cfg keys (buf ++ prefix_lines vs) key sub) rest.
Proof.
  intros Hvs. revert buf. induction Hvs as [|l vs Hl _ IH]; intros buf.
  - cbn [List.app prefix_lines]. rewrite str_app_nil. reflexivity.
  - cbn [List.app]. destruct l as [|c r]; [discriminate|].
    cbn [value_line_ok] in Hl. apply andb_true_iff in Hl as [H1 H2].
    apply negb_true_iff in H1, H2.
    cbn [merge_lines]. rewrite H1, H2. rewrite IH.
    cbn [prefix_lines ms_cfg ms_keys ms_valBuf ms_key ms_subcommand]. unfold ch.
    rewrite str_app_assoc. reflexivity.
Qed.

(** How [Merge] splits a written key into subcommand and option name. *)
Lemma split_entry_key (sub k : string) :
  (sub = ""%string /\ Contains "_" k = false) \/ (Contains "_" sub = false /\ sub <> ""%string) ->
  (if 0 <? Index "_" (entry_key sub k)
   then (slice 0 (Index "_" (entry_key sub k)) (entry_key sub k),
         from (Index "_" (entry_key sub k) + 1) (entry_key sub k))
   else (""%string, entry_key sub k)) = (sub, k).
Proof.
  intros [[-> Hk] | [Hs Hne]].
  - unfold entry_key. cbn [String.eqb]. rewrite Index_absent by exact Hk. reflexivity.
  - unfold entry_key. destruct (String.eqb sub "") eqn:E; [apply eqb_true in E; congruence|].
    change ("_" ++ k)%string with (String "_" k).
    rewrite Index_app_absent by (apply Index_absent, Hs).
    destruct sub as [|x r]; [congruence|].
    replace (0 <? len (String x r)) with true
      by (symmetry; apply Z.ltb_lt; unfold len; cbn [String.length]; lia).
    rewrite slice_0_len_app.
    replace (String x r ++ String "_" k)%string with ((String x r ++ "_") ++ k)%string
      by (rewrite str_app_assoc; reflexivity).
    replace (len (String x r) + 1) with (len (String x r ++ "_")%string)
      by (unfold len; rewrite str_length_app; cbn [String.length]; lia).
    rewrite from_len_app. reflexivity.
Qed.

End Merge_steps.

Lemma entry_key_no (c : ascii) (sub k : string) :
  name_char c = false -> ValidateName k = None ->
  (sub = ""%string \/ ValidateName sub = None) ->
  Contains c (entry_key sub k) = false.
Proof.
  intros Hc Hk Hs. unfold entry_key.
  destruct (String.eqb sub "") eqn:E; [apply name_no; assumption|].
  destruct Hs as [-> | Hs]; [discriminate|].
  rewrite Contains_app. change ("_" ++ k)%string with (String "_" k). cbn [Contains].
  rewrite (name_no c sub Hs Hc), (name_no c k Hk Hc).
  replace (Ascii.eqb "_" c) with false; [reflexivity|].
  symmetry. apply Ascii.eqb_neq. intros <-. discriminate Hc.
Qed.

Lemma dollar_index (wk v0 : string) :
  Contains "=" wk = false ->
  Index "=" (String "$" (wk ++ String "=" v0)) = len wk + 1.
Proof.
  intros Hw. cbn [Index Ascii.eqb Bool.eqb]. cbv iota zeta.
  rewrite Index_app_absent by (apply Index_absent, Hw).
  replace (len wk <? 0) with false by (symmetry; apply Z.ltb_ge; unfold len; lia).
  reflexivity.
Qed.

Lemma dollar_key (wk v0 : string) :
  slice 1 (len wk + 1) (String "$" (wk ++ String "=" v0)) = wk.
Proof.
  unfold slice. replace (len wk + 1 - 1) with (len wk) by lia.
  unfold len. rewrite Nat2Z.id. cbn [Z.to_nat Pos.to_nat Pos.iter_op Nat.add substring].
  apply substring_0_app.
Qed.

Lemma dollar_buf (wk v0 : string) :
  String.length v0 <> 1%nat ->
  (if len wk + 1 <? len (String "$" (wk ++ String "=" v0)) - 2
   then from (len wk + 1 + 1) (String "$" (wk ++ String "=" v0)) else EmptyString) = v0.
Proof.
  intros Hv.
  assert (HP : String "$" (wk ++ String "=" v0) = (String "$" (wk ++ "=") ++ v0)%string)
    by (cbn [String.append]; rewrite str_app_assoc; reflexivity).
  assert (HL : len (String "$" (wk ++ "=")) = len wk + 1 + 1)
    by (unfold len; cbn [String.length]; rewrite str_length_app; cbn [String.length]; lia).
  destruct (len wk + 1 <? len (String "$" (wk ++ String "=" v0)) - 2) eqn:E.
  - rewrite HP, <- HL. apply from_len_app.
  - apply Z.ltb_ge in E. unfold len in E. cbn [String.length] in E.
    rewrite str_length_app in E. cbn [String.length] in E.
    destruct v0 as [|x [|y r]]; [reflexivity| cbn in Hv; congruence | cbn [String.length] in E; lia].
Qed.

Lemma merge_dollar (location fileVersion : string) (dv : bool) (st : merge_state)
    (sub k v0 : string) (rest : list string) :
  snd (flush location fileVersion dv st) = None ->
  entry_key sub k ∉ ms_keys st ->
  ValidateName k = None ->
  (sub = ""%string /\ Contains "_" k = false) \/ (ValidateName sub = None /\ Contains "_" sub = false) ->
  String.length v0 <> 1%nat ->
  merge_lines location fileVersion dv st (("$" ++ entry_key sub k ++ "=" ++ v0)%string :: rest)
  = merge_lines location fileVersion dv
      (mkMS (fst (flush location fileVersion dv st)) ({[entry_key sub k]} ∪ ms_keys st) v0 k sub)
      rest.
Proof.
  intros Hf Hnotin Hk Hsub Hv0.
  assert (Hsub' : sub = ""%string \/ ValidateName sub = None) by tauto.
  set (wk := entry_key sub k) in *.
  change (("$" ++ wk ++ "=" ++ v0)%string) with (String "$" (wk ++ String "=" v0)).
  cbn [merge_lines Ascii.eqb Bool.eqb]. cbv iota.
  change (if String.eqb (ms_key st) "" then (ms_cfg st, None)
          else setValue location fileVersion dv st)
    with (flush location fileVersion dv st).
  destruct (flush location fileVersion dv st) as [cfg1 [e|]] eqn:Ef; [discriminate Hf|].
  cbn [fst snd]. cbv iota.
  assert (Heq : Contains "=" wk = false) by (apply entry_key_no; [reflexivity | assumption..]).
  assert (Hsp : Contains " " wk = false) by (apply entry_key_no; [reflexivity | assumption..]).
  rewrite (dollar_index wk v0 Heq).
  replace (len wk + 1 =? -1) with false by (symmetry; apply Z.eqb_neq; unfold len; lia).
  rewrite dollar_key, (TrimRightSpaces_absent wk Hsp).
  rewrite bool_decide_eq_false_2 by exact Hnotin.
  assert (Hs2 : (sub = ""%string /\ Contains "_" k = false) \/
                (Contains "_" sub = false /\ sub <> ""%string)).
  { destruct Hsub as [[-> Hk_] | [Hv Hc]]; [left; split; [reflexivity | exact Hk_] | right; split;
      [exact Hc | exact (ValidateName_not_empty sub Hv)]]. }
  unfold wk. rewrite (split_entry_key sub k Hs2). cbv iota.
  rewrite Hk.
  replace (if String.eqb sub "" then None else ValidateName sub) with (@None error)
    by (destruct Hsub as [[-> _] | [Hv _]]; [reflexivity | destruct (String.eqb sub ""); auto]).
  rewrite dollar_buf by exact Hv0. reflexivity.
Qed.

Lemma help_comments (hs : list string) :
  Forall (fun l => HasPrefix l "#" = true) (map (fun h => "#     " ++ h)%string hs).
Proof. induction hs as [|h hs IH]; constructor; [reflexivity | exact IH]. Qed.

Lemma entry_fits_sub (sp : gmap string Option * gmap string (gmap string Option)) (e : entry) :
  entry_fits sp e ->
  (e_sub e = ""%string /\ Contains "_" (e_key e) = false) \/
  (ValidateName (e_sub e) = None /\ Contains "_" (e_sub e) = false).
Proof.
  intros (_ & _ & _ & Hs). destruct (String.eqb (e_sub e) "") eqn:E.
  - left. split; [apply eqb_true, E | apply Hs].
  - right. tauto.
Qed.

(** The lines of one entry leave its key pending with the written value. *)
Lemma merge_entry (location fileVersion : string) (dv : bool) (st : merge_state)
    (sp : gmap string Option * gmap string (gmap string Option)) (e : entry) (rest : list string) :
  entry_fits sp e ->
  snd (flush location fileVersion dv st) = None ->
  entry_key (e_sub e) (e_key e) ∉ ms_keys st ->
  merge_lines location fileVersion dv st (entry_lines e ++ rest) =
  merge_lines location fileVersion dv
    (mkMS (fst (flush location fileVersion dv st)) ({[entry_key (e_sub e) (e_key e)]} ∪ ms_keys st)
          (value_text (e_opt e) (e_val e)) (e_key e) (e_sub e)) rest.
Proof.
  intros Hfit Hf Hnotin.
  pose proof (entry_fits_sub sp e Hfit) as Hsub.
  destruct Hfit as (Hv & Hr & Hk & _).
  destruct (value_text_ok (e_opt e) (e_val e) Hv Hr) as (v0 & vs & Es & Hl0 & Hvs & _ & _).
  unfold entry_lines. rewrite Es. cbn [List.app].
  rewrite merge_comment by reflexivity.
  rewrite <- app_assoc, merge_comments by apply help_comments.
  cbn [List.app]. rewrite merge_dollar by assumption.
  rewrite merge_value_lines by exact Hvs.
  rewrite <- Join_prefix_lines, <- Es, Join_Split. reflexivity.
Qed.

(** Setting a pending entry: no error, the specs stay, and the value is
    stored under its option in its namespace. *)
Lemma flush_entry (location fileVersion : string) (dv : bool) (cfg : Config)
    (keys : gset string) (e : entry) :
  entry_fits (shape cfg) e ->
  let r := flush location fileVersion dv
             (mkMS cfg keys (value_text (e_opt e) (e_val e)) (e_key e) (e_sub e)) in
  snd r = None /\ shape (fst r) = shape cfg /\
  view (fst r) = alter (<[e_key e := e_val e]>) (e_sub e) (view cfg).
Proof.
  intros Hfit. destruct e as [sub k o v].
  destruct Hfit as (Hv & Hr & Hk & Hsp). cbn [e_sub e_key e_opt e_val] in *.
  destruct (value_text_ok o v Hv Hr) as (_ & _ & _ & _ & _ & Hne & Hconv).
  unfold flush, setValue. cbn [ms_key ms_cfg ms_valBuf ms_subcommand].
  replace (String.eqb k "") with false
    by (symmetry; apply String.eqb_neq, ValidateName_not_empty, Hk).
  replace (String.eqb (TrimSpace (value_text o v)) "") with false
    by (symmetry; apply String.eqb_neq, Hne).
  destruct (String.eqb sub "") eqn:Es.
  - apply eqb_true in Es. subst sub. destruct Hsp as [_ Hsp]. cbn [shape fst snd] in Hsp |- *.
    unfold set. rewrite Hk, Hsp, Hconv. cbn [fst snd].
    split; [reflexivity|]. split; [reflexivity|].
    unfold view. cbn [node subcommands with_node with_values_locations values].
    rewrite alter_insert_eq. reflexivity.
  - destruct Hsp as (Hsv & _ & Hsp). cbn [shape fst snd] in Hsp.
    rewrite lookup_fmap in Hsp.
    destruct (subcommands cfg !! sub) as [s|] eqn:Hs; cbn in Hsp; [|discriminate].
    unfold set. rewrite Hk, Hsp, Hconv. cbn [fst snd].
    split; [reflexivity|]. split.
    + unfold shape. cbn [node subcommands with_sub]. f_equal.
      rewrite fmap_insert. apply insert_id. rewrite lookup_fmap, Hs. reflexivity.
    + unfold view. cbn [node subcommands with_sub with_values_locations values].
      assert (Hne' : sub <> ""%string) by (apply String.eqb_neq, Es).
      rewrite alter_insert_ne by exact Hne'. f_equal.
      apply map_eq. intros j. rewrite lookup_fmap.
      destruct (decide (j = sub)) as [-> | Hj].
      * rewrite lookup_insert_eq, lookup_alter_eq, lookup_fmap, Hs. reflexivity.
      * rewrite lookup_insert_ne, lookup_alter_ne, lookup_fmap by congruence. reflexivity.
Qed.

Lemma item_entries_comment (l : string) (its : list item) :
  item_entries (IComment l :: its) = item_entries its.
Proof. reflexivity. Qed.

Lemma item_entries_entry (e : entry) (its : list item) :
  item_entries (IEntry e :: its) = e :: item_entries its.
Proof. reflexivity. Qed.

Lemma merge_lines_end (location fileVersion : string) (dv : bool) (st : merge_state) :
  merge_lines location fileVersion dv st [] = (fst (flush location fileVersion dv st), None).
Proof. unfold flush. cbn [merge_lines]. destruct (String.eqb (ms_key st) ""); reflexivity. Qed.

(** The items of the written file, read one after another. *)
Lemma merge_items (location fileVersion : string) (dv : bool)
    (sp : gmap string Option * gmap string (gmap string Option)) (its : list item) :
  forall st : merge_state,
  shape (fst (flush location fileVersion dv st)) = sp ->
  snd (flush location fileVersion dv st) = None ->
  Forall (item_fits sp) its ->
  NoDup (map (fun e => entry_key (e_sub e) (e_key e)) (item_entries its)) ->
  (forall e, In e (item_entries its) -> entry_key (e_sub e) (e_key e) ∉ ms_keys st) ->
  exists cfg', merge_lines location fileVersion dv st (concat (map item_lines its)) = (cfg', None) /\
    shape cfg' = sp /\
    view cfg' = fold_left (fun V e => alter (<[e_key e := e_val e]>) (e_sub e) V)
                          (item_entries its) (view (fst (flush location fileVersion dv st))).
Proof.
  induction its as [|it its IH]; intros st Hsh Hf Hits Hnd Hkeys.
  - exists (fst (flush location fileVersion dv st)).
    split; [apply merge_lines_end|]. split; [exact Hsh | reflexivity].
  - apply Forall_cons in Hits as [Hit Hrest].
    destruct it as [l|e]; cbn [map concat item_lines item_fits] in Hit |- *.
    + rewrite item_entries_comment in Hnd, Hkeys |- *. cbn [List.app]. rewrite merge_comment by exact Hit. apply IH; assumption.
    + rewrite item_entries_entry in Hnd, Hkeys |- *.
      cbn [map] in Hnd. apply NoDup_cons in Hnd as [Hnin Hnd'].
      rewrite merge_entry with (sp := sp) by
        (exact Hit || exact Hf || (apply Hkeys; left; reflexivity)).
      rewrite <- Hsh in Hit.
      destruct (flush_entry location fileVersion dv (fst (flush location fileVersion dv st))
                  ({[entry_key (e_sub e) (e_key e)]} ∪ ms_keys st) e Hit) as (Hf' & Hsh' & Hv').
      destruct (IH (mkMS (fst (flush location fileVersion dv st))
                      ({[entry_key (e_sub e) (e_key e)]} ∪ ms_keys st)
                      (value_text (e_opt e) (e_val e)) (e_key e) (e_sub e)))
        as (cfg' & Hm & Hs & Hv); [rewrite Hsh'; exact Hsh | exact Hf' | exact Hrest | exact Hnd' | |].
      * intros e' He'. cbn [ms_keys]. rewrite not_elem_of_union, not_elem_of_singleton.
        split.
        -- intros Heq. apply Hnin. rewrite <- Heq.
           apply list_elem_of_In.
           exact (in_map (fun e => entry_key (e_sub e) (e_key e)) _ _ He').
        -- apply Hkeys. right. exact He'.
      * exists cfg'. split; [exact Hm|]. split; [exact Hs|].
        rewrite Hv, Hv'. reflexivity.
Qed.

(** ** From the entries back to the value maps *)

Lemma lookup_fold_alter (es : list entry) :
  forall (V0 : gmap string (gmap string Value)) (n : string),
  fold_left (fun V e => alter (<[e_key e := e_val e]>) (e_sub e) V) es V0 !! n =
  (fun x => fold_left (fun x e => <[e_key e := e_val e]> x)
                      (List.filter (fun e => String.eqb (e_sub e) n) es) x) <$> V0 !! n.
Proof.
  induction es as [|e es IH]; intros V0 n; cbn [fold_left List.filter].
  - destruct (V0 !! n); reflexivity.
  - rewrite IH. destruct (String.eqb (e_sub e) n) eqn:E.
    + apply eqb_true in E. subst n. rewrite lookup_alter_eq.
      destruct (V0 !! e_sub e); reflexivity.
    + rewrite lookup_alter_ne by (apply String.eqb_neq, E). reflexivity.
Qed.

Lemma fold_insert_list (l : list (string * Value)) :
  forall m0 : gmap string Value,
  NoDup l.*1 ->
  fold_left (fun x kv => <[kv.1 := kv.2]> x) l m0 = list_to_map l ∪ m0.
Proof.
  induction l as [|[k v] l IH]; intros m0 Hnd; cbn [fold_left fst snd].
  - rewrite list_to_map_nil. symmetry. apply map_empty_union.
  - cbn in Hnd. apply NoDup_cons in Hnd as [Hk Hnd].
    rewrite IH by exact Hnd. rewrite list_to_map_cons.
    rewrite <- insert_union_l. rewrite insert_union_r; [reflexivity|].
    apply not_elem_of_list_to_map_1, Hk.
Qed.

Lemma node_entries_cons (sub : string) (n : Node) (kv : string * Value) (l : list (string * Value)) :
  flat_map (fun kv => match spec n !! kv.1 with
                      | Some o => [mkEntry sub kv.1 o kv.2]
                      | None => []
                      end) (kv :: l) =
  match spec n !! kv.1 with Some o => [mkEntry sub kv.1 o kv.2] | None => [] end ++
  flat_map (fun kv => match spec n !! kv.1 with
                      | Some o => [mkEntry sub kv.1 o kv.2]
                      | None => []
                      end) l.
Proof. reflexivity. Qed.

(** The entries written for a node: one per value, in the order of
    [map_to_list]. *)
Lemma node_entries_kv (sub : string) (n : Node) :
  values_typed n ->
  map (fun e => (e_key e, e_val e)) (node_entries sub n) = map_to_list (values n) /\
  Forall (fun e => e_sub e = sub /\ spec n !! e_key e = Some (e_opt e) /\
                   values n !! e_key e = Some (e_val e)) (node_entries sub n).
Proof.
  intros Hn. apply map_Forall_to_list in Hn. unfold node_entries.
  pose proof (fun kv (H : kv ∈ map_to_list (values n)) => proj1 (elem_of_map_to_list' (values n) kv) H)
    as Hin.
  induction (map_to_list (values n)) as [|[k v] l IH]; [split; [reflexivity | constructor]|].
  apply Forall_cons in Hn as [(o & Ho & _) Hn]. cbn [fst snd] in Ho.
  destruct IH as [IH1 IH2]; [exact Hn | intros kv Hkv; apply Hin; right; exact Hkv|].
  rewrite node_entries_cons. cbn [fst snd]. rewrite Ho. cbn [List.app map].
  split; [rewrite IH1; reflexivity|].
  constructor; [|exact IH2]. cbn [e_sub e_key e_opt e_val].
  split; [reflexivity|]. split; [exact Ho|].
  apply (Hin (k, v)). left.
Qed.

Lemma fold_entries_kv (es : list entry) :
  forall m : gmap string Value,
  fold_left (fun x e => <[e_key e := e_val e]> x) es m =
  fold_left (fun x kv => <[kv.1 := kv.2]> x) (map (fun e => (e_key e, e_val e)) es) m.
Proof. induction es as [|e es IH]; intros m; [reflexivity|]. apply IH. Qed.

(** Setting the entries of a node one after another rebuilds its values. *)
Lemma fold_node_entries (sub : string) (n : Node) :
  values_typed n ->
  fold_left (fun x e => <[e_key e := e_val e]> x) (node_entries sub n) ∅ = values n.
Proof.
  intros Hn. rewrite fold_entries_kv, (proj1 (node_entries_kv sub n Hn)).
  rewrite fold_insert_list by apply NoDup_fst_map_to_list.
  rewrite list_to_map_to_list. apply map_union_empty.
Qed.

Lemma filter_all_true {A} (p : A -> bool) (l : list A) :
  Forall (fun x => p x = true) l -> List.filter p l = l.
Proof. induction 1 as [|x l Hx _ IH]; cbn; [reflexivity|]. rewrite Hx, IH. reflexivity. Qed.

Lemma filter_all_false {A} (p : A -> bool) (l : list A) :
  Forall (fun x => p x = false) l -> List.filter p l = [].
Proof. induction 1 as [|x l Hx _ IH]; cbn; [reflexivity|]. rewrite Hx, IH. reflexivity. Qed.

Lemma filter_concat {A} (p : A -> bool) (ls : list (list A)) :
  List.filter p (concat ls) = concat (map (List.filter p) ls).
Proof.
  induction ls as [|l ls IH]; cbn [concat map]; [reflexivity|].
  rewrite List.filter_app, IH. reflexivity.
Qed.

Lemma item_entries_app (a b : list item) :
  item_entries (a ++ b) = item_entries a ++ item_entries b.
Proof. unfold item_entries. rewrite map_app, concat_app. reflexivity. Qed.

Lemma item_entries_IEntry (es : list entry) : item_entries (map IEntry es) = es.
Proof.
  induction es as [|e es IH]; [reflexivity|].
  cbn [map]. rewrite item_entries_entry, IH. reflexivity.
Qed.

(** The entries of the written file: the root node's, then each
    subcommand's. *)
Lemma item_entries_config (c : Config) :
  item_entries (config_items c) =
  node_entries "" (node c) ++
  concat (map (fun ns => node_entries (subName ns.2) ns.2) (map_to_list (subcommands c))).
Proof.
  unfold config_items. rewrite item_entries_app, item_entries_IEntry. f_equal.
  induction (map_to_list (subcommands c)) as [|ns l IH]; [reflexivity|].
  cbn [map concat]. rewrite !item_entries_app, item_entries_IEntry, IH. reflexivity.
Qed.

Lemma filter_map_to_list (m : gmap string Node) (n : string) :
  List.filter (fun ns => String.eqb ns.1 n) (map_to_list m) =
  match m !! n with Some s => [(n, s)] | None => [] end.
Proof.
  assert (Hin : forall x, In x (List.filter (fun ns => String.eqb ns.1 n) (map_to_list m)) <->
                          x.1 = n /\ m !! n = Some x.2).
  { intros [k s]. rewrite List.filter_In. cbn [fst snd].
    rewrite <- list_elem_of_In, elem_of_map_to_list. split.
    - intros [Hk E]. apply eqb_true in E. subst k. tauto.
    - intros [-> Hk]. split; [exact Hk | apply String.eqb_refl]. }
  assert (Hnd : NoDup (List.filter (fun ns => String.eqb ns.1 n) (map_to_list m)))
    by (apply NoDup_ListNoDup, List.NoDup_filter, NoDup_ListNoDup, NoDup_map_to_list).
  destruct (List.filter (fun ns => String.eqb ns.1 n) (map_to_list m)) as [|x [|y l]].
  - destruct (m !! n) as [s|] eqn:E; [|reflexivity].
    exfalso. apply (proj2 (Hin (n, s))). split; reflexivity.
  - destruct (proj1 (Hin x) (or_introl eq_refl)) as [Hx E]. rewrite E.
    destruct x as [k s]. cbn in Hx. subst k. reflexivity.
  - exfalso.
    destruct (proj1 (Hin x) (or_introl eq_refl)) as [Hx Ex].
    destruct (proj1 (Hin y) (or_intror (or_introl eq_refl))) as [Hy Ey].
    assert (x = y) as <-.
    { destruct x as [kx sx], y as [ky sy]. cbn in *. congruence. }
    apply NoDup_cons in Hnd as [Hn _]. apply Hn. left.
Qed.

(** ** The written keys are distinct *)

Lemma NoDup_map_inv' {A B} (f : A -> B) (l : list A) : NoDup (map f l) -> NoDup l.
Proof.
  induction l as [|x l IH]; cbn [map]; intros Hnd; [constructor|].
  apply NoDup_cons in Hnd as [Hx Hnd]. constructor; [|exact (IH Hnd)].
  intros Hin. apply Hx. apply list_elem_of_In in Hin. apply list_elem_of_In, in_map, Hin.
Qed.

Lemma NoDup_pair_fst {A} (sub : string) (l : list (string * A)) :
  NoDup l.*1 -> NoDup (map (fun kv => (sub, kv.1)) l).
Proof.
  induction l as [|[k v] l IH]; cbn; intros Hnd; [constructor|].
  apply NoDup_cons in Hnd as [Hk Hnd]. constructor; [|exact (IH Hnd)].
  intros Hin. apply Hk. apply list_elem_of_In, in_map_iff in Hin as ([k' v'] & E & Hin).
  cbn in E. injection E as <-. apply list_elem_of_In.
  apply (in_map fst) in Hin. exact Hin.
Qed.


Lemma node_entries_pairs (sub : string) (n : Node) :
  values_typed n ->
  NoDup (map entry_pair (node_entries sub n)) /\
  Forall (fun x => x.1 = sub) (map entry_pair (node_entries sub n)).
Proof.
  intros Hn. destruct (node_entries_kv sub n Hn) as [H1 H2].
  assert (E : map entry_pair (node_entries sub n) =
              map (fun kv => (sub, kv.1)) (map (fun e => (e_key e, e_val e)) (node_entries sub n))).
  { rewrite map_map. apply map_ext_in. intros e He.
    apply list_elem_of_In, (proj1 (Forall_forall _ _) H2 e) in He. unfold entry_pair.
    rewrite (proj1 He). reflexivity. }
  rewrite E, H1. split.
  - apply NoDup_pair_fst, NoDup_fst_map_to_list.
  - apply Forall_forall. intros x Hx. apply list_elem_of_In, in_map_iff in Hx as (kv & <- & _).
    reflexivity.
Qed.

Lemma blocks_pairs (l : list (string * Node)) :
  NoDup l.*1 ->
  Forall (fun ns => subName ns.2 = ns.1 /\ values_typed ns.2) l ->
  NoDup (map entry_pair (concat (map (fun ns => node_entries (subName ns.2) ns.2) l))) /\
  (forall x, In x (map entry_pair (concat (map (fun ns => node_entries (subName ns.2) ns.2) l))) ->
             In x.1 (map fst l)).
Proof.
  induction l as [|ns l IH]; intros Hnd Hl.
  - split; [constructor | intros x []].
  - cbn in Hnd. apply NoDup_cons in Hnd as [Hns Hnd].
    apply Forall_cons in Hl as [[Hsub Ht] Hl].
    destruct (IH Hnd Hl) as [IH1 IH2].
    destruct (node_entries_pairs (subName ns.2) ns.2 Ht) as [P1 P2].
    cbn [map concat]. rewrite map_app. split.
    + apply NoDup_app. split; [exact P1|]. split; [|exact IH1].
      intros x Hx1 Hx2. apply list_elem_of_In in Hx2.
      pose proof (proj1 (Forall_forall _ _) P2 x Hx1) as Ex. cbn beta in Ex.
      apply Hns. apply list_elem_of_In. rewrite <- Hsub, <- Ex. exact (IH2 x Hx2).
    + intros x Hx. apply in_app_or in Hx as [Hx|Hx].
      * left. apply list_elem_of_In in Hx.
        pose proof (proj1 (Forall_forall _ _) P2 x Hx) as Ex. cbn beta in Ex.
        rewrite Ex. symmetry. exact Hsub.
      * right. exact (IH2 x Hx).
Qed.

(** Written keys determine the namespace and the option name. *)
Lemma entry_keys_NoDup (sp : gmap string Option * gmap string (gmap string Option))
    (es : list entry) :
  Forall (entry_fits sp) es -> NoDup (map entry_pair es) ->
  NoDup (map (fun e => entry_key (e_sub e) (e_key e)) es).
Proof.
  intros Hfit Hnd.
  apply (NoDup_map_inv' (fun w =>
           if 0 <? Index "_" w then (slice 0 (Index "_" w) w, from (Index "_" w + 1) w)
           else (""%string, w))).
  rewrite map_map. replace (map _ es) with (map entry_pair es); [exact Hnd|].
  apply map_ext_in. intros e He. symmetry.
  apply list_elem_of_In, (proj1 (Forall_forall _ _) Hfit) in He.
  unfold entry_pair. apply split_entry_key.
  destruct (entry_fits_sub sp e He) as [H | [H1 H2]]; [left; exact H|].
  right. split; [exact H2 | apply ValidateName_not_empty, H1].
Qed.

Lemma sub_node_names (a name : string) (s : Node) :
  Contains "_" a = false -> app s = (a ++ "_" ++ name)%string ->
  isSub s = true /\ subName s = name.
Proof.
  intros Ha Hs. unfold subName, isSub. rewrite Hs.
  change ("_" ++ name)%string with (String "_" name).
  rewrite Index_app_absent by (apply Index_absent, Ha).
  replace (len a =? -1) with false by (symmetry; apply Z.eqb_neq; unfold len; lia).
  split; [reflexivity|]. cbn [negb].
  replace (a ++ String "_" name)%string with ((a ++ "_") ++ name)%string
    by (rewrite str_app_assoc; reflexivity).
  replace (len a + 1) with (len (a ++ "_")%string)
    by (unfold len; rewrite str_length_app; cbn [String.length]; lia).
  apply from_len_app.
Qed.

Lemma root_node_name (n : Node) :
  Contains "_" (app n) = false -> isSub n = false /\ appName n = app n.
Proof.
  intros Ha. unfold appName, isSub. rewrite Index_absent by exact Ha. split; reflexivity.
Qed.

Lemma entries_ok_typed (n : Node) : entries_ok n -> values_typed n.
Proof.
  intros Hn. eapply map_Forall_impl; [exact Hn|]. intros k v [_ (o & Ho & Hv & _)]. exists o. split; assumption.
Qed.

(** ** The lines of the written file *)

Lemma Type_no_NL (o : Option) (v : Value) :
  ValidateValue o (Some v) = None -> Contains NL (Type_ o) = false.
Proof.
  unfold ValidateValue. destruct v;
  repeat match goal with |- context [String.eqb (Type_ o) ?t] =>
           destruct (String.eqb (Type_ o) t) eqn:? end;
  cbn; intros H; try discriminate;
  match goal with E : String.eqb (Type_ o) _ = true |- _ =>
    apply eqb_true in E; rewrite E; reflexivity end.
Qed.

Lemma entry_lines_ok (sp : gmap string Option * gmap string (gmap string Option)) (e : entry) :
  entry_fits sp e -> Forall (fun l => Contains NL l = false /\ l <> ""%string) (entry_lines e).
Proof.
  intros Hfit. pose proof (entry_fits_sub sp e Hfit) as Hsub.
  destruct Hfit as (Hv & Hr & Hk & _).
  assert (Hwk : Contains NL (entry_key (e_sub e) (e_key e)) = false).
  { apply entry_key_no; [reflexivity | exact Hk |].
    destruct Hsub as [[H _]|[H _]]; [left|right]; exact H. }
  destruct (value_text_ok _ _ Hv Hr) as (v0 & vs & Es & _ & Hvs & _ & _).
  pose proof (Split_parts NL (value_text (e_opt e) (e_val e))) as Hparts.
  rewrite Es in Hparts. apply Forall_cons in Hparts as [Hv0 Hps].
  unfold entry_lines. rewrite Es. constructor.
  { split; [|discriminate]. rewrite !Contains_app, Hwk, (Type_no_NL _ _ Hv). reflexivity. }
  apply Forall_app. split.
  - apply Forall_forall. intros l Hl. apply list_elem_of_In, in_map_iff in Hl as (h & <- & Hh).
    apply in_map_iff in Hh as (h' & <- & Hh').
    split; [|discriminate]. rewrite Contains_app, Contains_TrimSpace; [reflexivity|].
    apply (proj1 (Forall_forall _ _) (Split_parts NL (Help (e_opt e))) h').
    apply list_elem_of_In, Hh'.
  - constructor.
    + split; [|discriminate]. rewrite !Contains_app, Hwk, Hv0. reflexivity.
    + apply Forall_forall. intros l Hl. split; [exact (proj1 (Forall_forall _ _) Hps l Hl)|].
      intros ->. pose proof (proj1 (Forall_forall _ _) Hvs "" Hl). discriminate.
Qed.

Lemma items_lines_ok (sp : gmap string Option * gmap string (gmap string Option)) (its : list item) :
  Forall (fun it => match it with
                    | IComment l => Contains NL l = false /\ l <> ""%string
                    | IEntry e => entry_fits sp e
                    end) its ->
  Forall (fun l => Contains NL l = false /\ l <> ""%string) (concat (map item_lines its)).
Proof.
  induction 1 as [|it its Hit _ IH]; cbn [map concat]; [constructor|].
  apply Forall_app. split; [|exact IH].
  destruct it as [l|e]; cbn [item_lines]; [constructor; [exact Hit | constructor]|].
  apply (entry_lines_ok sp e Hit).
Qed.

Lemma node_entries_fit (sp : gmap string Option * gmap string (gmap string Option))
    (sub : string) (n : Node) :
  entries_ok n ->
  (forall k o v, spec n !! k = Some o -> values n !! k = Some v ->
     if String.eqb sub "" then Contains "_" k = false /\ sp.1 !! k = Some o
     else ValidateName sub = None /\ Contains "_" sub = false /\ (sp.2 !! sub ≫= lookup k) = Some o) ->
  Forall (entry_fits sp) (node_entries sub n).
Proof.
  intros Hok Hc. destruct (node_entries_kv sub n (entries_ok_typed n Hok)) as [_ H2].
  eapply Forall_impl; [exact H2|]. intros e (Hs & Ho & Hv).
  destruct (Hok _ _ Hv) as (Hk & o & Ho' & Hvv & Hr).
  assert (o = e_opt e) by congruence. subst o.
  unfold entry_fits. rewrite Hs. split; [exact Hvv|]. split; [exact Hr|]. split; [exact Hk|].
  apply (Hc _ _ _ Ho Hv).
Qed.

Lemma Forall_IEntry (P : item -> Prop) (es : list entry) :
  Forall (fun e => P (IEntry e)) es -> Forall P (map IEntry es).
Proof. induction 1; constructor; assumption. Qed.

(** Every item of the written file fits the specs of the configuration,
    and its comment lines are single non-empty lines. *)
Lemma config_items_fit (c : Config) :
  entries_ok (node c) ->
  map_Forall (fun k _ => Contains "_" k = false) (values (node c)) ->
  map_Forall (fun name s => ValidateName name = None /\ Contains "_" name = false /\
                            subName s = name /\ entries_ok s) (subcommands c) ->
  Forall (fun it => item_fits (shape (fresh_config c)) it /\
                    match it with
                    | IComment l => Contains NL l = false /\ l <> ""%string
                    | IEntry e => entry_fits (shape (fresh_config c)) e
                    end) (config_items c).
Proof.
  intros Hr Hr_ Hs. set (sp := shape (fresh_config c)).
  assert (Hent : forall sub n, Forall (entry_fits sp) (node_entries sub n) ->
            Forall (fun it => item_fits sp it /\
                    match it with
                    | IComment l => Contains NL l = false /\ l <> ""%string
                    | IEntry e => entry_fits sp e
                    end) (map IEntry (node_entries sub n))).
  { intros sub n H. apply Forall_IEntry. eapply Forall_impl; [exact H|].
    intros e He. split; exact He. }
  unfold config_items. apply Forall_app. split.
  - apply Hent, node_entries_fit; [exact Hr|]. intros k o v Ho Hv.
    split; [exact (Hr_ k v Hv) | exact Ho].
  - assert (Hl : forall ns, In ns (map_to_list (subcommands c)) -> subcommands c !! ns.1 = Some ns.2).
    { intros [k s] H. apply elem_of_map_to_list, list_elem_of_In, H. }
    revert Hl. induction (map_to_list (subcommands c)) as [|[name s] l IH]; intros Hl;
      cbn [map concat]; [constructor|].
    pose proof (Hl (name, s) (or_introl eq_refl)) as Hns. cbn [fst snd] in Hns.
    destruct (Hs name s Hns) as (Hn & Hn_ & Hsub & Hok).
    cbn [fst snd]. rewrite Hsub. apply Forall_app. split.
    + apply Forall_app. split.
      * unfold sub_banner. constructor; [|constructor; [|constructor]]; cbn [item_fits].
        -- split; [reflexivity|]. split; [|discriminate].
           rewrite !Contains_app, (name_no NL name Hn) by reflexivity. reflexivity.
        -- split; [reflexivity|]. split; [reflexivity | discriminate].
      * apply Hent, node_entries_fit; [exact Hok|]. intros k o v Ho Hv.
        destruct (String.eqb name "") eqn:E.
        { apply eqb_true in E. exfalso. exact (ValidateName_not_empty _ Hn E). }
        split; [exact Hn|]. split; [exact Hn_|].
        unfold sp, shape, fresh_config. cbn [snd subcommands].
        rewrite !lookup_fmap, Hns. exact Ho.
    + apply IH. intros ns H. apply Hl. right. exact H.
Qed.

Lemma item_entries_fits (sp : gmap string Option * gmap string (gmap string Option)) (its : list item) :
  Forall (item_fits sp) its -> Forall (entry_fits sp) (item_entries its).
Proof.
  induction 1 as [|it its Hit _ IH]; [constructor|].
  destruct it as [l|e]; [rewrite item_entries_comment; exact IH|].
  rewrite item_entries_entry. constructor; assumption.
Qed.

Lemma preamble_ok (a v : string) :
  Contains NL a = false -> Contains NL v = false ->
  Forall (fun l => Contains NL l = false /\ l <> ""%string) (preamble_lines a v) /\
  Forall (fun l => HasPrefix l "#" = true) (preamble_lines a v).
Proof.
  intros Ha Hv. unfold preamble_lines.
  split; repeat (apply List.Forall_cons || apply List.Forall_nil);
    try reflexivity; (split; [|discriminate]);
    try reflexivity; rewrite !Contains_app, ?Ha, ?Hv; reflexivity.
Qed.

(** The entries of the written file, by namespace. *)
Lemma config_pairs_NoDup (c : Config) :
  values_typed (node c) ->
  map_Forall (fun name s => ValidateName name = None /\ subName s = name /\ values_typed s)
             (subcommands c) ->
  NoDup (map entry_pair (item_entries (config_items c))).
Proof.
  intros Hr Hs. rewrite item_entries_config, map_app.
  destruct (node_entries_pairs "" (node c) Hr) as [R1 R2].
  destruct (blocks_pairs (map_to_list (subcommands c))) as [B1 B2].
  { apply NoDup_fst_map_to_list. }
  { apply Forall_forall. intros [k s] Hk. apply elem_of_map_to_list in Hk.
    destruct (Hs k s Hk) as (_ & H1 & H2). split; assumption. }
  apply NoDup_app. split; [exact R1|]. split; [|exact B1].
  intros x Hx1 Hx2. apply list_elem_of_In in Hx2.
  pose proof (proj1 (Forall_forall _ _) R2 x Hx1) as Ex. cbn beta in Ex.
  apply B2 in Hx2. apply in_map_iff in Hx2 as ([k s] & Hk & Hin). cbn [fst] in Hk.
  apply list_elem_of_In, elem_of_map_to_list in Hin.
  destruct (Hs k s Hin) as (Hn & _ & _). apply (ValidateName_not_empty k Hn). congruence.
Qed.

Lemma filter_blocks (l : list (string * Node)) (n : string) :
  Forall (fun ns => subName ns.2 = ns.1 /\ values_typed ns.2) l ->
  List.filter (fun e => String.eqb (e_sub e) n)
              (concat (map (fun ns => node_entries (subName ns.2) ns.2) l)) =
  concat (map (fun ns => node_entries (subName ns.2) ns.2)
              (List.filter (fun ns => String.eqb ns.1 n) l)).
Proof.
  induction 1 as [|ns l [Hsub Ht] _ IH]; [reflexivity|].
  cbn [map concat List.filter]. rewrite List.filter_app, IH.
  pose proof (proj2 (node_entries_kv (subName ns.2) ns.2 Ht)) as Hes.
  destruct (String.eqb ns.1 n) eqn:E.
  - rewrite filter_all_true; [reflexivity|].
    eapply Forall_impl; [exact Hes|]. intros e [He _]. rewrite He, Hsub. exact E.
  - rewrite filter_all_false; [reflexivity|].
    eapply Forall_impl; [exact Hes|]. intros e [He _]. rewrite He, Hsub. exact E.
Qed.

Lemma flush_start (location fileVersion : string) (dv : bool) (cfg : Config) :
  flush location fileVersion dv (mkMS cfg ∅ "" "" "") = (cfg, None).
Proof. reflexivity. Qed.

Lemma shape_fresh (c : Config) : shape (fresh_config c) = shape c.
Proof.
  unfold shape, fresh_config. cbn [node subcommands]. f_equal.
  apply map_eq. intros n. rewrite !lookup_fmap. destruct (subcommands c !! n); reflexivity.
Qed.

(** The round trip of [WriteConfigFile] and [Merge].  Let the parent
    directory check, the opening and every write of the file succeed.  Let
    the root app name be a valid name without [_] and its version valid;
    let the root have at least one value; let every value have a valid
    name, a spec it passes and read back as itself ([entries_ok], e.g. no
    string value of one byte or with edge spaces, no integer 0..9), and the
    root's option names have no [_]; let every subcommand be stored under a
    valid name without [_] with app name [app_name].  Then
    [WriteConfigFile] writes a text and returns no error, and if its lines
    fit the scanner, merging it into a fresh configuration with the same
    app, version, specs and subcommands returns no error and gives the same
    values in every namespace ([view]) and the same specs ([shape]). *)
Theorem WriteConfigFile_Merge_roundtrip (fs : fs_answers) (c : Config) (path : string)
    (old : option string) (location : string) :
  dir_check fs path = None -> fs_open fs = None -> (forall k, fs_write fs k = None) ->
  ValidateName (app (node c)) = None -> Contains "_" (app (node c)) = false ->
  ValidateVersion (version (node c)) = None ->
  values (node c) <> ∅ -> entries_ok (node c) ->
  map_Forall (fun k _ => Contains "_" k = false) (values (node c)) ->
  map_Forall (fun name s => ValidateName name = None /\ Contains "_" name = false /\
                            app s = (app (node c) ++ "_" ++ name)%string /\ entries_ok s)
             (subcommands c) ->
  exists text, WriteConfigFile fs c path old = (Some text, WDone) /\
    (lines_fit text ->
     exists c', Merge (fresh_config c) text location = (c', None) /\
                view c' = view c /\ shape c' = shape c).
Proof.
  intros Hd Ho Hw HA HA_ HV Hne Hroot Hroot_ Hsubs.
  set (a := app (node c)) in *. set (v := version (node c)) in *.
  assert (Hsubs2 : map_Forall (fun name s => ValidateName name = None /\ Contains "_" name = false /\
                                             subName s = name /\ entries_ok s) (subcommands c)).
  { intros name s Hs. destruct (Hsubs name s Hs) as (H1 & H2 & H3 & H4).
    destruct (sub_node_names a name s HA_ H3) as [_ H5]. tauto. }
  destruct (root_node_name (node c) HA_) as [Hnot_sub Happ].
  rewrite WriteConfigFile_text.
  2: exact Hd.
  2: exact Ho.
  2: exact Hw.
  2: exact Hnot_sub.
  2: exact (entries_ok_typed _ Hroot).
  2: exact Hne.
  2: { intros name s Hs. destruct (Hsubs name s Hs) as (H1 & H2 & H3 & H4).
       destruct (sub_node_names a name s HA_ H3) as [H5 H6].
       split; [exact H5|]. split; [rewrite H6; apply ValidateName_not_empty, H1|].
       apply entries_ok_typed, H4. }
  eexists. split; [reflexivity|]. intros Hfit.
  change (app (node c)) with a in Hfit |- *. change (version (node c)) with v in Hfit |- *.
  set (sp := shape (fresh_config c)).
  pose proof (config_items_fit c Hroot Hroot_ Hsubs2) as Hgood.
  assert (Hfits : Forall (item_fits sp) (config_items c))
    by (eapply Forall_impl; [exact Hgood|]; intros it [H _]; exact H).
  assert (Hlines : Forall (fun l => Contains NL l = false /\ l <> ""%string)
                          (concat (map item_lines (config_items c))))
    by (apply (items_lines_ok sp); eapply Forall_impl; [exact Hgood|]; intros it [_ H]; exact H).
  assert (HaNL : Contains NL a = false) by (apply name_no; [exact HA | reflexivity]).
  assert (HvNL : Contains NL v = false) by (apply version_no; [exact HV | reflexivity]).
  destruct (preamble_ok a v HaNL HvNL) as [Hpre Hpre'].
  unfold Merge. rewrite ScanLines_Join; [| discriminate | | exact Hfit].
  2: { constructor.
       - split.
         + rewrite !Contains_app, HaNL, HvNL. reflexivity.
         + intros E. apply (f_equal String.length) in E.
           rewrite !str_length_app in E. cbn [String.length] in E. lia.
       - apply Forall_app. split; [exact Hpre | exact Hlines]. }
  rewrite Split_header.
  2: { apply name_no; [exact HA | reflexivity]. }
  2: { apply version_no; [exact HV | reflexivity]. }
  change (node (fresh_config c)) with (Reset_node (node c)).
  destruct (root_node_name (Reset_node (node c)) HA_) as [_ Happ'].
  rewrite Happ'. cbn [Reset_node with_values_locations app version].
  fold a v. rewrite !String.eqb_refl. cbn [negb].
  rewrite merge_comments by exact Hpre'.
  destruct (merge_items location v false sp (config_items c) (mkMS (fresh_config c) ∅ "" "" ""))
    as (cfg' & Hm & Hsh & Hv).
  { rewrite flush_start. reflexivity. }
  { rewrite flush_start. reflexivity. }
  { exact Hfits. }
  { apply (entry_keys_NoDup sp); [apply item_entries_fits, Hfits|].
    apply config_pairs_NoDup; [exact (entries_ok_typed _ Hroot)|].
    intros name s Hs. destruct (Hsubs2 name s Hs) as (H1 & _ & H3 & H4).
    split; [exact H1|]. split; [exact H3 | apply entries_ok_typed, H4]. }
  { intros e _. apply not_elem_of_empty. }
  exists cfg'. split; [exact Hm|]. split; [|rewrite Hsh; apply shape_fresh].
  rewrite flush_start in Hv. rewrite Hv. cbn [fst].
  assert (Hblocks : Forall (fun ns => subName ns.2 = ns.1 /\ values_typed ns.2)
                           (map_to_list (subcommands c))).
  { apply Forall_forall. intros [k s] Hk. apply elem_of_map_to_list in Hk.
    destruct (Hsubs2 k s Hk) as (_ & _ & H3 & H4). split; [exact H3 | apply entries_ok_typed, H4]. }
  pose proof (proj2 (node_entries_kv "" (node c) (entries_ok_typed _ Hroot))) as Hres.
  apply map_eq. intros n. rewrite lookup_fold_alter, item_entries_config, List.filter_app,
    filter_blocks, filter_map_to_list by exact Hblocks.
  unfold view, fresh_config. cbn [node subcommands]. destruct (String.eqb "" n) eqn:En.
  - apply eqb_true in En. subst n. rewrite !lookup_insert_eq.
    destruct (subcommands c !! "") as [s|] eqn:Es.
    { exfalso. destruct (Hsubs2 "" s Es) as (H1 & _). discriminate H1. }
    rewrite filter_all_true.
    2: { eapply Forall_impl; [exact Hres|]. intros e [He _]. rewrite He. reflexivity. }
    cbn [map concat fmap option_fmap option_map]. rewrite app_nil_r.
    f_equal. apply fold_node_entries, entries_ok_typed, Hroot.
  - apply String.eqb_neq in En. rewrite !lookup_insert_ne by exact En.
    rewrite filter_all_false.
    2: { eapply Forall_impl; [exact Hres|]. intros e [He _]. rewrite He.
         apply String.eqb_neq, En. }
    rewrite !lookup_fmap. destruct (subcommands c !! n) as [s|] eqn:Es; [|reflexivity].
    cbn [map concat List.app fmap option_fmap option_map snd]. rewrite app_nil_r.
    destruct (Hsubs2 n s Es) as (_ & _ & _ & H4).
    f_equal. apply fold_node_entries, entries_ok_typed, H4.
Qed.
End Roundtrip_facts.

Lemma WriteConfigFile_Merge_roundtrip_witness :
  exists text, WriteConfigFile fs_ok (rt_config 8080) "DEMO.conf" None = (Some text, WDone) /\
  lines_fit text /\
  exists c', Merge (fresh_config (rt_config 8080)) text "DEMO.conf" = (c', None) /\
             view c' = view (rt_config 8080) /\ shape c' = shape (rt_config 8080).
Proof.
  assert (Hok : forall port, -2 ^ 31 <= port < 2 ^ 31 -> ~ (0 <= port <= 9) -> entries_ok (rt_root port)).
  { intros port H1 H2. apply map_Forall_insert_2; [|apply map_Forall_insert_2; [|apply map_Forall_empty]].
    - split; [reflexivity|]. eexists. split; [reflexivity|]. split; [reflexivity|]. split; assumption.
    - split; [reflexivity|]. eexists. split; [reflexivity|]. split; [reflexivity|].
      split; [reflexivity | vm_compute; lia]. }
  destruct (WriteConfigFile_Merge_roundtrip fs_ok (rt_config 8080) "DEMO.conf" None "DEMO.conf")
    as (text & Hw & Hm).
  - reflexivity.
  - reflexivity.
  - reflexivity.
  - reflexivity.
  - reflexivity.
  - reflexivity.
  - intros E. apply (f_equal (fun m : gmap string Value => m !! "PORT"%string)) in E.
    vm_compute in E. discriminate E.
  - apply Hok; lia.
  - apply map_Forall_insert_2; [|apply map_Forall_insert_2; [|apply map_Forall_empty]]; reflexivity.
  - apply map_Forall_singleton. split; [reflexivity|]. split; [reflexivity|]. split; [reflexivity|].
    apply map_Forall_insert_2; [|apply map_Forall_empty].
    split; [reflexivity|]. eexists. split; [reflexivity|]. split; [reflexivity | exact I].
  - exists text. split; [exact Hw|].
    assert (Hfit : lines_fit text).
    { vm_compute in Hw. injection Hw as <-. unfold lines_fit.
      apply (bool_decide_unpack _). vm_compute. reflexivity. }
    split; [exact Hfit | exact (Hm Hfit)].
Defined.

(** Claim C1 (code bug): the one-digit value [PORT = 5] passes
    [ValidateValues] and [WriteConfigFile] writes it as [$PORT=5], but
    [Merge] keeps the text after ["="] only when [idx < len(pair)-2], so
    for a key line of the form [$key=x] it keeps no value text and fails
    with an empty value error. *)
Lemma roundtrip_one_digit_value :
  ValidateValues (node (rt_config 5)) = None /\
  exists text, WriteConfigFile fs_ok (rt_config 5) "DEMO.conf" None = (Some text, WDone) /\
    snd (Merge (fresh_config (rt_config 5)) text "DEMO.conf") = Some (EmptyValueError "PORT").
Proof.
  split; [reflexivity|]. eexists. split; [vm_compute; reflexivity|]. vm_compute. reflexivity.
Qed.

(* ================================================================== *)
(** * More properties of the code *)

Section Extra_facts.
Context {GP : GoPrims}.

(** ** Validation of the stored values *)

Lemma ValidateValues_go_iff (n : Node) (l : list (string * Value)) :
  ValidateValues_go n l = None <->
  Forall (fun kv => exists o, spec n !! kv.1 = Some o /\ ValidateValue o (Some kv.2) = None) l.
Proof.
  induction l as [|[k v] l IH]; cbn [ValidateValues_go].
  - split; [constructor | reflexivity].
  - rewrite Forall_cons. cbn [fst snd].
    destruct (spec n !! k) as [o|] eqn:E; [destruct (ValidateValue o (Some v)) eqn:E2|].
    + split; [discriminate|]. intros [(o' & Ho & Hv) _]. congruence.
    + rewrite IH. split; [intros H; split; [exists o; split; [reflexivity | exact E2] | exact H] | intros [_ H]; exact H].
    + split; [discriminate|]. intros [(o' & Ho & _) _]. congruence.
Qed.

Lemma ValidateValues_iff (n : Node) :
  ValidateValues n = None <->
  map_Forall (fun k v => exists o, spec n !! k = Some o /\ ValidateValue o (Some v) = None) (values n).
Proof.
  unfold ValidateValues. rewrite ValidateValues_go_iff, map_Forall_to_list.
  apply Forall_iff. intros [k v]. reflexivity.
Qed.

(** [ValidateValues] passes exactly when every stored value has a spec
    and passes that spec's [ValidateValue]: the map's iteration order does
    not matter. *)
Theorem ValidateValues_spec (n : Node) :
  ValidateValues n = None <->
  forall k v, values n !! k = Some v ->
    exists o, spec n !! k = Some o /\ ValidateValue o (Some v) = None.
Proof. apply ValidateValues_iff. Qed.

Lemma CheckMissing_go_iff (n : Node) (l : list (string * Option)) :
  CheckMissing_go n l = None <->
  Forall (fun ko => Required ko.2 = true -> Default ko.2 = None -> is_Some (values n !! ko.1)) l.
Proof.
  induction l as [|[k o] l IH]; cbn [CheckMissing_go].
  - split; [constructor | reflexivity].
  - rewrite Forall_cons, <- IH. cbn [fst snd].
    destruct (Required o); cbn [andb]; [|split; [intros H; split; [discriminate | exact H] | tauto]].
    case_bool_decide as HD; cbn [andb]; [case_bool_decide as HV|].
    + split; [discriminate|]. intros [H _]. destruct (H eq_refl HD) as [x Hx]. congruence.
    + split; [intros H; split; [|exact H] | tauto].
      intros _ _. destruct (values n !! k); [eexists; reflexivity | congruence].
    + split; [intros H; split; [|exact H] | tauto]. intros _ HD'. congruence.
Qed.

Lemma CheckMissing_iff (n : Node) :
  CheckMissing n = None <->
  forall k o, spec n !! k = Some o -> Required o = true -> Default o = None -> is_Some (values n !! k).
Proof.
  unfold CheckMissing. rewrite CheckMissing_go_iff.
  change (forall k o, spec n !! k = Some o -> Required o = true -> Default o = None -> is_Some (values n !! k))
    with (map_Forall (fun k o => Required o = true -> Default o = None -> is_Some (values n !! k)) (spec n)).
  rewrite map_Forall_to_list. apply Forall_iff. intros [k o]. reflexivity.
Qed.

(** [CheckMissing] passes exactly when every required option without a
    default has a value: the map's iteration order does not matter. *)
Theorem CheckMissing_spec (n : Node) :
  CheckMissing n = None <->
  forall k o, spec n !! k = Some o -> Required o = true -> Default o = None -> is_Some (values n !! k).
Proof. apply CheckMissing_iff. Qed.

Lemma stringToValue_ValidateValue (o : Option) (s : string) (v : Value) :
  stringToValue (Type_ o) s = Ok v -> ValidateValue o (Some v) = None.
Proof.
  intros H. unfold stringToValue in H. unfold ValidateValue.
  destruct (String.eqb (Type_ o) "bool") eqn:E1.
  { destruct (ParseBool s); inversion H; subst. reflexivity. }
  destruct (String.eqb (Type_ o) "int32") eqn:E2.
  { destruct (ParseInt32 s); inversion H; subst. reflexivity. }
  destruct (String.eqb (Type_ o) "float32") eqn:E3.
  { destruct (ParseFloat32 s); inversion H; subst. reflexivity. }
  destruct (String.eqb (Type_ o) "datetime") eqn:E4.
  { destruct (ParseRFC3339 s); inversion H; subst. reflexivity. }
  destruct (String.eqb (Type_ o) "string") eqn:E5.
  { inversion H; subst. apply eqb_true in E5. rewrite E5. reflexivity. }
  destruct (String.eqb (Type_ o) "json") eqn:E6; [|discriminate].
  destruct (JSONValid s) eqn:J; inversion H; subst.
  cbn. rewrite J. reflexivity.
Qed.

(** Every value [stringToValue] produces for an option's type passes that
    option's [ValidateValue]. *)
Theorem stringToValue_valid (o : Option) (s : string) (v : Value) :
  stringToValue (Type_ o) s = Ok v -> ValidateValue o (Some v) = None.
Proof. apply stringToValue_ValidateValue. Qed.

Lemma set_cases (n : Node) (key val location : string) :
  (exists e, set n key val location = (n, Some e)) \/
  (exists o v, ValidateName key = None /\ spec n !! key = Some o /\
     stringToValue (Type_ o) val = Ok v /\
     set n key val location =
       (with_values_locations n (<[key := v]> (values n))
          (<[key := default [] (locations n !! key) ++ [location]]> (locations n)), None)).
Proof.
  unfold set. destruct (ValidateName key) eqn:E1; [left; eexists; reflexivity|].
  destruct (spec n !! key) as [o|] eqn:E2; [|left; eexists; reflexivity].
  destruct (stringToValue (Type_ o) val) as [v|e] eqn:E3; [|left; eexists; reflexivity].
  right. exists o, v. repeat split; assumption.
Qed.

(** [set] keeps [ValidateValues] passing: it stores only values that pass
    their spec. *)
Theorem set_keeps_ValidateValues (n : Node) (key val location : string) :
  ValidateValues n = None -> ValidateValues (fst (set n key val location)) = None.
Proof.
  intros Hn. destruct (set_cases n key val location) as [[e ->] | (o & v & _ & Ho & Hv & ->)];
    [exact Hn|].
  cbn [fst]. apply ValidateValues_iff. apply ValidateValues_iff in Hn.
  unfold with_values_locations. cbn [values spec].
  apply map_Forall_insert_2; [|exact Hn].
  exists o. split; [exact Ho | apply (stringToValue_ValidateValue o val v Hv)].
Qed.

(** When [set] returns an error, the node is returned as it was: no value
    and no location is added. *)
Theorem set_error_unchanged (n n' : Node) (key val location : string) (e : error) :
  set n key val location = (n', Some e) -> n' = n.
Proof.
  destruct (set_cases n key val location) as [[e' ->] | (o & v & _ & _ & _ & ->)];
    intros H; [congruence | discriminate].
Qed.

End Extra_facts.

Lemma stringToValue_valid_witness :
  stringToValue "int32" "8080" = Ok (VInt32 8080) /\
  ValidateValue port_option (Some (VInt32 8080)) = None.
Proof.
  split; [reflexivity|].
  apply (stringToValue_valid port_option "8080"). vm_compute. reflexivity.
Defined.

Lemma set_keeps_ValidateValues_witness :
  ValidateValues (rt_root 8080) = None /\
  ValidateValues (fst (set (rt_root 8080) "PORT" "9090" "cli")) = None.
Proof.
  split; [vm_compute; reflexivity|].
  apply set_keeps_ValidateValues. vm_compute. reflexivity.
Defined.

Lemma set_error_unchanged_witness :
  set (rt_root 8080) "PORT" "abc" "cli" = (rt_root 8080, Some (InvalidValueError "PORT" "abc")) /\
  fst (set (rt_root 8080) "PORT" "abc" "cli") = rt_root 8080.
Proof.
  split; [vm_compute; reflexivity|].
  apply (set_error_unchanged _ _ "PORT" "abc" "cli" (InvalidValueError "PORT" "abc")).
  vm_compute. reflexivity.
Defined.

Section Extra_facts2.
Context {GP : GoPrims}.

(** *** Integers: [strconv.ParseInt] and [fmt] *)

Lemma ParseInt32_SprintInt32_gen (i : Z) :
  -2 ^ 31 <= i < 2 ^ 31 -> ParseInt32 (SprintInt32 i) = Some i.
Proof.
  intros Hr. unfold SprintInt32.
  destruct i as [|p|p]; [reflexivity| |]; cbn [Z.to_int NilEmpty.string_of_int].
  - destruct (string_of_uint_head (Pos.to_uint p) (DecimalPos.Unsigned.to_uint_nonnil p))
      as (c & r & Hs & Hc).
    rewrite Hs. unfold ParseInt32.
    destruct (digit_not_sign c Hc) as [H1 H2]. rewrite H1, H2.
    rewrite <- Hs, ParseUint64_to_uint.
    replace (N.pos p <? 2 ^ 64)%N with true by (symmetry; apply N.ltb_lt; lia).
    replace (2 ^ 31 <=? N.pos p)%N with false by (symmetry; apply N.leb_gt; lia).
    reflexivity.
  - unfold ParseInt32. cbn [Ascii.eqb Bool.eqb]. cbv iota.
    rewrite ParseUint64_to_uint.
    replace (N.pos p <? 2 ^ 64)%N with true by (symmetry; apply N.ltb_lt; lia).
    replace (2 ^ 31 <? N.pos p)%N with false by (symmetry; apply N.ltb_ge; lia).
    reflexivity.
Qed.

(** Every [int32] printed with [fmt]'s [%v] is read back by
    [strconv.ParseInt(s, 10, 32)] as the same number. *)
Theorem ParseInt32_SprintInt32 (i : Z) :
  -2 ^ 31 <= i < 2 ^ 31 -> ParseInt32 (SprintInt32 i) = Some i.
Proof. apply ParseInt32_SprintInt32_gen. Qed.

(** [strconv.ParseInt(s, 10, 32)] only returns numbers in the [int32]
    range [-2^31, 2^31 - 1]. *)
Theorem ParseInt32_range (s : string) (i : Z) :
  ParseInt32 s = Some i -> -2 ^ 31 <= i < 2 ^ 31.
Proof.
  intros H. destruct s as [|c s']; [discriminate|]. unfold ParseInt32 in H.
  destruct (Ascii.eqb c "+"%char); [|destruct (Ascii.eqb c "-"%char)];
    (destruct (ParseUint64 _) as [un|]; [|discriminate]);
    cbn [negb andb orb] in H.
  - destruct (N.leb_spec (2 ^ 31) un); [discriminate|]. injection H as <-. lia.
  - destruct (N.ltb_spec (2 ^ 31) un); [discriminate|]. injection H as <-. lia.
  - destruct (N.leb_spec (2 ^ 31) un); [discriminate|]. injection H as <-. lia.
Qed.

(** *** [keyToArg] and [argToKey] *)

Lemma Map_Map (f g : ascii -> ascii) (s : string) : Map f (Map g s) = Map (fun c => f (g c)) s.
Proof. induction s as [|c s IH]; cbn; [reflexivity | rewrite IH; reflexivity]. Qed.

Lemma Map_id_on (p : ascii -> bool) (f : ascii -> ascii) (s : string) :
  (forall c, p c = true -> f c = c) -> forallb p (list_ascii_of_string s) = true -> Map f s = s.
Proof.
  intros Hf. induction s as [|c s IH]; cbn; [reflexivity|].
  intros [Hc Hs]%andb_true_iff. rewrite Hf, IH by assumption. reflexivity.
Qed.

Lemma name_char_arg_roundtrip (c : ascii) :
  name_char c = true ->
  (if Ascii.eqb (upper_char (lower_char (if Ascii.eqb c "_"%char then "-"%char else c))) "-"%char
   then "_"%char
   else upper_char (lower_char (if Ascii.eqb c "_"%char then "-"%char else c))) = c.
Proof.
  destruct c as [[] [] [] [] [] [] [] []]; vm_compute; intros Hc;
    first [reflexivity | discriminate Hc].
Qed.

Lemma upper_lower_not_dash (c : ascii) :
  is_upper c = true -> Ascii.eqb (lower_char (if Ascii.eqb c "_"%char then "-"%char else c)) "-"%char = false.
Proof.
  destruct c as [[] [] [] [] [] [] [] []]; vm_compute; intros Hc;
    first [reflexivity | discriminate Hc].
Qed.

Lemma ValidateName_head (k : string) :
  ValidateName k = None -> exists c r, k = String c r /\ is_upper c = true.
Proof.
  unfold ValidateName. destruct k as [|c r]; [discriminate|]. cbn [String.eqb].
  cbn [Split]. destruct (Ascii.eqb c "_"%char); [discriminate|].
  destruct (Split "_"%char r) as [|w ws]; cbn [forallb word_regexp_MatchString ch];
    destruct (is_upper c) eqn:Hc; cbn; intros H; try discriminate H; eauto.
Qed.

(** The command line flag [keyToArg] prints for a valid option or
    subcommand key is turned back into that key by [argToKey]. *)
Theorem argToKey_keyToArg (key : string) :
  ValidateName key = None -> argToKey (keyToArg key) = key.
Proof.
  intros Hk. pose proof (ValidateName_chars key Hk) as Hc.
  destruct (ValidateName_head key Hk) as (c & r & -> & Hu).
  unfold argToKey, keyToArg, ToLower, ToUpper, ReplaceAll.
  cbn [String.append Map TrimLeftDashes TrimLeftBy Ascii.eqb Bool.eqb]. cbv iota.
  unfold TrimLeftDashes. cbn [TrimLeftBy]. rewrite (upper_lower_not_dash c Hu).
  cbn [TrimLeftBy]. rewrite (upper_lower_not_dash c Hu).
  change (String (lower_char (if Ascii.eqb c "_"%char then "-"%char else c))
            (Map lower_char (Map (fun d => if Ascii.eqb d "_"%char then "-"%char else d) r)))
    with (Map lower_char (Map (fun d => if Ascii.eqb d "_"%char then "-"%char else d) (String c r))).
  rewrite !Map_Map. eapply Map_id_on; [|exact Hc]. apply name_char_arg_roundtrip.
Qed.

(** *** [LoadDefaults] *)

Lemma LoadDefaults_go_frame (l : list (string * Option)) (n : Node) :
  app (LoadDefaults_go n l) = app n /\ version (LoadDefaults_go n l) = version n /\
  spec (LoadDefaults_go n l) = spec n /\ shortflags (LoadDefaults_go n l) = shortflags n.
Proof.
  revert n. induction l as [|[k o] l IH]; intros n; cbn [LoadDefaults_go]; [auto|].
  destruct (Default o); [|apply IH]. destruct (IH (with_values_locations n
    (<[k := v]> (values n)) (<[k := default [] (locations n !! k) ++ [SprintValue v]]> (locations n))))
    as (-> & -> & -> & ->).
  auto.
Qed.

Lemma LoadDefaults_go_lookup (l : list (string * Option)) (n : Node) (k : string) :
  NoDup l.*1 ->
  values (LoadDefaults_go n l) !! k =
    match (list_to_map l : gmap string Option) !! k ≫= Default with
    | Some d => Some d
    | None => values n !! k
    end /\
  locations (LoadDefaults_go n l) !! k =
    match (list_to_map l : gmap string Option) !! k ≫= Default with
    | Some d => Some (default [] (locations n !! k) ++ [SprintValue d])
    | None => locations n !! k
    end.
Proof.
  revert n. induction l as [|[k' o] l IH]; intros n Hnd; cbn [LoadDefaults_go]; [auto|].
  cbn [fmap list_fmap fst] in Hnd. apply NoDup_cons in Hnd as [Hk' Hnd].
  cbn [list_to_map foldr fst snd].
  destruct (decide (k = k')) as [->|Hne].
  - rewrite lookup_insert_eq. cbn [mbind option_bind].
    pose proof (not_elem_of_list_to_map_1 l k' Hk') as Hl.
    destruct (Default o) as [d|] eqn:Hd.
    + destruct (IH (with_values_locations n (<[k' := d]> (values n))
        (<[k' := default [] (locations n !! k') ++ [SprintValue d]]> (locations n))) Hnd)
        as [-> ->].
      rewrite Hl. cbn [values locations with_values_locations mbind option_bind].
      rewrite !lookup_insert_eq. auto.
    + destruct (IH n Hnd) as [-> ->]. rewrite Hl. auto.
  - rewrite lookup_insert_ne by congruence.
    destruct (Default o) as [d|] eqn:Hd.
    + destruct (IH (with_values_locations n (<[k' := d]> (values n))
        (<[k' := default [] (locations n !! k') ++ [SprintValue d]]> (locations n))) Hnd)
        as [-> ->].
      cbn [values locations with_values_locations].
      rewrite !lookup_insert_ne by congruence. auto.
    + apply IH, Hnd.
Qed.

Lemma LoadDefaults_lookup_gen (n : Node) (k : string) :
  values (LoadDefaults n) !! k =
    match spec n !! k ≫= Default with Some d => Some d | None => values n !! k end /\
  locations (LoadDefaults n) !! k =
    match spec n !! k ≫= Default with
    | Some d => Some (default [] (locations n !! k) ++ [SprintValue d])
    | None => locations n !! k
    end.
Proof.
  unfold LoadDefaults. rewrite <- (list_to_map_to_list (spec n)) at 2 4.
  apply LoadDefaults_go_lookup, NoDup_fst_map_to_list.
Qed.

(** [LoadDefaults] stores the default of every option that has one, and
    appends the default's [%v] text to that option's locations; the value
    and locations of every other key are left as they were. *)
Theorem LoadDefaults_lookup (n : Node) (k : string) :
  values (LoadDefaults n) !! k =
    match spec n !! k ≫= Default with Some d => Some d | None => values n !! k end /\
  locations (LoadDefaults n) !! k =
    match spec n !! k ≫= Default with
    | Some d => Some (default [] (locations n !! k) ++ [SprintValue d])
    | None => locations n !! k
    end.
Proof. apply LoadDefaults_lookup_gen. Qed.

(** When every option's default passes [ValidateDefault], [LoadDefaults]
    keeps [ValidateValues] passing. *)
Theorem LoadDefaults_keeps_ValidateValues (n : Node) :
  map_Forall (fun _ o => ValidateDefault o = None) (spec n) ->
  ValidateValues n = None -> ValidateValues (LoadDefaults n) = None.
Proof.
  intros Hd Hn. apply ValidateValues_iff. apply ValidateValues_iff in Hn.
  destruct (LoadDefaults_go_frame (map_to_list (spec n)) n) as (_ & _ & Hs & _).
  unfold LoadDefaults. rewrite Hs. fold (LoadDefaults n).
  intros k v Hk. destruct (LoadDefaults_lookup_gen n k) as [Hv _]. rewrite Hv in Hk.
  destruct (spec n !! k) as [o|] eqn:Ho; cbn [mbind option_bind] in Hk.
  - destruct (Default o) as [d|] eqn:Hdo.
    + injection Hk as <-. exists o. split; [reflexivity|].
      pose proof (Hd k o Ho) as Hvd. unfold ValidateDefault in Hvd. rewrite Hdo in Hvd.
      destruct (ValidateValue o (Some d)); [discriminate | reflexivity].
    + destruct (Hn k v Hk) as (o' & Ho' & Hv'). exists o'. split; [congruence | exact Hv'].
  - destruct (Hn k v Hk) as (o' & Ho' & _). congruence.
Qed.

Lemma CheckMissing_go_LoadDefaults (n : Node) (l : list (string * Option)) :
  (forall k o, (k, o) ∈ l -> spec n !! k = Some o) ->
  CheckMissing_go (LoadDefaults n) l = CheckMissing_go n l.
Proof.
  intros Hl. induction l as [|[k o] l IH]; cbn [CheckMissing_go]; [reflexivity|].
  destruct (LoadDefaults_go_frame (map_to_list (spec n)) n) as (_ & Hver & _ & _).
  fold (LoadDefaults n) in Hver. rewrite Hver.
  rewrite IH by (intros k' o' H'; apply Hl; constructor; exact H').
  destruct (Default o) as [d|] eqn:Hdo.
  - rewrite !(bool_decide_eq_false_2 (Some d = None)) by discriminate.
    rewrite !andb_false_r. reflexivity.
  - destruct (LoadDefaults_lookup_gen n k) as [Hv _]. rewrite Hv.
    rewrite (Hl k o) by constructor. cbn [mbind option_bind]. rewrite Hdo.
    reflexivity.
Qed.

(** [LoadDefaults] never changes the outcome of [CheckMissing]: a
    required option it fills in has a default, and [CheckMissing] does not
    report an option with a default. *)
Theorem CheckMissing_LoadDefaults (n : Node) :
  CheckMissing (LoadDefaults n) = CheckMissing n.
Proof.
  unfold CheckMissing at 1.
  destruct (LoadDefaults_go_frame (map_to_list (spec n)) n) as (_ & _ & Hs & _).
  fold (LoadDefaults n) in Hs. rewrite Hs.
  apply CheckMissing_go_LoadDefaults. intros k o Hko. apply elem_of_map_to_list, Hko.
Qed.

End Extra_facts2.

Lemma ParseInt32_SprintInt32_witness :
  -2 ^ 31 <= -42 < 2 ^ 31 /\ ParseInt32 (SprintInt32 (-42)) = Some (-42).
Proof. split; [lia | apply ParseInt32_SprintInt32; lia]. Defined.

Lemma ParseInt32_range_witness :
  ParseInt32 "-2147483648" = Some (-2147483648) /\ -2 ^ 31 <= -2147483648 < 2 ^ 31.
Proof.
  split; [vm_compute; reflexivity|].
  apply (ParseInt32_range "-2147483648"). vm_compute. reflexivity.
Defined.

Lemma argToKey_keyToArg_witness :
  ValidateName "RUN_FAST2" = None /\ keyToArg "RUN_FAST2" = "--run-fast2"%string /\
  argToKey (keyToArg "RUN_FAST2") = "RUN_FAST2"%string.
Proof.
  split; [vm_compute; reflexivity|]. split; [vm_compute; reflexivity|].
  apply argToKey_keyToArg. vm_compute. reflexivity.
Defined.

Lemma LoadDefaults_keeps_ValidateValues_witness :
  map_Forall (fun _ o => ValidateDefault o = None) (spec demo_default_node) /\
  ValidateValues demo_default_node = None /\
  ValidateValues (LoadDefaults demo_default_node) = None.
Proof.
  assert (Hd : map_Forall (fun _ o => ValidateDefault o = None) (spec demo_default_node))
    by (apply (bool_decide_unpack _); vm_compute; reflexivity).
  assert (Hn : ValidateValues demo_default_node = None) by (vm_compute; reflexivity).
  split; [exact Hd|]. split; [exact Hn|].
  apply (LoadDefaults_keeps_ValidateValues demo_default_node Hd Hn).
Defined.

Section Extra_facts3.
Context {GP : GoPrims}.

(** *** [set] and the accessors *)

Lemma set_spec_frame (n n' : Node) (key val location : string) (e : option error) :
  set n key val location = (n', e) ->
  spec n' = spec n /\ app n' = app n /\ version n' = version n /\ shortflags n' = shortflags n.
Proof.
  destruct (set_cases n key val location) as [[e' ->] | (o & v & _ & _ & _ & ->)];
    intros H; injection H as <- _; auto.
Qed.

Lemma set_success_gen (n n' : Node) (key val location : string) :
  set n key val location = (n', None) ->
  exists o v, spec n !! key = Some o /\ stringToValue (Type_ o) val = Ok v /\
    values n' = <[key := v]> (values n) /\
    locations n' = <[key := default [] (locations n !! key) ++ [location]]> (locations n) /\
    spec n' = spec n /\
    IsSet n' key = Returns true /\
    Locations n' key = Returns (default [] (locations n !! key) ++ [location]) /\
    app n' = app n /\ version n' = version n /\ shortflags n' = shortflags n.
Proof.
  destruct (set_cases n key val location) as [[e ->] | (o & v & Hk & Ho & Hv & ->)];
    intros H; [discriminate|]. injection H as <-.
  exists o, v. unfold IsSet, Locations. rewrite Hk.
  cbn [values locations spec app version shortflags with_values_locations].
  rewrite !lookup_insert_eq. repeat split; try assumption.
Qed.

(** A successful [set] stores the parsed value under the key, appends
    the location to the key's locations, and changes nothing else: the
    specs, app name, version and shortflags stay as they were.  Afterwards
    [IsSet] reports the key as set and [Locations] lists the new location
    last. *)
Theorem set_success (n n' : Node) (key val location : string) :
  set n key val location = (n', None) ->
  exists o v, spec n !! key = Some o /\ stringToValue (Type_ o) val = Ok v /\
    values n' = <[key := v]> (values n) /\
    locations n' = <[key := default [] (locations n !! key) ++ [location]]> (locations n) /\
    spec n' = spec n /\
    IsSet n' key = Returns true /\
    Locations n' key = Returns (default [] (locations n !! key) ++ [location]) /\
    app n' = app n /\ version n' = version n /\ shortflags n' = shortflags n.
Proof. apply set_success_gen. Qed.

(** After a successful [set] of a [bool], [int32], [string] or [json]
    option, its getter returns the value [set] parsed from the text. *)
Theorem set_then_get (n n' : Node) (o : Option) (key val location : string) :
  spec n !! key = Some o -> set n key val location = (n', None) ->
  (Type_ o = "bool" -> exists b, ParseBool val = Some b /\ GetBool n' key = Returns b) /\
  (Type_ o = "int32" -> exists i, ParseInt32 val = Some i /\ GetInt32 n' key = Returns i) /\
  (Type_ o = "string" \/ Type_ o = "json" ->
     GetString n' key = Returns val /\ GetJSON n' key = Returns (Some val)).
Proof.
  intros Hs. destruct (set_cases n key val location) as [[e ->] | (o' & v & Hk & Ho & Hv & ->)];
    intros H; [discriminate|]. injection H as <-. rewrite Hs in Ho. injection Ho as <-.
  unfold GetBool, GetInt32, GetString, GetJSON. rewrite Hk.
  cbn [values with_values_locations]. rewrite lookup_insert_eq.
  unfold stringToValue in Hv. split; [|split].
  - intros HT. rewrite HT in Hv. cbn in Hv.
    destruct (ParseBool val) as [b|]; [|discriminate]. injection Hv as <-. eauto.
  - intros HT. rewrite HT in Hv. cbn in Hv.
    destruct (ParseInt32 val) as [i|]; [|discriminate]. injection Hv as <-. eauto.
  - intros [HT | HT]; rewrite HT in Hv; cbn in Hv.
    + injection Hv as <-. auto.
    + destruct (JSONValid val); [|discriminate]. injection Hv as <-. auto.
Qed.

(** *** [addOption] *)

(** A successful [addOption] enters the option under its name, which was
    valid and not yet taken, and a non-empty shortflag, which was not yet
    taken, under the shortflag; values and locations are untouched. *)
Theorem addOption_success (n n' : Node) (opt : Option) :
  addOption n opt = (n', None) ->
  ValidateName (Name opt) = None /\ spec n !! Name opt = None /\
  spec n' = <[Name opt := opt]> (spec n) /\
  (String.eqb (Shortflag opt) "" = true -> shortflags n' = shortflags n) /\
  (String.eqb (Shortflag opt) "" = false ->
     shortflags n !! Shortflag opt = None /\
     shortflags n' = <[Shortflag opt := Name opt]> (shortflags n)) /\
  values n' = values n /\ locations n' = locations n /\ app n' = app n /\ version n' = version n.
Proof.
  unfold addOption. destruct (ValidateName (Name opt)); [discriminate|].
  destruct (spec n !! Name opt); [discriminate|].
  destruct (String.eqb (Shortflag opt) "") eqn:Ef.
  - intros H. injection H as <-. cbn. repeat split; auto; discriminate.
  - cbn [shortflags]. destruct (shortflags n !! Shortflag opt) eqn:Eh; [discriminate|].
    intros H. injection H as <-. cbn. repeat split; auto; discriminate.
Qed.


(** *** [Sub] *)

Lemma Index_absent_Contains (c : ascii) (s : string) : Index c s = -1 -> Contains c s = false.
Proof.
  induction s as [|d s IH]; cbn [Index Contains]; [reflexivity|].
  destruct (Ascii.eqb d c); [discriminate|]. cbn [orb].
  pose proof (Index_ge c s).
  destruct (Index c s <? 0) eqn:E; [apply Z.ltb_lt in E|apply Z.ltb_ge in E]; intros H'; [|lia].
  apply IH. lia.
Qed.

(** [Sub] on a root stores the new child under [name] (replacing a child
    of that name) and leaves the root's own node alone.  The child has the
    app name [parent_name], the parent's version, no options and no
    values; it is a subcommand node whose [subName] is [name] and whose
    [appName] is the parent's app, and [Sub] refuses to create a child of
    it. *)
Theorem Sub_child (c c' : Config) (s : Node) (name : string) :
  Sub c name = Ok (c', s) ->
  isSub (node c) = false /\ node c' = node c /\ currentSub c' = currentSub c /\
  subcommands c' = <[name := s]> (subcommands c) /\
  app s = (app (node c) ++ "_" ++ name)%string /\ version s = version (node c) /\
  spec s = ∅ /\ values s = ∅ /\ locations s = ∅ /\ shortflags s = ∅ /\
  isSub s = true /\ subName s = name /\ appName s = app (node c) /\
  (forall (c2 : Config) (name2 : string), node c2 = s -> Sub c2 name2 = Err ErrSubSubCommand).
Proof.
  unfold Sub. destruct (isSub (node c)) eqn:Hroot; [discriminate|].
  unfold New. destruct (ValidateName name); [discriminate|].
  destruct (ValidateVersion (version (node c))); [discriminate|].
  cbn -[String.append]. intros H. injection H as <- <-.
  assert (Ha : Index "_"%char (app (node c)) = -1).
  { unfold isSub in Hroot. apply negb_false_iff, Z.eqb_eq in Hroot. exact Hroot. }
  destruct (sub_node_names (app (node c)) name
              (mkNode (app (node c) ++ "_" ++ name) (version (node c)) ∅ ∅ ∅ ∅)
              (Index_absent_Contains _ _ Ha) eq_refl) as [Hsub Hname].
  assert (Happ : appName (mkNode (app (node c) ++ "_" ++ name) (version (node c)) ∅ ∅ ∅ ∅)
                 = app (node c)).
  { unfold appName. rewrite Hsub. cbn [app].
    change ("_" ++ name)%string with (String "_" name).
    rewrite (Index_app_absent _ _ _ Ha). apply slice_0_len_app. }
  cbn [with_sub node currentSub subcommands].
  repeat split; try assumption.
  intros c2 name2 Hc2.
  assert (Hs2 : isSub (node c2) = true) by (rewrite Hc2; exact Hsub).
  unfold Sub. rewrite Hs2. reflexivity.
Qed.

(** *** [setMap] and [SetLocalOptions] (and its global and user siblings) *)

Lemma setMap_frame (n : Node) (opts : list (string * string)) (location : string) :
  spec (fst (setMap n opts location)) = spec n.
Proof.
  revert n. induction opts as [|[k v] opts IH]; intros n; cbn [setMap]; [reflexivity|].
  destruct (set n k v location) as [n1 e] eqn:E.
  destruct (set_spec_frame _ _ _ _ _ _ E) as (Hs & _).
  destruct e; cbn [fst]; [exact Hs|]. rewrite IH. exact Hs.
Qed.

Lemma setMap_other (n : Node) (opts : list (string * string)) (location k : string) :
  k ∉ opts.*1 -> values (fst (setMap n opts location)) !! k = values n !! k.
Proof.
  revert n. induction opts as [|[k0 v0] opts IH]; intros n Hk; cbn [setMap]; [reflexivity|].
  cbn [fmap list_fmap fst] in Hk. apply not_elem_of_cons in Hk as [Hne Hk].
  assert (H1 : values (fst (set n k0 v0 location)) !! k = values n !! k).
  { destruct (set_cases n k0 v0 location) as [[e ->] | (o & v & _ & _ & _ & ->)];
      [reflexivity|]. cbn. apply lookup_insert_ne. congruence. }
  destruct (set n k0 v0 location) as [n1 [e|]]; cbn [fst] in H1 |- *; [exact H1|].
  rewrite IH by exact Hk. exact H1.
Qed.

(** When [setMap] succeeds on the entries of a map (distinct keys), every
    entry's key holds the value parsed from the entry's text by the key's
    option type, and every other key keeps its value. *)
Theorem setMap_values (n n' : Node) (opts : list (string * string)) (location : string) :
  NoDup opts.*1 -> setMap n opts location = (n', None) ->
  (forall k val, (k, val) ∈ opts ->
     exists o v, spec n !! k = Some o /\ stringToValue (Type_ o) val = Ok v /\
                 values n' !! k = Some v) /\
  (forall k, k ∉ opts.*1 -> values n' !! k = values n !! k).
Proof.
  intros Hnd Hm. split; [|intros k Hk; rewrite <- (setMap_other n opts location k Hk), Hm; reflexivity].
  revert n Hm. induction opts as [|[k0 v0] opts IH]; intros n Hm k val Hin;
    [apply not_elem_of_nil in Hin; contradiction|].
  cbn [fmap list_fmap fst] in Hnd. apply NoDup_cons in Hnd as [Hk0 Hnd].
  cbn [setMap] in Hm. destruct (set n k0 v0 location) as [n1 [e|]] eqn:E1; [discriminate|].
  destruct (set_spec_frame _ _ _ _ _ _ E1) as (Hs1 & _).
  apply elem_of_cons in Hin as [Heq | Hin].
  - injection Heq as -> ->.
    destruct (set_success_gen _ _ _ _ _ E1) as (o & v & Ho & Hv & Hvals & _).
    exists o, v. split; [exact Ho|]. split; [exact Hv|].
    pose proof (setMap_other n1 opts location k0 Hk0) as Ho'.
    rewrite Hm in Ho'. cbn [fst] in Ho'. rewrite Ho', Hvals. apply lookup_insert_eq.
  - destruct (IH Hnd n1 Hm k val Hin) as (o & v & Ho & Hv & Hvals).
    rewrite Hs1 in Ho. eauto.
Qed.

(** [SetLocalOptions], [SetUserOptions] and [SetGlobalOptions] ([save]
    being [SaveToLocal], [SaveToUser] or [SaveToGlobals]) start from
    [Reset] and [setMap]: afterwards a key not among the given options has
    no value, so a save writes the given options only, and the specs are
    unchanged.  When [setMap] fails with an error, nothing is saved: the
    file system is unchanged and that error is returned; when it
    succeeds, the result is the save's. *)
Theorem set_then_save_reset (save : World -> Config -> World * write_end)
    (w : World) (c : Config) (opts : list (string * string)) (location : string)
    (n2 : Node) (err : option error) :
  setMap (node (Reset c)) opts location = (n2, err) ->
  (forall k, k ∉ opts.*1 -> values n2 !! k = None) /\ spec n2 = spec (node c) /\
  (forall e, err = Some e ->
     set_then_save save w c opts location = (with_node (Reset c) n2, w, WError e)) /\
  (err = None ->
     set_then_save save w c opts location =
       (with_node (Reset c) n2, fst (save w (with_node (Reset c) n2)),
        snd (save w (with_node (Reset c) n2)))).
Proof.
  intros Hm.
  pose proof (setMap_other (node (Reset c)) opts location) as Ho.
  pose proof (setMap_frame (node (Reset c)) opts location) as Hf.
  rewrite Hm in Ho, Hf. cbn [fst] in Ho, Hf.
  split; [intros k Hk; rewrite (Ho k Hk); reflexivity|].
  split; [exact Hf|].
  unfold set_then_save. rewrite Hm.
  split; [intros e -> ; reflexivity|].
  intros ->. destruct (save w (with_node (Reset c) n2)); reflexivity.
Qed.

(** *** [WriteConfigFile] *)

(** When [WriteConfigFile] returns an error, and the backup could be read
    and the deferred restore's [os.Remove] and [ioutil.WriteFile] succeed,
    the file keeps its previous content; the only exception is a
    previously empty file, which the restore removes. *)
Theorem WriteConfigFile_error_keeps_file (fs : fs_answers) (c : Config) (path : string)
    (old out : option string) (e : error) :
  fs_read fs = true -> fs_remove fs = None -> fs_restore fs = None ->
  WriteConfigFile fs c path old = (out, WError e) -> out = old \/ (old = Some ""%string /\ out = None).
Proof.
  intros Hrd Hrm Hrs. unfold WriteConfigFile.
  destruct (isSub (node c)); [intros H; injection H as <- _; auto|].
  destruct (ValidateValues (node c)); [intros H; injection H as <- _; auto|].
  destruct (dir_check fs path); [intros H; injection H as <- _; auto|].
  destruct (bool_decide (values (node c) = ∅)).
  { destruct old; [rewrite Hrm|]; discriminate. }
  destruct (fs_open fs); [intros H; injection H as <- _; auto|].
  destruct (WriteString fs _ _) as [f1 e1].
  destruct (match e1 with Some err => (f1, WError err) | None => writeConfigValues_io fs c f1 end)
    as [f [|err|p]]; [discriminate| |discriminate].
  intros H. injection H as <- _. unfold restore. rewrite Hrm, Hrs, Hrd.
  destruct old as [b|]; [|auto].
  destruct (String.eqb b "") eqn:Eb; [|auto]. apply String.eqb_eq in Eb. subst b. auto.
Qed.

(** [WriteConfigFile] of a root without values writes nothing, whatever
    values the subcommands hold.  When the parent directory check passes
    and the file is absent or [os.Remove] succeeds, the file is removed
    and no error returned; a failing directory check or [os.Remove]
    leaves the file and returns that error. *)
Theorem WriteConfigFile_no_values (fs : fs_answers) (c : Config) (path : string) (old : option string) :
  isSub (node c) = false -> values (node c) = ∅ ->
  (dir_check fs path = None -> old = None \/ fs_remove fs = None ->
     WriteConfigFile fs c path old = (None, WDone)) /\
  (forall e, dir_check fs path = Some e -> WriteConfigFile fs c path old = (old, WError e)) /\
  (forall e, dir_check fs path = None -> old <> None -> fs_remove fs = Some e ->
     WriteConfigFile fs c path old = (old, WError e)).
Proof.
  intros Hs Hv. unfold WriteConfigFile. rewrite Hs.
  unfold ValidateValues. rewrite Hv, map_to_list_empty. cbn [ValidateValues_go].
  rewrite bool_decide_eq_true_2 by reflexivity.
  split; [|split].
  - intros -> [-> | ->]; [reflexivity|]. destruct old; reflexivity.
  - intros e ->. reflexivity.
  - intros e -> Hold ->. destruct old; [reflexivity | congruence].
Qed.

(** *** [mergeArgs] and [Load] *)

Lemma mergeArgs_go_ok (n n' : Node) (b : bool) (merged keys m : gset string)
    (args : list string) :
  mergeArgs_go n b merged keys args = (n', ArgsReturn m None) ->
  ValidateValues n' = None /\ CheckMissing n' = None /\ spec n' = spec n.
Proof.
  revert n merged keys. induction args as [|a rest IH]; intros n merged keys; cbn [mergeArgs_go].
  - destruct (ValidateValues n) eqn:Ev; [discriminate|].
    intros H. injection H as <- _ Hc. auto.
  - intros Hm. repeat (case_match; simplify_eq; try discriminate).
    all: match goal with Hr : mergeArgs_go _ _ _ _ _ = _ |- _ =>
           destruct (IH _ _ _ Hr) as (? & ? & Hs) end.
    all: repeat split; try assumption; rewrite Hs;
      match goal with E : set _ _ _ _ = _ |- _ => exact (proj1 (set_spec_frame _ _ _ _ _ _ E)) end.
Qed.

(** When [mergeArgs] returns no error, every value of the node passes its
    spec, no required option without default is missing, and the options
    are those of the node it started from. *)
Theorem mergeArgs_ok (n n' : Node) (b : bool) (args : list string) (m : gset string) :
  mergeArgs n b args = (n', ArgsReturn m None) ->
  ValidateValues n' = None /\ CheckMissing n' = None /\ spec n' = spec n.
Proof. apply mergeArgs_go_ok. Qed.

(** When [Load] returns no error, every value of the root passes its spec
    and every required option without a default has a value. *)
Theorem Load_ok (w w' : World) (c0 c : Config) :
  Load w c0 = (c, w', LoadReturn None) ->
  ValidateValues (node c) = None /\ CheckMissing (node c) = None.
Proof.
  unfold Load. intros H.
  repeat (case_match; simplify_eq; try discriminate).
  all: cbn [node with_sub with_node].
  all: match goal with
       | E : mergeArgs _ _ _ = (?m, ArgsReturn _ None) |- ValidateValues ?m = None /\ _ =>
           destruct (mergeArgs_go_ok _ _ _ _ _ _ _ E) as (? & ? & _); auto
       end.
Qed.

End Extra_facts3.

Lemma set_success_witness :
  exists o v, spec (rt_root 8080) !! "PORT" = Some o /\ stringToValue (Type_ o) "9090" = Ok v /\
    IsSet (fst (set (rt_root 8080) "PORT" "9090" "cli")) "PORT" = Returns true.
Proof.
  destruct (set_success (rt_root 8080) (fst (set (rt_root 8080) "PORT" "9090" "cli"))
              "PORT" "9090" "cli") as (o & v & H1 & H2 & _ & _ & _ & H3 & _);
    [vm_compute; reflexivity|].
  exists o, v. auto.
Defined.

Lemma set_then_get_witness :
  exists i, ParseInt32 "9090" = Some i /\
    GetInt32 (fst (set (rt_root 8080) "PORT" "9090" "cli")) "PORT" = Returns i.
Proof.
  destruct (set_then_get (rt_root 8080) (fst (set (rt_root 8080) "PORT" "9090" "cli"))
              (mkOption_ "PORT" false "int32" "the port" None "") "PORT" "9090" "cli")
    as (_ & Hi & _); [vm_compute; reflexivity | vm_compute; reflexivity |].
  apply Hi. reflexivity.
Defined.

Lemma addOption_success_witness :
  snd (addOption (node demo_root) port_option) = None /\
  spec (fst (addOption (node demo_root) port_option)) !! Name port_option = Some port_option.
Proof.
  split; [vm_compute; reflexivity|].
  destruct (addOption_success (node demo_root) (fst (addOption (node demo_root) port_option))
              port_option) as (_ & _ & Hs & _); [vm_compute; reflexivity|].
  rewrite Hs. apply lookup_insert_eq.
Defined.


Lemma Sub_child_witness :
  match Sub demo_root "RUN" with
  | Ok (_, s) => subName s = "RUN" /\ Sub (mkConfig s ∅ None) "FAST" = Err ErrSubSubCommand
  | Err _ => False
  end.
Proof.
  destruct (Sub demo_root "RUN") as [[c' s]|e] eqn:E; [|vm_compute in E; discriminate E].
  destruct (Sub_child _ _ _ _ E) as (_ & _ & _ & _ & _ & _ & _ & _ & _ & _ & _ & Hn & _ & Hs).
  split; [exact Hn | apply Hs; reflexivity].
Defined.

Lemma setMap_values_witness :
  exists o v, spec (rt_root 8080) !! "PORT" = Some o /\ stringToValue (Type_ o) "9090" = Ok v /\
    values (fst (setMap (rt_root 8080) [("PORT", "9090"); ("NAME", "x")] "cli")) !! "PORT" = Some v.
Proof.
  destruct (setMap_values (rt_root 8080)
              (fst (setMap (rt_root 8080) [("PORT", "9090"); ("NAME", "x")] "cli"))
              [("PORT", "9090"); ("NAME", "x")] "cli") as [Hin _];
    [apply (bool_decide_unpack _); vm_compute; reflexivity | vm_compute; reflexivity |].
  apply Hin. constructor.
Defined.

Lemma set_then_save_reset_witness :
  exists e, SetLocalOptions fs_ok (bare_world []) (rt_config 8080) [("PORT", "x")] "cli" =
    (with_node (Reset (rt_config 8080))
               (fst (setMap (node (Reset (rt_config 8080))) [("PORT", "x")] "cli")),
     bare_world [], WError e).
Proof.
  unfold SetLocalOptions.
  destruct (setMap (node (Reset (rt_config 8080))) [("PORT", "x")] "cli") as [n2 err] eqn:E.
  destruct (set_then_save_reset (SaveToLocal fs_ok) (bare_world []) (rt_config 8080) _ _ _ _ E)
    as (_ & _ & Hs & _).
  destruct err as [e|]; [|vm_compute in E; discriminate E].
  exists e. cbn [fst]. apply Hs. reflexivity.
Defined.

Lemma WriteConfigFile_error_keeps_file_witness :
  WriteConfigFile fs_disk_full (rt_config 8080) "DEMO.conf" (Some "old"%string) =
    (Some "old"%string, WError (ErrText "disk full")) /\
  (Some "old"%string = Some "old"%string \/ (Some "old"%string = Some ""%string /\ Some "old"%string = None)).
Proof.
  split; [vm_compute; reflexivity|].
  apply (WriteConfigFile_error_keeps_file fs_disk_full (rt_config 8080) "DEMO.conf"
           (Some "old"%string) (Some "old"%string) (ErrText "disk full"));
    [reflexivity | reflexivity | reflexivity | vm_compute; reflexivity].
Defined.

Lemma WriteConfigFile_no_values_witness :
  values rt_run !! "FAST" = Some (VBool true) /\
  WriteConfigFile fs_ok (mkConfig (Reset_node (rt_root 8080)) {["RUN" := rt_run]} None)
                  "DEMO.conf" (Some "old"%string) = (None, WDone).
Proof.
  split; [vm_compute; reflexivity|].
  destruct (WriteConfigFile_no_values fs_ok (mkConfig (Reset_node (rt_root 8080)) {["RUN" := rt_run]} None)
              "DEMO.conf" (Some "old"%string)) as [H _]; [vm_compute; reflexivity | vm_compute; reflexivity |].
  apply H; [reflexivity | right; reflexivity].
Defined.

Lemma mergeArgs_ok_witness :
  match mergeArgs (rt_root 8080) false ["--port=1"] with
  | (n', ArgsReturn _ None) => ValidateValues n' = None /\ CheckMissing n' = None
  | _ => False
  end.
Proof.
  destruct (mergeArgs (rt_root 8080) false ["--port=1"]) as [n' [m [e|]|k]] eqn:E;
    try (vm_compute in E; discriminate E).
  destruct (mergeArgs_ok _ _ _ _ _ E) as (H1 & H2 & _). auto.
Defined.

Lemma Load_ok_witness :
  match Load (bare_world ["--port=8080"]) demo_port_config with
  | (c, _, LoadReturn None) => ValidateValues (node c) = None /\ CheckMissing (node c) = None
  | _ => False
  end.
Proof.
  destruct (Load (bare_world ["--port=8080"]) demo_port_config) as [[c w'] [[e|]|k|p]] eqn:E;
    try (vm_compute in E; discriminate E).
  apply (Load_ok _ _ _ _ E).
Defined.


Section Extra_facts4.
Context {GP : GoPrims}.

(** *** [Option.Validate] and [mkOption] *)

Lemma Option_Validate_required (o : Option) :
  Option_Validate o = None -> Required o = true -> is_Some (Default o).
Proof.
  unfold Option_Validate. destruct (ValidateName (Name o)); [discriminate|].
  destruct (ValidateType (Type_ o)); [discriminate|].
  unfold ValidateDefault. destruct (Default o) as [d|]; [intros _ _; eauto|].
  cbn [ValidateValue]. intros H Hr. rewrite Hr in H. discriminate.
Qed.

(** An option that [mkOption] accepts passes [Option.Validate], and a
    required one has a default: [ValidateValue] refuses the missing value
    of a required option, so [ValidateDefault] refuses a required option
    without default.  The node is the one [addOption] returns. *)
Theorem mkOption_valid (n n' : Node) (name type_ helpText : string)
    (setter : list (Option -> Option)) (o : Option) :
  mkOption n name type_ helpText setter = Returns (n', o) ->
  Option_Validate o = None /\ (Required o = true -> is_Some (Default o)) /\
  n' = fst (addOption n o).
Proof.
  unfold mkOption. destruct (Option_Validate _) eqn:E; [discriminate|].
  intros H. injection H as <- <-. split; [exact E|]. split; [|reflexivity].
  apply Option_Validate_required, E.
Qed.

(** For a node whose options all pass [Option.Validate] (every option
    made by [mkOption]), [CheckMissing] never reports a missing option. *)
Theorem CheckMissing_valid_options (n : Node) :
  map_Forall (fun _ o => Option_Validate o = None) (spec n) -> CheckMissing n = None.
Proof.
  intros Hs. apply CheckMissing_iff. intros k o Ho Hr Hd.
  destruct (Option_Validate_required o (Hs k o Ho) Hr) as [d Hd']. congruence.
Qed.

(** *** [MergeEnv] *)

Lemma MergeEnv_go_filter (n : Node) (prefix : string) (env : list string) :
  MergeEnv_go n prefix env =
  MergeEnv_go n prefix (List.filter (fun e => HasPrefix e prefix) env).
Proof.
  revert n. induction env as [|e env IH]; intros n; [reflexivity|].
  cbn [MergeEnv_go List.filter]. destruct (HasPrefix e prefix) eqn:He.
  - cbn [MergeEnv_go]. rewrite He.
    repeat case_match; solve [reflexivity | apply IH].
  - apply IH.
Qed.

(** [MergeEnv] only looks at the environment entries that start with the
    node's prefix [APP_CONFIG_]: dropping the others changes nothing. *)
Theorem MergeEnv_only_prefixed (w : World) (n : Node) :
  MergeEnv w n =
  MergeEnv_go n (env_prefix n) (List.filter (fun e => HasPrefix e (env_prefix n)) (ENV w)).
Proof. apply MergeEnv_go_filter. Qed.

Lemma set_keeps_VV (n n' : Node) (key val location : string) (e : option error) :
  set n key val location = (n', e) -> ValidateValues n = None -> ValidateValues n' = None.
Proof.
  intros Hs Hn. destruct (set_cases n key val location) as [[e' E] | (o & v & _ & Ho & Hv & E)];
    rewrite E in Hs; injection Hs as <- _; [exact Hn|].
  apply ValidateValues_iff. apply ValidateValues_iff in Hn.
  unfold with_values_locations. cbn [values spec].
  apply map_Forall_insert_2; [|exact Hn].
  exists o. split; [exact Ho | apply (stringToValue_ValidateValue o val v Hv)].
Qed.


(** *** [Merge] *)

Lemma merge_frame_refl (c : Config) : merge_frame c c.
Proof. unfold merge_frame. auto. Qed.

Lemma merge_frame_trans (c1 c2 c3 : Config) :
  merge_frame c1 c2 -> merge_frame c2 c3 -> merge_frame c1 c3.
Proof.
  unfold merge_frame. intros (H1 & H2 & H3 & H4 & H5) (G1 & G2 & G3 & G4 & G5).
  repeat split; try congruence. auto.
Qed.

Lemma setValue_frame (location fileVersion : string) (dv : bool) (st : merge_state) :
  merge_frame (ms_cfg st) (fst (setValue location fileVersion dv st)).
Proof.
  unfold setValue. cbv zeta.
  destruct (String.eqb (TrimSpace (ms_valBuf st)) ""); [apply merge_frame_refl|].
  destruct (String.eqb (ms_subcommand st) "").
  - destruct (set (node (ms_cfg st)) (ms_key st) (TrimSpace (ms_valBuf st)) location)
      as [n1 e] eqn:E.
    destruct (set_spec_frame _ _ _ _ _ _ E) as (Hs & Ha & Hv & _).
    pose proof (set_keeps_VV _ _ _ _ _ _ E) as HV.
    unfold merge_frame, shape, with_node. cbn [fst node subcommands currentSub].
    rewrite Hs, Ha, Hv. auto.
  - destruct (subcommands (ms_cfg st) !! ms_subcommand st) as [sub|] eqn:Esub;
      [|apply merge_frame_refl].
    destruct (set sub (ms_key st) (TrimSpace (ms_valBuf st)) location) as [sub' e] eqn:E.
    destruct (set_spec_frame _ _ _ _ _ _ E) as (Hs & _).
    assert (Hsh : merge_frame (ms_cfg st) (with_sub (ms_cfg st) (ms_subcommand st) sub')).
    { unfold merge_frame, shape, with_sub. cbn [node subcommands currentSub]. split; [|auto].
      f_equal. rewrite fmap_insert. apply insert_id. rewrite lookup_fmap, Esub. cbn.
      rewrite Hs. reflexivity. }
    destruct e; [destruct dv|]; exact Hsh.
Qed.

Lemma merge_lines_frame (location fileVersion : string) (dv : bool)
    (lines : list string) (st : merge_state) :
  merge_frame (ms_cfg st) (fst (merge_lines location fileVersion dv st lines)).
Proof.
  revert st. induction lines as [|l ls IH]; intros st; cbn [merge_lines].
  - destruct (String.eqb (ms_key st) ""); [apply merge_frame_refl | apply setValue_frame].
  - destruct l as [|c0 r]; [apply IH|].
    destruct (Ascii.eqb c0 "#"%char); [apply IH|].
    destruct (Ascii.eqb c0 "$"%char); [|exact (IH _)].
    assert (Hpre : forall p, p = (if String.eqb (ms_key st) "" then (ms_cfg st, None)
                                  else setValue location fileVersion dv st) ->
                   merge_frame (ms_cfg st) (fst p)).
    { intros p ->. destruct (String.eqb (ms_key st) "");
        [apply merge_frame_refl | apply setValue_frame]. }
    destruct (if String.eqb (ms_key st) "" then (ms_cfg st, None)
              else setValue location fileVersion dv st) as [cfg1 err1] eqn:E1.
    specialize (Hpre _ eq_refl). cbn [fst] in Hpre.
    repeat case_match; cbn [fst]; try exact Hpre;
      (eapply merge_frame_trans; [exact Hpre | apply IH]).
Qed.

Lemma merge_frame_Merge (c : Config) (rd location : string) :
  merge_frame c (fst (Merge c rd location)).
Proof.
  unfold Merge. repeat case_match; cbn [fst]; try apply merge_frame_refl.
  apply (merge_lines_frame location _ _ _ (mkMS c ∅ EmptyString EmptyString EmptyString)).
Qed.

(** [Merge] never changes the specs of the root and of the subcommands
    nor the set of subcommands, the root's app name and version, or the
    selected subcommand; and it keeps [ValidateValues] of the root
    passing, also when it reports an error. *)
Theorem Merge_frame (c : Config) (rd location : string) :
  let c' := fst (Merge c rd location) in
  shape c' = shape c /\ app (node c') = app (node c) /\ version (node c') = version (node c) /\
  currentSub c' = currentSub c /\
  (ValidateValues (node c) = None -> ValidateValues (node c') = None).
Proof. exact (merge_frame_Merge c rd location). Qed.

End Extra_facts4.

Lemma mkOption_valid_witness :
  match mkOption (node demo_root) "PORT" "int32" "the port" [Default_set (VInt32 80)] with
  | Returns (_, o) => Option_Validate o = None
  | Panics _ => False
  end.
Proof.
  destruct (mkOption (node demo_root) "PORT" "int32" "the port" [Default_set (VInt32 80)])
    as [[n' o]|e] eqn:E; [|vm_compute in E; discriminate E].
  exact (proj1 (mkOption_valid _ _ _ _ _ _ _ E)).
Defined.

Lemma CheckMissing_valid_options_witness :
  map_Forall (fun _ o => Option_Validate o = None) (spec demo_default_node) /\
  CheckMissing demo_default_node = None.
Proof.
  assert (Hs : map_Forall (fun _ o => Option_Validate o = None) (spec demo_default_node)).
  { apply (bool_decide_unpack _); vm_compute; reflexivity. }
  split; [exact Hs | exact (CheckMissing_valid_options _ Hs)].
Defined.
